(** * Transform-expression evaluator of [pinot/tools/validate_transforms.py]

    A shallow embedding of the evaluator ([split_top_level_args],
    [strip_quotes], [eval_expr], [json_path_lookup]) together with the
    few library functions it calls ([str.strip], [int], the regular
    expression [FUNC_RE], [datetime.fromisoformat], [datetime.timestamp]),
    and the properties the specification states about them.

    Modelling conventions.
    - A Python [str] is a [list ascii]; a character is a code point in
      the range U+0000..U+00FF.
    - A Python value (a decoded JSON document, or what [eval_expr]
      returns) is a [value]; a [dict] is an association list read by its
      first matching key.
    - A Python [float] is a binary64 number of [SpecFloat], with the
      operations rounded to nearest-even as CPython does.
    - Exceptions are explicit: a computation is an [outcome].  Recursion is
      by fuel; [eval_expr] starts with fuel above the length of the
      expression, which is shown to be always enough: it is the evaluation
      on an interpreter whose call stack is deep enough.  [eval_frames] is
      the evaluation with a given number of stack frames left, which raises
      [RecursionError] when they run out, and [main_frames] is [main] on
      top of it.
    - The library is the one of Python 3.11. *)

From Stdlib Require Import Decimal DecimalString DecimalPos DecimalZ.
From Stdlib Require Import Ascii String ZArith Bool Lia Arith List.
From Stdlib Require Import Floats.SpecFloat.
Import ListNotations.

Set Implicit Arguments.
Set Warnings "-register-all".
Local Open Scope list_scope.

(** ** Strings *)

Definition pystr := list ascii.

(** A literal: [py "abc"] is the Python string ['abc']. *)
Definition py (s : string) : pystr := list_ascii_of_string s.

Definition pystr_eqb (a b : pystr) : bool :=
  if list_eq_dec ascii_dec a b then true else false.

Definition is_char (c : ascii) (s : string) : bool :=
  match s with
  | String d EmptyString => Ascii.eqb c d
  | _ => false
  end.

Arguments is_char : simpl never.

(** [str.isspace] on one character, for code points below 256:
    TAB..CR, FS..US, space, NEL and NBSP. *)
Definition isspace (c : ascii) : bool :=
  let n := nat_of_ascii c in
  ((9 <=? n) && (n <=? 13)) || ((28 <=? n) && (n <=? 32))
  || (n =? 133) || (n =? 160).

Fixpoint lstrip (s : pystr) : pystr :=
  match s with
  | [] => []
  | c :: s' => if isspace c then lstrip s' else s
  end.

Fixpoint rstrip (s : pystr) : pystr :=
  match s with
  | [] => []
  | c :: s' =>
      match rstrip s' with
      | [] => if isspace c then [] else [c]
      | r => c :: r
      end
  end.

(** [s.strip()] *)
Definition strip (s : pystr) : pystr := rstrip (lstrip s).

(** [s.startswith(p)] *)
Fixpoint startswith (s p : pystr) {struct p} : bool :=
  match p with
  | [] => true
  | d :: p' =>
      match s with
      | [] => false
      | c :: s' => Ascii.eqb c d && startswith s' p'
      end
  end.

(** [s.endswith(p)] *)
Definition endswith (s p : pystr) : bool := startswith (rev s) (rev p).

(** ** [split_top_level_args] (lines 16-35) *)

(** The [while] loop, one character per iteration, over the state
    [(args, depth, cur)]; it returns [args] and [cur] as they are when the
    loop ends. *)
Fixpoint split_loop (s : pystr) (args : list pystr) (depth : Z) (cur : pystr)
  : list pystr * pystr :=
  match s with
  | [] => (args, cur)
  | ch :: s' =>
      if is_char ch "(" then split_loop s' args (depth + 1)%Z (cur ++ [ch])
      else if is_char ch ")" then split_loop s' args (depth - 1)%Z (cur ++ [ch])
      else if is_char ch "," && (depth =? 0)%Z
           then split_loop s' (args ++ [strip cur]) depth []
      else split_loop s' args depth (cur ++ [ch])
  end.

Definition split_top_level_args (s : pystr) : list pystr :=
  let '(args, cur) := split_loop s [] 0%Z [] in
  match strip cur with
  | [] => args
  | _ :: _ => args ++ [strip cur]
  end.

(** *** The splitting the specification describes

    [segments d s] cuts [s] at every comma met at nesting depth 0, where
    the depth starts at [d], grows at an opening and shrinks at a closing
    parenthesis.  There is always at least one segment. *)
Fixpoint segments (d : Z) (s : pystr) : list pystr :=
  match s with
  | [] => [[]]
  | ch :: s' =>
      if is_char ch "," && (d =? 0)%Z then [] :: segments d s'
      else
        let d' := if is_char ch "(" then (d + 1)%Z
                  else if is_char ch ")" then (d - 1)%Z else d in
        match segments d' s' with
        | seg :: rest => (ch :: seg) :: rest
        | [] => [[ch]]
        end
  end.

(** The nesting depth after reading [s], having started at [d]. *)
Fixpoint depth_after (d : Z) (s : pystr) : Z :=
  match s with
  | [] => d
  | ch :: s' =>
      depth_after (if is_char ch "(" then (d + 1)%Z
                   else if is_char ch ")" then (d - 1)%Z else d) s'
  end.

(** The specification's [split_args], word for word: the trimmed
    segments, and no argument at all when the input trims to empty. *)
Definition split_args_spec (raw : pystr) : list pystr :=
  match strip raw with
  | [] => []
  | _ :: _ => map strip (segments 0%Z raw)
  end.

(** The segment under construction, [cur], continues with the first
    segment of what is still to be read. *)
Definition glue (cur : pystr) (segs : list pystr) : list pystr :=
  match segs with
  | seg :: rest => (cur ++ seg) :: rest
  | [] => [cur]
  end.

(** Putting the commas back between the segments gives the input. *)
Fixpoint join_commas (segs : list pystr) : pystr :=
  match segs with
  | [] => []
  | [seg] => seg
  | seg :: rest => seg ++ py "," ++ join_commas rest
  end.

(** What the code does with the last segment: it is dropped when blank. *)
Definition drop_blank_last (segs : list pystr) : list pystr :=
  match last segs [] with
  | [] => removelast segs
  | _ :: _ => segs
  end.

(** ** The call pattern [FUNC_RE] (line 8)

    The pattern reads: start of string; group [name], one or more
    characters among letters, digits and underscore; an opening
    parenthesis; group [args], any characters, as many as possible; a
    closing parenthesis; end of string. *)

Definition is_name_char (c : ascii) : bool :=
  let n := nat_of_ascii c in
  ((97 <=? n) && (n <=? 122)) || ((65 <=? n) && (n <=? 90))
  || ((48 <=? n) && (n <=? 57)) || (n =? 95).

(** The longest prefix of characters satisfying [f], and what follows. *)
Fixpoint span (f : ascii -> bool) (s : pystr) : pystr * pystr :=
  match s with
  | [] => ([], [])
  | c :: s' =>
      if f c then let '(a, b) := span f s' in (c :: a, b) else ([], s)
  end.

Definition newline : ascii := ascii_of_nat 10.

Definition has_newline (s : pystr) : bool :=
  existsb (fun c => Ascii.eqb c newline) s.

(** [FUNC_RE.match(s)]: the groups [name] and [args], or [None].
    - [$] matches at the end of the string, or before a line break that is
      its last character;
    - [name] is the longest run of name characters, since what follows it
      must be an opening parenthesis;
    - [.*] takes everything up to the final closing parenthesis, and [.]
      does not match a line break. *)
Definition FUNC_RE_match (s : pystr) : option (pystr * pystr) :=
  let s0 := if endswith s [newline] then removelast s else s in
  let '(name, rest) := span is_name_char s0 in
  match name, rest with
  | _ :: _, op :: body =>
      if is_char op "(" && endswith body (py ")")
         && negb (has_newline (removelast body))
      then Some (name, removelast body)
      else None
  | _, _ => None
  end.

(** The double-quote character. *)
Definition dquote : ascii := ascii_of_nat 34.

(** ** [strip_quotes] (lines 37-41); [s[1:-1]] is [removelast (tl s)]. *)
Definition strip_quotes (s : pystr) : pystr :=
  let s := strip s in
  if (startswith s (py "'") && endswith s (py "'"))
     || (startswith s [dquote] && endswith s [dquote])
  then removelast (tl s)
  else s.

(** ** Values and documents *)

(** A Python value: what [json.load] builds and what [eval_expr] returns. *)
Inductive value : Type :=
  | VNone
  | VBool (b : bool)
  | VInt (z : Z)
  | VFloat (f : spec_float)
  | VStr (s : pystr)
  | VList (l : list value)
  | VDict (d : list (pystr * value)).

(** [d[k]] when [k in d]. *)
Fixpoint dict_get (d : list (pystr * value)) (k : pystr) : option value :=
  match d with
  | [] => None
  | (k', v) :: d' => if pystr_eqb k k' then Some v else dict_get d' k
  end.

(** The values of the specification's [Value]: string, integer or null. *)
Definition is_spec_value (v : value) : bool :=
  match v with
  | VNone | VInt _ | VStr _ => true
  | _ => false
  end.

(** ** [json_path_lookup] (lines 89-101) *)

(** [s.split('.')] *)
Fixpoint split_dot (s : pystr) : list pystr :=
  match s with
  | [] => [[]]
  | c :: s' =>
      if is_char c "." then [] :: split_dot s'
      else match split_dot s' with
           | seg :: rest => (c :: seg) :: rest
           | [] => [[c]]
           end
  end.

(** The [for p in parts] loop, started at [cur]. *)
Fixpoint lookup_loop (parts : list pystr) (cur : value) : value :=
  match parts with
  | [] => cur
  | p :: parts' =>
      match cur with
      | VDict d =>
          match dict_get d p with
          | Some v => lookup_loop parts' v
          | None => VNone
          end
      | _ => VNone
      end
  end.

Definition json_path_lookup (obj : value) (path : pystr) : value :=
  if negb (startswith path (py "$.")) then VNone
  else lookup_loop (split_dot (skipn 2 path)) obj.

(** *** Resolution as the specification describes it

    [resolves v segs w]: starting at [v], every segment in turn is a key of
    the mapping reached so far, and [w] is the value found at the end. *)
Inductive resolves : value -> list pystr -> value -> Prop :=
  | resolves_nil v : resolves v [] v
  | resolves_cons d k ks v w :
      dict_get d k = Some v -> resolves v ks w ->
      resolves (VDict d) (k :: ks) w.

(** What an evaluation can return: a string, an integer or null, or a
    value stored in the document under a chain of mapping keys. *)
Definition from_document (doc v : value) : Prop :=
  exists k ks, resolves doc (k :: ks) v.

Definition result_ok (doc v : value) : Prop :=
  is_spec_value v = true \/ from_document doc v.

(** ** Exceptions *)

Inductive exn : Type := ValueError | OverflowError | RecursionError.

(** The result of running a piece of the program: a value, a raised
    exception, or no result within the fuel given. *)
Inductive outcome (A : Type) : Type :=
  | Ok (a : A)
  | Raised (e : exn)
  | OutOfFuel.

Arguments Ok {A} a.
Arguments Raised {A} e.
Arguments OutOfFuel {A}.

Definition bind {A B : Type} (m : outcome A) (k : A -> outcome B) : outcome B :=
  match m with
  | Ok a => k a
  | Raised e => Raised e
  | OutOfFuel => OutOfFuel
  end.

Notation "x <- m ;; k" := (bind m (fun x => k))
  (at level 61, m at next level, right associativity).

(** [try: m  except Exception: h] *)
Definition try_except {A : Type} (m h : outcome A) : outcome A :=
  match m with
  | Raised _ => h
  | _ => m
  end.

(** A library call that raises [e] when it has no result. *)
Definition or_raise {A : Type} (e : exn) (o : option A) : outcome A :=
  match o with
  | Some a => Ok a
  | None => Raised e
  end.

(** ** [int(s)] on a string *)

Definition digit_value (c : ascii) : option Z :=
  let n := nat_of_ascii c in
  if (48 <=? n) && (n <=? 57) then Some (Z.of_nat (n - 48)) else None.

(** A decimal digit. *)
Definition is_digit (c : ascii) : bool :=
  match digit_value c with Some _ => true | None => false end.

(** Digits after the first one, where a single underscore may separate two
    digits; [acc] is the number read so far and [cnt] how many digits. *)
Fixpoint int_digits (s : pystr) (acc : Z) (cnt : nat) : option (Z * nat) :=
  match s with
  | [] => Some (acc, cnt)
  | c :: s' =>
      match digit_value c with
      | Some v => int_digits s' (10 * acc + v)%Z (S cnt)
      | None =>
          if is_char c "_" then
            match s' with
            | d :: s'' =>
                match digit_value d with
                | Some v => int_digits s'' (10 * acc + v)%Z (S cnt)
                | None => None
                end
            | [] => None
            end
          else None
      end
  end.

Definition int_magnitude (s : pystr) : option (Z * nat) :=
  match s with
  | c :: s' =>
      match digit_value c with
      | Some v => int_digits s' v 1
      | None => None
      end
  | [] => None
  end.

(** Base-10 [int(s)]: surrounding whitespace, an optional sign, digits.
    [max_str_digits] is the interpreter's limit on the number of digits
    ([0] for none), checked only above 640 digits. *)
Definition int_of_str (max_str_digits : nat) (s : pystr) : option Z :=
  let s := strip s in
  let '(neg, body) :=
    match s with
    | c :: s' => if is_char c "-" then (true, s')
                 else if is_char c "+" then (false, s') else (false, s)
    | [] => (false, s)
    end in
  match int_magnitude body with
  | Some (n, cnt) =>
      if (640 <? cnt) && (0 <? max_str_digits) && (max_str_digits <? cnt)
      then None
      else Some (if neg then (- n)%Z else n)
  | None => None
  end.

(** ** Floating point: binary64, round to nearest, ties to even *)

Definition prec : Z := 53.
Definition emax : Z := 1024.

(** An integer as an exact (not yet rounded) binary number. *)
Definition exact_of_int (z : Z) : spec_float :=
  match z with
  | Z0 => S754_zero false
  | Zpos p => S754_finite false p 0
  | Zneg p => S754_finite true p 0
  end.

(** [float(z)]: the integer rounded to binary64. *)
Definition float_of_int (z : Z) : spec_float :=
  binary_normalize prec emax z 0 false.

(** [a / b] on two Python integers: the quotient, rounded once. *)
Definition int_truediv (a b : Z) : spec_float :=
  SFdiv prec emax (exact_of_int a) (exact_of_int b).

Definition float_mul (x y : spec_float) : spec_float := SFmul prec emax x y.
Definition float_add (x y : spec_float) : spec_float := SFadd prec emax x y.
Definition float_div (x y : spec_float) : spec_float := SFdiv prec emax x y.

(** [int(x)] on a float: the fraction is discarded (rounding toward zero);
    an infinity raises [OverflowError], a NaN [ValueError]. *)
Definition int_of_float (x : spec_float) : outcome Z :=
  match x with
  | S754_zero _ => Ok 0%Z
  | S754_finite s m e =>
      let mag := match e with
                 | Zneg p => Z.shiftr (Zpos m) (Zpos p)
                 | _ => Z.shiftl (Zpos m) e
                 end in
      Ok (if s then (- mag)%Z else mag)
  | S754_infinity _ => Raised OverflowError
  | S754_nan => Raised ValueError
  end.

(** ** [datetime] *)

(** The fields of a [datetime]; [tzoffset] is the UTC offset in
    microseconds of an aware value, [None] for a naive one. *)
Record datetime : Type := mkdatetime {
  year : Z; month : Z; day : Z;
  hour : Z; minute : Z; second : Z; microsecond : Z;
  tzoffset : option Z
}.

Definition is_leap (y : Z) : bool :=
  ((y mod 4 =? 0) && (negb (y mod 100 =? 0) || (y mod 400 =? 0)))%Z.

Definition days_before_month (y m : Z) : Z :=
  (nth (Z.to_nat (m - 1)) [0; 31; 59; 90; 120; 151; 181; 212; 243; 273; 304; 334] 0
   + (if (2 <? m) && is_leap y then 1 else 0))%Z.

Definition days_in_month (y m : Z) : Z :=
  if (m =? 2)%Z && is_leap y then 29%Z
  else nth (Z.to_nat (m - 1)) [31; 28; 31; 30; 31; 30; 31; 31; 30; 31; 30; 31]%Z 0%Z.

(** The proleptic Gregorian ordinal: 1 for 0001-01-01. *)
Definition ymd2ord (y m d : Z) : Z :=
  (let y1 := y - 1 in
   y1 * 365 + y1 / 4 - y1 / 100 + y1 / 400 + days_before_month y m + d)%Z.

(** The ordinal of 1970-01-01. *)
Definition epoch_ord : Z := 719163.

(** Seconds from 1970-01-01T00:00:00 to the wall-clock reading of [dt],
    whatever its zone. *)
Definition wall_seconds (dt : datetime) : Z :=
  ((ymd2ord (year dt) (month dt) (day dt) - epoch_ord) * 86400
   + hour dt * 3600 + minute dt * 60 + second dt)%Z.

(** The argument check of the [datetime] constructor and of [timezone]. *)
Definition valid_datetime (dt : datetime) : bool :=
  ((1 <=? year dt) && (year dt <=? 9999)
   && (1 <=? month dt) && (month dt <=? 12)
   && (1 <=? day dt) && (day dt <=? days_in_month (year dt) (month dt))
   && (0 <=? hour dt) && (hour dt <=? 23)
   && (0 <=? minute dt) && (minute dt <=? 59)
   && (0 <=? second dt) && (second dt <=? 59)
   && (0 <=? microsecond dt) && (microsecond dt <=? 999999)
   && match tzoffset dt with
      | Some off => (-86400000000 <? off) && (off <? 86400000000)
      | None => true
      end)%Z.

(** *** [datetime.fromisoformat]

    The parser of the library as of Python 3.11, which reads most ISO
    8601 forms: a date [YYYY-MM-DD], [YYYYMMDD], [YYYY-Www[-D]] or
    [YYYYWww[D]]; then, optionally, any one character and a time
    [HH[:MM[:SS]]] or [HH[MM[SS]]] with an optional fraction after [.] or
    [,], and an optional [Z] or UTC offset written like a time.  The
    library works on the UTF-8 bytes of the string, which end with a zero
    byte, and the definitions below follow it byte by byte; that is why a
    character is looked at with [peek], which gives the zero byte at the
    end. *)

(** The UTF-8 bytes of a string of code points below U+0100. *)
Definition utf8 (s : pystr) : list ascii :=
  flat_map (fun c =>
              let n := nat_of_ascii c in
              if n <? 128 then [c]
              else [ascii_of_nat (192 + n / 64); ascii_of_nat (128 + n mod 64)])
           s.

(** The byte at the head of [p], the zero byte at the end. *)
Definition peek (p : list ascii) : ascii := hd zero p.

Definition is_nul (c : ascii) : bool := Ascii.eqb c zero.

(** Exactly [n] decimal digits, and what follows them. *)
Fixpoint parse_digits (n : nat) (s : list ascii) (acc : Z)
  : option (Z * list ascii) :=
  match n with
  | O => Some (acc, s)
  | S n' =>
      match s with
      | c :: s' =>
          match digit_value c with
          | Some v => parse_digits n' s' (10 * acc + v)%Z
          | None => None
          end
      | [] => None
      end
  end.

(** Where the date ends: at byte 7, 8 or 10, told from bytes 4 and 5 and
    from the digits after a week number. *)
Definition find_isoformat_datetime_separator (dtstr : list ascii)
  : option nat :=
  let len := length dtstr in
  let at_ i := nth i dtstr zero in
  if len =? 7 then Some 7
  else if is_char (at_ 4) "-" then
    if is_char (at_ 5) "W" then
      if len <? 8 then None
      else if (8 <? len) && is_char (at_ 8) "-" then
        if len =? 9 then None
        else if (10 <? len) && is_digit (at_ 10) then Some 8
        else Some 10
      else Some 8
    else Some 10
  else if is_char (at_ 4) "W" then
    let idx := 7 + length (fst (span is_digit (skipn 7 dtstr))) in
    if idx <? 9 then Some idx
    else if Nat.even idx then Some 7 else Some 8
  else Some 8.

(** The year, month and day of a proleptic Gregorian ordinal. *)
Definition ord2ymd (ordinal : Z) : Z * Z * Z :=
  (let n := ordinal - 1 in
   let n400 := n / 146097 in
   let n := n mod 146097 in
   let n100 := n / 36524 in
   let n := n mod 36524 in
   let n4 := n / 1461 in
   let n := n mod 1461 in
   let n1 := n / 365 in
   let n := n mod 365 in
   let y := n400 * 400 + 1 + n100 * 100 + n4 * 4 + n1 in
   if (n1 =? 4) || (n100 =? 4) then (y - 1, 12, 31)
   else
     let m := (n + 50) / 32 in
     if n <? days_before_month y m
     then (y, m - 1, n - (days_before_month y m - days_in_month y (m - 1)) + 1)
     else (y, m, n - days_before_month y m + 1))%Z.

(** The weekday of a date, 0 for Monday. *)
Definition weekday (y m d : Z) : Z := ((ymd2ord y m d + 6) mod 7)%Z.

(** The ordinal of the Monday that starts ISO week 1 of year [y]. *)
Definition iso_week1_monday (y : Z) : Z :=
  (let first_day := ymd2ord y 1 1 in
   let first_weekday := (first_day + 6) mod 7 in
   let week1_monday := first_day - first_weekday in
   if 3 <? first_weekday then week1_monday + 7 else week1_monday)%Z.

(** An ISO year, week and weekday as year, month and day.  Week 53 exists
    in years that start on a Thursday, and in leap years that start on a
    Wednesday.  A day before 0001-01-01 has no year, month and day. *)
Definition iso_to_ymd (iso_year iso_week iso_day : Z) : option (Z * Z * Z) :=
  (if ((iso_week <=? 0) || (53 <=? iso_week))
      && negb ((iso_week =? 53)
               && ((weekday iso_year 1 1 =? 3)
                   || ((weekday iso_year 1 1 =? 2) && is_leap iso_year)))
   then None
   else if (iso_day <=? 0) || (8 <=? iso_day) then None
   else
     let ordinal :=
       iso_week1_monday iso_year + (iso_week - 1) * 7 + iso_day - 1 in
     if ordinal <? 1 then None else Some (ord2ymd ordinal))%Z.

(** The date: the first [len] bytes of [dtstr]. *)
Definition parse_isoformat_date (dtstr : list ascii) (len : nat)
  : option (Z * Z * Z) :=
  match parse_digits 4 dtstr 0 with
  | None => None
  | Some (y, p) =>
      let uses_separator := is_char (peek p) "-" in
      let p := if uses_separator then tl p else p in
      if is_char (peek p) "W" then
        match parse_digits 2 (tl p) 0 with
        | None => None
        | Some (iso_week, p) =>
            if length dtstr - length p <? len then
              if uses_separator && negb (is_char (peek p) "-") then None
              else
                match parse_digits 1 (if uses_separator then tl p else p) 0
                with
                | None => None
                | Some (iso_day, _) => iso_to_ymd y iso_week iso_day
                end
            else iso_to_ymd y iso_week 1
        end
      else
        match parse_digits 2 p 0 with
        | None => None
        | Some (m, p) =>
            if uses_separator && negb (is_char (peek p) "-") then None
            else
              match parse_digits 2 (if uses_separator then tl p else p) 0 with
              | None => None
              | Some (d, _) => Some (y, m, d)
              end
        end
  end.

(** What the loop over hour, minute and second ends with: an error; the
    end of the part, with the byte last read; or the start of a
    fraction. *)
Inductive hms : Type :=
  | HmsError
  | HmsEnd (vals : list Z) (last : ascii)
  | HmsFraction (vals : list Z) (p : list ascii) (rem : nat).

(** The loop of [parse_hh_mm_ss_ff] over at most [todo] two-digit
    numbers; [p] is what is left to read, of which [rem] bytes belong to
    the part, and [first] tells the first number, after which the
    separator is fixed: a colon, or none. *)
Fixpoint parse_hh_mm_ss (todo : nat) (first has_separator : bool)
    (p : list ascii) (rem : nat) (vals : list Z) : hms :=
  match todo with
  | O => HmsFraction vals p rem
  | S todo' =>
      match parse_digits 2 p 0 with
      | None => HmsError
      | Some (v, p1) =>
          let c := peek p1 in
          let has_separator := if first then is_char c ":" else has_separator in
          if rem <=? 3 then HmsEnd (vals ++ [v]) c
          else if has_separator && is_char c ":" then
            parse_hh_mm_ss todo' false has_separator (tl p1) (rem - 3)
                           (vals ++ [v])
          else if is_char c "." || is_char c "," then
            HmsFraction (vals ++ [v]) (tl p1) (rem - 3)
          else if negb has_separator then
            parse_hh_mm_ss todo' false has_separator p1 (rem - 2) (vals ++ [v])
          else HmsError
      end
  end.

(** A time or an offset, [rem] bytes at the head of [p]: hour, minute,
    second, microsecond, and whether a byte other than the zero byte
    follows what was read.  At most six digits of a fraction count, and
    further digits are skipped. *)
Definition parse_hh_mm_ss_ff (p : list ascii) (rem : nat)
  : option (Z * Z * Z * Z * bool) :=
  match parse_hh_mm_ss 3 true true p rem [] with
  | HmsError => None
  | HmsEnd vals c =>
      Some (nth 0 vals 0, nth 1 vals 0, nth 2 vals 0, 0, negb (is_nul c))%Z
  | HmsFraction vals p' rem' =>
      let to_parse := Nat.min 6 rem' in
      match parse_digits to_parse p' 0 with
      | None => None
      | Some (us, p'') =>
          Some (nth 0 vals 0, nth 1 vals 0, nth 2 vals 0,
                us * 10 ^ Z.of_nat (6 - to_parse),
                negb (is_nul (peek (snd (span is_digit p'')))))%Z
      end
  end.

Definition is_tz_char (c : ascii) : bool :=
  is_char c "Z" || is_char c "+" || is_char c "-".

(** The time part [p]: the clock reading up to the first [Z] or sign,
    then the offset in microseconds.  An offset of zero seconds is UTC,
    whatever its fraction. *)
Definition parse_isoformat_time (p : list ascii)
  : option (Z * Z * Z * Z * option Z) :=
  match p with
  | [] => None
  | _ :: _ =>
      let '(clock, rest) := span (fun c => negb (is_tz_char c)) p in
      match parse_hh_mm_ss_ff p (length clock) with
      | None => None
      | Some (h, m, s, us, more) =>
          match rest with
          | [] => if more then None else Some (h, m, s, us, None)
          | z :: tz =>
              if is_char z "Z" then
                if is_nul (peek tz) then Some (h, m, s, us, Some 0%Z) else None
              else
                match parse_hh_mm_ss_ff tz (length tz) with
                | Some (th, tm, ts, tus, false) =>
                    let sign := if is_char z "-" then (-1)%Z else 1%Z in
                    let secs := (sign * (th * 3600 + tm * 60 + ts))%Z in
                    Some (h, m, s, us,
                          Some (if (secs =? 0)%Z then 0%Z
                                else (secs * 1000000 + sign * tus)%Z))
                | _ => None
                end
          end
      end
  end.

(** [datetime.fromisoformat(s)]: at least seven characters; the date up
    to the separator; the time after it, when there is one; and the
    argument check of the constructors. *)
Definition fromisoformat (s : pystr) : option datetime :=
  if length s <? 7 then None
  else
    let dtstr := utf8 s in
    let check dt := if valid_datetime dt then Some dt else None in
    match find_isoformat_datetime_separator dtstr with
    | None => None
    | Some sep =>
        match parse_isoformat_date dtstr sep with
        | None => None
        | Some (y, m, d) =>
            if sep <? length dtstr then
              let p := skipn sep dtstr in
              let p := if nat_of_ascii (peek p) <? 128 then skipn 1 p
                       else skipn 2 p in
              match parse_isoformat_time p with
              | Some (h, mi, sec, us, off) =>
                  check (mkdatetime y m d h mi sec us off)
              | None => None
              end
            else check (mkdatetime y m d 0 0 0 0 None)
        end
    end.

(** *** [datetime.timestamp]

    An aware value: its distance from the epoch in microseconds, divided by
    a million.  A naive value is read in the local time zone of the
    process: [local_seconds] gives the POSIX time of its wall-clock
    reading, or nothing when the platform cannot convert it, and the
    microseconds are added as a float. *)
Definition timestamp (local_seconds : datetime -> option Z) (dt : datetime)
  : outcome spec_float :=
  match tzoffset dt with
  | Some off =>
      Ok (int_truediv ((wall_seconds dt * 1000000 + microsecond dt) - off)
                      1000000)
  | None =>
      secs <- or_raise OverflowError (local_seconds dt) ;;
      Ok (float_add (float_of_int secs)
                    (float_div (float_of_int (microsecond dt))
                               (float_of_int 1000000)))
  end.

(** ** [eval_expr] (lines 43-87) *)

(** Lines 77-80: what [fromDateTime] hands to the parser; a final [Z]
    becomes [+00:00]. *)
Definition normalize_z (v : pystr) : pystr :=
  if endswith v (py "Z") then removelast v ++ py "+00:00" else v.

(** The environment of the process: the interpreter's limit on the digits
    of an integer literal, and its local time zone. *)
Record env : Type := mkenv {
  max_str_digits : nat;
  local_seconds : datetime -> option Z
}.

Section Evaluator.

Variable E : env.

(** Lines 47-53: the expression is not a call. *)
Definition eval_literal (expr : pystr) : outcome value :=
  if startswith expr (py "'") || startswith expr [dquote]
  then Ok (VStr (strip_quotes expr))
  else try_except
         (n <- or_raise ValueError (int_of_str (max_str_digits E) expr) ;;
          Ok (VInt n))
         (Ok (VStr expr)).

(** [v not in (None, '', [])] *)
Definition is_present (v : value) : bool :=
  match v with
  | VNone | VStr [] | VList [] => false
  | _ => true
  end.

(** Lines 65-69: the [for a in args] loop of [coalesce]; [ev] evaluates
    one argument. *)
Fixpoint coalesce_loop (ev : pystr -> outcome value) (args : list pystr)
  : outcome value :=
  match args with
  | [] => Ok VNone
  | a :: args' =>
      v <- ev a ;;
      if is_present v then Ok v else coalesce_loop ev args'
  end.

(** Lines 77-85: the string [v] to epoch milliseconds. *)
Definition epoch_millis (v : pystr) : outcome value :=
  try_except
    (dt <- or_raise ValueError (fromisoformat (normalize_z v)) ;;
     ts <- timestamp (local_seconds E) dt ;;
     n <- int_of_float (float_mul ts (float_of_int 1000)) ;;
     Ok (VInt n))
    (Ok VNone).

(** Lines 57-87: the dispatch on the function name, once the call
    pattern has matched; [ev] evaluates an argument. *)
Definition eval_call (ev : pystr -> outcome value) (name : pystr)
    (args : list pystr) (payload : value) : outcome value :=
  if pystr_eqb name (py "jsonPathString") || pystr_eqb name (py "jsonPathInt")
  then
    if negb (length args =? 2)%nat then Ok VNone
    else Ok (json_path_lookup payload (strip_quotes (nth 1 args [])))
  else if pystr_eqb name (py "coalesce") then coalesce_loop ev args
  else if pystr_eqb name (py "fromDateTime") then
    if (length args <? 1)%nat then Ok VNone
    else
      v <- ev (nth 0 args []) ;;
      match v with
      | VStr s => epoch_millis s
      | _ => Ok VNone
      end
  else Ok VNone.

(** [eval_expr] with fuel for the depth of its recursion.  With fuel
    above the length of the expression this is the evaluation on a call
    stack that is deep enough; the bound that the interpreter puts on
    the stack is in [eval_frames] below. *)
Fixpoint eval_fuel (fuel : nat) (expr : pystr) (payload : value)
  : outcome value :=
  match fuel with
  | O => OutOfFuel
  | S fuel' =>
      let expr := strip expr in
      match FUNC_RE_match expr with
      | None => eval_literal expr
      | Some (name, raw) =>
          eval_call (fun a => eval_fuel fuel' a payload)
                    name (split_top_level_args raw) payload
      end
  end.

Definition eval_expr (expr : pystr) (payload : value) : outcome value :=
  eval_fuel (S (length expr)) expr payload.

(** *** The call stack

    The interpreter bounds the depth of its call stack, and a call that
    would exceed the bound raises [RecursionError].  [frames] is the
    number of calls of functions of the program that may still be nested
    when [eval_expr] is called.  [eval_expr] calls itself at lines 66 and
    74, outside any [try]; [split_top_level_args], [strip_quotes] and
    [json_path_lookup] call no function of the program in turn, so that
    one frame is enough for each of them.  What the calls of built-in
    functions and methods need is not counted. *)

(** The call of a function that needs one frame, with [room] frames
    left. *)
Definition call_leaf {A : Type} (room : nat) (m : outcome A) : outcome A :=
  match room with
  | O => Raised RecursionError
  | S _ => m
  end.

(** [eval_expr] with [frames] frames left: one is taken by the call
    itself; line 49 calls [strip_quotes] and line 55 calls
    [split_top_level_args] with those that remain, and so do the
    recursive calls. *)
Fixpoint eval_frames (frames : nat) (expr : pystr) (payload : value)
  : outcome value :=
  match frames with
  | O => Raised RecursionError
  | S room =>
      let expr := strip expr in
      match FUNC_RE_match expr with
      | None =>
          if startswith expr (py "'") || startswith expr [dquote]
          then call_leaf room (eval_literal expr)
          else eval_literal expr
      | Some (name, raw) =>
          call_leaf room
            (eval_call (fun a => eval_frames room a payload)
                       name (split_top_level_args raw) payload)
      end
  end.

End Evaluator.

(** The first and the last second of the years 1 to 9999, counted from
    the epoch. *)
Definition min_seconds : Z :=
  wall_seconds (mkdatetime 1 1 1 0 0 0 0 None).

Definition max_seconds : Z :=
  wall_seconds (mkdatetime 9999 12 31 23 59 59 0 None).

Definition in_years (t : Z) : bool :=
  ((min_seconds <=? t) && (t <=? max_seconds))%Z.

(** The POSIX time of a wall-clock reading where local time is always
    [off] seconds ahead of UTC.  The library takes the reading as if it
    were UTC and converts that instant to local time, and then the reading
    of one day earlier, where an hour repeated by a change of the clock
    would show; it raises [ValueError] when either lands outside the
    years 1 to 9999. *)
Definition fixed_zone_seconds (off : Z) (dt : datetime) : option Z :=
  (let t := wall_seconds dt in
   if in_years (t + off) && in_years (t - 86400) then Some (t - off)
   else None)%Z.

(** An environment for examples: the default digit limit, and UTC as the
    local time zone. *)
Definition utc_env : env := mkenv 4300 (fixed_zone_seconds 0).

(** An environment whose local time is [off] seconds ahead of UTC. *)
Definition offset_env (off : Z) : env := mkenv 4300 (fixed_zone_seconds off).

(** The first sample document of the specification. *)
Definition doc_ab : value := VDict [(py "a", VDict [(py "b", VInt 5)])].

(** ** Vocabulary of the statements *)

(** The text of a call: a name, and the argument text in parentheses. *)
Definition call (name raw : pystr) : pystr :=
  name ++ py "(" ++ raw ++ py ")".

(** A string with neither a comma nor a line break. *)
Definition plain (p : pystr) : bool :=
  forallb (fun c => negb (is_char c ",")) p && negb (has_newline p).

(** The path [path] is found in [doc] at [w]: it starts with [$.] and the
    segments after it resolve, one mapping key after the other. *)
Definition path_found (doc : value) (path : pystr) (w : value) : Prop :=
  exists rest, path = py "$." ++ rest /\ resolves doc (split_dot rest) w.

(** A null, an empty string or an empty sequence: what [coalesce] skips. *)
Definition skipped (v : value) : Prop :=
  v = VNone \/ v = VStr [] \/ v = VList [].

(** The names the dispatch knows. *)
Definition known_name (name : pystr) : bool :=
  pystr_eqb name (py "jsonPathString") || pystr_eqb name (py "jsonPathInt")
  || pystr_eqb name (py "coalesce") || pystr_eqb name (py "fromDateTime").

(** The instant of an aware [datetime], in microseconds since the epoch. *)
Definition epoch_micros (dt : datetime) : option Z :=
  match tzoffset dt with
  | Some off => Some (wall_seconds dt * 1000000 + microsecond dt - off)%Z
  | None => None
  end.

(** The specification's result for an instant: the floor of its seconds
    since the epoch times a thousand, that is, of its microseconds over a
    thousand. *)
Definition floor_millis (micros : Z) : Z := (micros / 1000)%Z.

(** A float that is a zero, or finite with exponent at most [K] and
    magnitude at most [2 ^ K]. *)
Definition small (K : Z) (x : spec_float) : Prop :=
  match x with
  | S754_zero _ => True
  | S754_finite _ m e => (e <= K /\ Zpos m <= 2 ^ (K - e))%Z
  | _ => False
  end.

(** ** [main] (lines 103-125), once the two files are read

    [main_body] is [main] from line 109 on, given the decoded table
    configuration and sample event.  Each [print] is an [event] that
    keeps the values printed; a run is what was printed and the exception
    that ended it, if any.  [main_body] runs on a call stack that is deep
    enough, and [main_frames] with a given number of frames left. *)

Inductive fault : Type :=
  | AttributeError
  | TypeError
  | Uncaught (e : exn)
  | Unfinished.

Inductive result (A : Type) : Type :=
  | Good (a : A)
  | Bad (f : fault).

Arguments Good {A} a.
Arguments Bad {A} f.

Inductive event : Type :=
  | NoTransforms
  | Validating (table_name : value)
  | Transform (col expr val : value)
  | SomeNone
  | AllProduced.

Record run : Type := mkrun {
  printed : list event;
  raised : option fault
}.

(** The truth value of a Python value, as [or] and [not] take it. *)
Definition truthy (v : value) : bool :=
  match v with
  | VNone => false
  | VBool b => b
  | VInt z => negb (z =? 0)%Z
  | VFloat (S754_zero _) => false
  | VFloat _ => true
  | VStr s => match s with [] => false | _ => true end
  | VList l => match l with [] => false | _ => true end
  | VDict d => match d with [] => false | _ => true end
  end.

(** [a or b] *)
Definition py_or (a b : value) : value := if truthy a then a else b.

(** [v.get(k)]: only a [dict] has the method. *)
Definition method_get (v : value) (k : pystr) : result value :=
  match v with
  | VDict d =>
      Good match dict_get d k with Some x => x | None => VNone end
  | _ => Bad AttributeError
  end.

(** [for t in v]: the elements of a list, the keys of a [dict], the
    characters of a string; nothing else is iterable. *)
Definition iterate (v : value) : result (list value) :=
  match v with
  | VList l => Good l
  | VDict d => Good (map (fun kv => VStr (fst kv)) d)
  | VStr s => Good (map (fun c => VStr [c]) s)
  | _ => Bad TypeError
  end.

Definition is_none (v : value) : bool :=
  match v with VNone => true | _ => false end.

Section Main.

Variable E : env.

(** [eval_expr(expr, sample)] on whatever [expr] is: [expr.strip()] needs
    a string. *)
Definition eval_any (expr sample : value) : result value :=
  match expr with
  | VStr s =>
      match eval_expr E s sample with
      | Ok v => Good v
      | Raised e => Bad (Uncaught e)
      | OutOfFuel => Bad Unfinished
      end
  | _ => Bad AttributeError
  end.

(** Lines 115-125: the loop over the transform configurations and the
    closing message; [ok] is the flag and [out] what is printed so far. *)
Fixpoint transforms_loop (ts : list value) (sample : value) (ok : bool)
    (out : list event) : run :=
  match ts with
  | [] => mkrun (out ++ [if ok then AllProduced else SomeNone]) None
  | t :: ts' =>
      match method_get t (py "columnName") with
      | Bad f => mkrun out (Some f)
      | Good col =>
          match method_get t (py "transformFunction") with
          | Bad f => mkrun out (Some f)
          | Good expr =>
              match eval_any expr sample with
              | Bad f => mkrun out (Some f)
              | Good val =>
                  transforms_loop ts' sample (ok && negb (is_none val))
                                  (out ++ [Transform col expr val])
              end
          end
      end
  end.

Definition main_body (table sample : value) : run :=
  match method_get table (py "ingestionConfig") with
  | Bad f => mkrun [] (Some f)
  | Good ic =>
      match method_get (py_or ic (VDict [])) (py "transformConfigs") with
      | Bad f => mkrun [] (Some f)
      | Good tc =>
          let tcfgs := py_or tc (VList []) in
          if negb (truthy tcfgs) then mkrun [NoTransforms] None
          else
            match method_get table (py "tableName") with
            | Bad f => mkrun [] (Some f)
            | Good tn =>
                match iterate tcfgs with
                | Bad f => mkrun [Validating tn] (Some f)
                | Good ts => transforms_loop ts sample true [Validating tn]
                end
            end
      end
  end.

(** The same with [frames] frames left in [main]: the call of
    [eval_expr] takes one before [expr.strip()] is tried. *)
Definition eval_any_frames (frames : nat) (expr sample : value)
  : result value :=
  match frames with
  | O => Bad (Uncaught RecursionError)
  | S _ =>
      match expr with
      | VStr s =>
          match eval_frames E frames s sample with
          | Ok v => Good v
          | Raised e => Bad (Uncaught e)
          | OutOfFuel => Bad Unfinished
          end
      | _ => Bad AttributeError
      end
  end.

Fixpoint transforms_loop_frames (frames : nat) (ts : list value)
    (sample : value) (ok : bool) (out : list event) : run :=
  match ts with
  | [] => mkrun (out ++ [if ok then AllProduced else SomeNone]) None
  | t :: ts' =>
      match method_get t (py "columnName") with
      | Bad f => mkrun out (Some f)
      | Good col =>
          match method_get t (py "transformFunction") with
          | Bad f => mkrun out (Some f)
          | Good expr =>
              match eval_any_frames frames expr sample with
              | Bad f => mkrun out (Some f)
              | Good val =>
                  transforms_loop_frames frames ts' sample
                                         (ok && negb (is_none val))
                                         (out ++ [Transform col expr val])
              end
          end
      end
  end.

Definition main_frames (frames : nat) (table sample : value) : run :=
  match method_get table (py "ingestionConfig") with
  | Bad f => mkrun [] (Some f)
  | Good ic =>
      match method_get (py_or ic (VDict [])) (py "transformConfigs") with
      | Bad f => mkrun [] (Some f)
      | Good tc =>
          let tcfgs := py_or tc (VList []) in
          if negb (truthy tcfgs) then mkrun [NoTransforms] None
          else
            match method_get table (py "tableName") with
            | Bad f => mkrun [] (Some f)
            | Good tn =>
                match iterate tcfgs with
                | Bad f => mkrun [Validating tn] (Some f)
                | Good ts =>
                    transforms_loop_frames frames ts sample true
                                           [Validating tn]
                end
            end
      end
  end.

(** The value of the transform of one configuration, null when it has
    none. *)
Definition transform_value (sample t : value) : value :=
  match method_get t (py "transformFunction") with
  | Good (VStr s) =>
      match eval_expr E s sample with Ok v => v | _ => VNone end
  | _ => VNone
  end.

(** The line printed for one configuration. *)
Definition transform_line (sample t : value) : event :=
  Transform
    match method_get t (py "columnName") with Good c => c | Bad _ => VNone end
    match method_get t (py "transformFunction") with
    | Good e => e
    | Bad _ => VNone
    end
    (transform_value sample t).

End Main.

(** A transform configuration [main] can report: a mapping whose
    [transformFunction] is a string. *)
Definition reportable (t : value) : Prop :=
  exists d s, t = VDict d /\ dict_get d (py "transformFunction") = Some (VStr s).

(** A table configuration whose transform configurations are the list
    [ts]. *)
Definition table_with (table : value) (ts : list value) : Prop :=
  exists d c,
    table = VDict d
    /\ dict_get d (py "ingestionConfig") = Some (VDict c)
    /\ dict_get c (py "transformConfigs") = Some (VList ts).

(** What [table.get('tableName')] gives for a mapping. *)
Definition table_name (table : value) : value :=
  match method_get table (py "tableName") with Good n => n | Bad _ => VNone end.

(** A key that is missing, or whose value counts as false. *)
Definition absent_or_falsy (o : option value) : Prop :=
  match o with
  | None => True
  | Some v => truthy v = false
  end.

(** The closing message for the configurations [ts]. *)
Definition verdict (E : env) (sample : value) (ts : list value) : event :=
  if forallb (fun t => negb (is_none (transform_value E sample t))) ts
  then AllProduced else SomeNone.

(** A small table configuration: two transforms, the second of which
    evaluates to null. *)
Definition transform_b : value :=
  VDict [(py "columnName", VStr (py "b"));
         (py "transformFunction", VStr (py "jsonPathInt($, '$.a.b')"))].

Definition transform_x : value :=
  VDict [(py "columnName", VStr (py "x"));
         (py "transformFunction", VStr (py "coalesce('')"))].

Definition table_of (ts : value) : value :=
  VDict [(py "tableName", VStr (py "events"));
         (py "ingestionConfig", VDict [(py "transformConfigs", ts)])].

(** ** Vocabulary of the further properties *)

(** An argument list written out: the arguments, with a comma and a space
    between them. *)
Fixpoint join_args (args : list pystr) : pystr :=
  match args with
  | [] => []
  | [a] => a
  | a :: rest => a ++ py ", " ++ join_args rest
  end.

(** Text that can stand as one argument: trimmed, with every parenthesis
    closed and no comma outside parentheses. *)
Definition one_arg (a : pystr) : Prop :=
  strip a = a /\ segments 0%Z a = [a] /\ depth_after 0%Z a = 0%Z.

(** The decimal numeral of an integer, as [str(z)] writes it. *)
Definition decimal (z : Z) : pystr := py (NilZero.string_of_int (Z.to_int z)).

(** A float that is exactly the integer [z] times [2 ^ E]: a zero when [z]
    is 0, and otherwise the sign of [z] with a mantissa [|z| * 2 ^ k] at
    the exponent [E - k]. *)
Definition holds (x : spec_float) (z E : Z) : Prop :=
  match x with
  | S754_zero _ => z = 0%Z
  | S754_finite s m e =>
      z <> 0%Z /\ s = (z <? 0)%Z
      /\ exists k, (0 <= k /\ e = E - k /\ Zpos m = Z.abs z * 2 ^ k)%Z
  | _ => False
  end.

(** [n] calls of [coalesce], one inside the other, around the literal
    [1]. *)
Fixpoint nested_coalesce (n : nat) : pystr :=
  match n with
  | O => py "1"
  | S n' => call (py "coalesce") (nested_coalesce n')
  end.

(** A transform configuration [main] can report with [frames] frames
    left: its [transformFunction] is a string at least two characters
    shorter than that. *)
Definition fits (frames : nat) (t : value) : Prop :=
  exists d s,
    t = VDict d
    /\ dict_get d (py "transformFunction") = Some (VStr s)
    /\ length s + 2 <= frames.

(** A path written out: the keys, with a dot between them. *)
Fixpoint join_dots (keys : list pystr) : pystr :=
  match keys with
  | [] => []
  | [k] => k
  | k :: rest => k ++ py "." ++ join_dots rest
  end.

(** A key without a dot. *)
Definition dot_free (k : pystr) : bool :=
  forallb (fun c => negb (is_char c ".")) k.

(** A quote character, single or double. *)
Definition is_quote (q : ascii) : bool := is_char q "'" || Ascii.eqb q dquote.

(** * Properties *)

(** ** Strings *)

Lemma pystr_eqb_eq (a b : pystr) : pystr_eqb a b = true <-> a = b.
Proof.
  unfold pystr_eqb. destruct (list_eq_dec ascii_dec a b); split; congruence.
Qed.

Lemma pystr_eqb_refl (a : pystr) : pystr_eqb a a = true.
Proof. now apply pystr_eqb_eq. Qed.

Lemma lstrip_length (s : pystr) : length (lstrip s) <= length s.
Proof.
  induction s as [|c s IH]; simpl; [lia|].
  destruct (isspace c); simpl; lia.
Qed.

Lemma rstrip_length (s : pystr) : length (rstrip s) <= length s.
Proof.
  induction s as [|c s IH]; simpl; [lia|].
  destruct (rstrip s); [destruct (isspace c)|]; simpl in *; lia.
Qed.

Lemma strip_length (s : pystr) : length (strip s) <= length s.
Proof.
  unfold strip. pose proof (rstrip_length (lstrip s)).
  pose proof (lstrip_length s). lia.
Qed.

(** A string of whitespace only strips to nothing, and conversely. *)
Lemma rstrip_blank (s : pystr) : rstrip s = [] <-> forallb isspace s = true.
Proof.
  induction s as [|c s IH]; simpl; [tauto|].
  destruct (rstrip s) eqn:E.
  - destruct (isspace c); simpl; [tauto|]. split; discriminate.
  - split; [discriminate|]. intros H. apply andb_prop in H.
    destruct IH as [_ IH]. now specialize (IH (proj2 H)).
Qed.

Lemma lstrip_blank (s : pystr) : lstrip s = [] <-> forallb isspace s = true.
Proof.
  induction s as [|c s IH]; simpl; [tauto|].
  destruct (isspace c); simpl; [exact IH|]. split; discriminate.
Qed.

Lemma lstrip_forallb (s : pystr) :
  forallb isspace (lstrip s) = true -> forallb isspace s = true.
Proof.
  induction s as [|c s IH]; simpl; [auto|].
  destruct (isspace c) eqn:E; simpl; [exact IH|].
  rewrite E. discriminate.
Qed.

Lemma strip_blank (s : pystr) : strip s = [] <-> forallb isspace s = true.
Proof.
  unfold strip. rewrite rstrip_blank. split.
  - apply lstrip_forallb.
  - intros H. apply lstrip_blank in H. now rewrite H.
Qed.

(** A string that neither starts nor ends with whitespace is left alone. *)
Lemma rstrip_snoc (s : pystr) (c : ascii) :
  isspace c = false -> rstrip (s ++ [c]) = s ++ [c].
Proof.
  intros Hc. induction s as [|a s IH]; simpl.
  - now rewrite Hc.
  - rewrite IH. destruct (s ++ [c]) eqn:E; [|reflexivity].
    now destruct s.
Qed.

Lemma strip_fixed (a c : ascii) (s : pystr) :
  isspace a = false -> isspace c = false ->
  strip (a :: s ++ [c]) = a :: s ++ [c].
Proof.
  intros Ha Hc. unfold strip. simpl lstrip. rewrite Ha.
  change (a :: s ++ [c]) with ((a :: s) ++ [c]). now apply rstrip_snoc.
Qed.

(** ** Argument splitting *)

Lemma is_char_eq (c d : ascii) : is_char c (String d "") = true -> c = d.
Proof. apply Ascii.eqb_eq. Qed.

(** Settles a goal about a character known to be a given one. *)
Ltac char_cases c :=
  repeat match goal with
         | H : is_char c (String _ "") = true |- _ =>
             apply is_char_eq in H; subst c
         end;
  try reflexivity; try discriminate.

Lemma segments_nonempty (d : Z) (s : pystr) : segments d s <> [].
Proof.
  destruct s as [|c s]; cbn [segments]; [discriminate|].
  destruct (is_char c "," && (d =? 0)%Z); [discriminate|].
  match goal with |- context [segments ?d' s] => destruct (segments d' s) end;
    discriminate.
Qed.


Lemma glue_nil (segs : list pystr) : segs <> [] -> glue [] segs = segs.
Proof. destruct segs; [congruence|reflexivity]. Qed.

Lemma glue_snoc (cur : pystr) (ch : ascii) (segs : list pystr) :
  segs <> [] ->
  glue (cur ++ [ch]) segs
  = glue cur match segs with seg :: rest => (ch :: seg) :: rest | [] => [[ch]] end.
Proof.
  destruct segs as [|seg rest]; [congruence|]. intros _. simpl.
  now rewrite <- app_assoc.
Qed.

Lemma removelast_cons {A : Type} (a : A) (l : list A) :
  l <> [] -> removelast (a :: l) = a :: removelast l.
Proof. destruct l; [congruence|reflexivity]. Qed.

Lemma last_cons {A : Type} (a d : A) (l : list A) :
  l <> [] -> last (a :: l) d = last l d.
Proof. destruct l; [congruence|reflexivity]. Qed.

(** The loop invariant: the loop closes every segment but the last, in
    order, and leaves the last one in [cur]. *)
Lemma split_loop_segments (s : pystr) :
  forall args d cur,
    split_loop s args d cur
    = (args ++ map strip (removelast (glue cur (segments d s))),
       last (glue cur (segments d s)) []).
Proof.
  induction s as [|ch s IH]; intros args d cur.
  - simpl. now rewrite !app_nil_r.
  - cbn [split_loop segments].
    destruct (is_char ch "(") eqn:Eo.
    { assert (Hc : is_char ch "," = false) by now char_cases ch.
      rewrite Hc. simpl andb. cbv iota. rewrite IH.
      rewrite glue_snoc by apply segments_nonempty. reflexivity. }
    destruct (is_char ch ")") eqn:Ec.
    { assert (Hc : is_char ch "," = false) by now char_cases ch.
      rewrite Hc. simpl andb. cbv iota. rewrite IH.
      rewrite glue_snoc by apply segments_nonempty. reflexivity. }
    destruct (is_char ch "," && (d =? 0)%Z) eqn:Ek.
    + rewrite IH. rewrite glue_nil by apply segments_nonempty.
      simpl glue. rewrite app_nil_r.
      rewrite removelast_cons, last_cons by apply segments_nonempty.
      simpl map. now rewrite <- app_assoc.
    + rewrite IH. rewrite glue_snoc by apply segments_nonempty. reflexivity.
Qed.

Lemma split_top_level_args_segments (s : pystr) :
  split_top_level_args s
  = map strip (removelast (segments 0 s))
    ++ match strip (last (segments 0 s) []) with
       | [] => []
       | _ :: _ => [strip (last (segments 0 s) [])]
       end.
Proof.
  unfold split_top_level_args. rewrite split_loop_segments.
  rewrite glue_nil by apply segments_nonempty. simpl app.
  destruct (strip (last (segments 0 s) [])); [now rewrite app_nil_r|reflexivity].
Qed.

Lemma last_map_strip (l : list pystr) :
  last (map strip l) [] = strip (last l []).
Proof.
  induction l as [|a l IH]; [reflexivity|].
  destruct l as [|b l]; [reflexivity|]. exact IH.
Qed.

Lemma removelast_map {A B : Type} (f : A -> B) (l : list A) :
  removelast (map f l) = map f (removelast l).
Proof.
  induction l as [|a l IH]; [reflexivity|].
  destruct l as [|b l]; [reflexivity|].
  cbn [map removelast] in *. now rewrite IH.
Qed.

Lemma split_top_level_args_drop (s : pystr) :
  split_top_level_args s = drop_blank_last (map strip (segments 0 s)).
Proof.
  rewrite split_top_level_args_segments. unfold drop_blank_last.
  rewrite last_map_strip, removelast_map.
  destruct (strip (last (segments 0 s) [])) eqn:E.
  - now rewrite app_nil_r.
  - rewrite <- E.
    rewrite (app_removelast_last [] (segments_nonempty 0 s)) at 3.
    now rewrite map_app.
Qed.

(** A string without a comma is one segment. *)
Lemma segments_no_comma (s : pystr) :
  forall d, forallb (fun c => negb (is_char c ",")) s = true ->
            segments d s = [s].
Proof.
  induction s as [|c s IH]; intros d H; [reflexivity|].
  simpl in H. apply andb_prop in H. destruct H as [Hc Hs].
  cbn [segments]. apply negb_true_iff in Hc. rewrite Hc. simpl andb. cbv iota.
  now rewrite IH.
Qed.

Lemma isspace_not_comma (c : ascii) :
  isspace c = true -> negb (is_char c ",") = true.
Proof.
  intros H. destruct (is_char c ",") eqn:E; [|reflexivity].
  apply is_char_eq in E. subst c. discriminate.
Qed.

Lemma split_top_level_args_blank (s : pystr) :
  strip s = [] -> split_top_level_args s = [].
Proof.
  intros H. rewrite split_top_level_args_drop.
  rewrite segments_no_comma.
  - simpl. unfold drop_blank_last. simpl. now rewrite H.
  - apply strip_blank in H. rewrite forallb_forall in *.
    intros c Hc. apply isspace_not_comma. auto.
Qed.


Lemma segments_join (s : pystr) : forall d, join_commas (segments d s) = s.
Proof.
  induction s as [|c s IH]; intros d; [reflexivity|].
  cbn [segments].
  destruct (is_char c "," && (d =? 0)%Z) eqn:E.
  - apply andb_prop in E. destruct E as [E _]. apply is_char_eq in E. subst c.
    pose proof (segments_nonempty d s).
    cbn [join_commas]. destruct (segments d s) eqn:Es; [congruence|].
    rewrite <- Es, IH. reflexivity.
  - match goal with |- context [segments ?d' s] =>
      specialize (IH d'); pose proof (segments_nonempty d' s);
      destruct (segments d' s) as [|seg rest] end; [congruence|].
    cbn [join_commas] in *. destruct rest; [now subst|].
    simpl. now rewrite <- IH.
Qed.

(** [segments] cuts at the commas of depth 0 and nowhere else: reading
    [pre] and then [post] gives the segments of [pre], the last of which
    runs on into the first segment of [post]. *)
Lemma segments_app (pre post : pystr) :
  forall d,
    segments d (pre ++ post)
    = removelast (segments d pre)
      ++ glue (last (segments d pre) [])
              (segments (depth_after d pre) post).
Proof.
  induction pre as [|c pre IH]; intros d.
  - simpl. symmetry. apply glue_nil, segments_nonempty.
  - cbn [app segments depth_after].
    destruct (is_char c "," && (d =? 0)%Z) eqn:Ek.
    + apply andb_prop in Ek. destruct Ek as [Ek _].
      assert (Hd : (if is_char c "(" then (d + 1)%Z
                    else if is_char c ")" then (d - 1)%Z else d) = d)
        by now char_cases c.
      rewrite Hd, IH.
      rewrite removelast_cons, last_cons by apply segments_nonempty.
      reflexivity.
    + set (d' := if is_char c "(" then (d + 1)%Z
                 else if is_char c ")" then (d - 1)%Z else d).
      rewrite IH. pose proof (segments_nonempty d' pre) as Hne.
      pose proof (segments_nonempty (depth_after d' pre) post) as Hpost.
      destruct (segments d' pre) as [|seg [|seg2 rest]]; [congruence| |].
      * cbn [removelast last app].
        destruct (segments (depth_after d' pre) post); [congruence|].
        reflexivity.
      * reflexivity.
Qed.

(** A comma met at depth 0 ends a segment. *)
Lemma segments_cut (pre post : pystr) (d : Z) :
  depth_after d pre = 0%Z ->
  segments d (pre ++ py "," ++ post) = segments d pre ++ segments 0 post.
Proof.
  intros Hd. rewrite segments_app, Hd.
  change (segments 0 (py "," ++ post)) with ([] :: segments 0 post).
  cbn [glue]. rewrite app_nil_r.
  rewrite (app_removelast_last [] (segments_nonempty d pre)) at 3.
  now rewrite <- app_assoc.
Qed.

(** A comma met at another depth stays inside its segment. *)
Lemma segments_nested (pre post : pystr) (d : Z) :
  depth_after d pre <> 0%Z ->
  segments d (pre ++ py "," ++ post)
  = removelast (segments d pre)
    ++ glue (last (segments d pre) [] ++ py ",")
            (segments (depth_after d pre) post).
Proof.
  intros Hd. rewrite segments_app.
  change (py "," ++ post) with (","%char :: post). cbn [segments].
  apply Z.eqb_neq in Hd. rewrite Hd, andb_false_r.
  change (if is_char "," "(" then (depth_after d pre + 1)%Z
          else if is_char "," ")" then (depth_after d pre - 1)%Z
               else depth_after d pre) with (depth_after d pre).
  pose proof (segments_nonempty (depth_after d pre) post) as Hne.
  destruct (segments (depth_after d pre) post); [congruence|].
  cbn [glue]. now rewrite <- app_assoc.
Qed.

Lemma segments_length (s : pystr) :
  forall d seg, In seg (segments d s) -> length seg <= length s.
Proof.
  induction s as [|c s IH]; intros d seg H.
  - simpl in H. destruct H as [<-|[]]. simpl. lia.
  - cbn [segments] in H.
    destruct (is_char c "," && (d =? 0)%Z).
    + destruct H as [<-|H]; simpl; [lia|]. apply IH in H. lia.
    + match type of H with context [segments ?d' s] =>
        specialize (IH d'); pose proof (segments_nonempty d' s);
        destruct (segments d' s) as [|seg' rest] end; [congruence|].
      destruct H as [<-|H]; simpl.
      * specialize (IH seg' (or_introl eq_refl)). lia.
      * specialize (IH seg (or_intror H)). lia.
Qed.

Lemma split_top_level_args_length (raw a : pystr) :
  In a (split_top_level_args raw) -> length a <= length raw.
Proof.
  rewrite split_top_level_args_segments. intros H.
  assert (Hs : exists seg, In seg (segments 0 raw) /\ a = strip seg).
  { apply in_app_or in H. destruct H as [H|H].
    - apply in_map_iff in H. destruct H as [seg [<- Hin]].
      exists seg. split; [|reflexivity].
      rewrite (app_removelast_last [] (segments_nonempty 0 raw)).
      apply in_or_app. now left.
    - destruct (strip (last (segments 0 raw) [])) eqn:E; [destruct H|].
      destruct H as [<-|[]]. exists (last (segments 0 raw) []).
      split; [|now rewrite E].
      rewrite (app_removelast_last [] (segments_nonempty 0 raw)) at 2.
      apply in_or_app. right. now left. }
  destruct Hs as [seg [Hin ->]].
  pose proof (strip_length seg). pose proof (segments_length _ _ _ Hin). lia.
Qed.

(** C8 (as amended). [split_top_level_args] cuts its input exactly at the
    commas met at parenthesis depth 0, trims every segment, and drops the
    final segment when it trims to empty; so an input that trims to empty
    gives no argument at all, and ["a(b,c), d"] gives ["a(b,c)"] and
    ["d"]. *)
Theorem split_args_depth0_trimmed :
  forall raw : pystr,
    split_top_level_args raw = drop_blank_last (map strip (segments 0 raw))
    /\ (strip raw = [] -> split_top_level_args raw = [])
    /\ split_top_level_args (py "a(b,c), d") = [py "a(b,c)"; py "d"].
Proof.
  intros raw. split; [apply split_top_level_args_drop|].
  split; [apply split_top_level_args_blank|reflexivity].
Qed.

Lemma split_args_depth0_trimmed_witness :
  strip (py "  ") = [] /\ split_top_level_args (py "  ") = [].
Proof.
  split; [reflexivity|].
  apply (proj1 (proj2 (split_args_depth0_trimmed (py "  ")))). reflexivity.
Defined.

(** C8, as the specification words it, fails: every comma-delimited
    segment trimmed would give two arguments for ["a,"], the code gives
    one. *)
Lemma split_args_spec_differs :
  split_args_spec (py "a,") = [py "a"; []]
  /\ split_top_level_args (py "a,") = [py "a"]
  /\ split_top_level_args (py "a,") <> split_args_spec (py "a,").
Proof. repeat split; discriminate. Qed.

(** C9. Empty segments are treated asymmetrically: every segment before
    the last is kept after trimming, empty or not, while the last one is
    dropped when it trims to empty; [",a"] gives [""] and ["a"], ["a,"]
    gives ["a"] alone. *)
Theorem split_args_trailing_empty_dropped :
  forall raw : pystr,
    exists (front : list pystr) (final : pystr),
      segments 0 raw = front ++ [final]
      /\ split_top_level_args raw
         = map strip front ++ (if pystr_eqb (strip final) [] then []
                               else [strip final])
      /\ split_top_level_args (py ",a") = [[]; py "a"]
      /\ split_top_level_args (py "a,") = [py "a"].
Proof.
  intros raw.
  exists (removelast (segments 0 raw)), (last (segments 0 raw) []).
  split; [apply app_removelast_last, segments_nonempty|].
  split; [|split; reflexivity].
  rewrite split_top_level_args_segments.
  now destruct (strip (last (segments 0 raw) [])).
Qed.

(** ** The call pattern *)

Lemma span_app (f : ascii -> bool) (s : pystr) :
  forall a b, span f s = (a, b) -> s = a ++ b.
Proof.
  induction s as [|c s IH]; intros a b H; simpl in H.
  - now inversion H.
  - destruct (f c).
    + destruct (span f s) as [a' b'] eqn:E. inversion H; subst.
      simpl. f_equal. now apply IH.
    + now inversion H.
Qed.

Lemma span_stop (f : ascii -> bool) (a : pystr) (c : ascii) (b : pystr) :
  forallb f a = true -> f c = false -> span f (a ++ c :: b) = (a, c :: b).
Proof.
  intros Ha Hc. induction a as [|x a IH]; simpl.
  - now rewrite Hc.
  - simpl in Ha. apply andb_prop in Ha. destruct Ha as [Hx Ha].
    now rewrite Hx, IH.
Qed.

Lemma removelast_length {A : Type} (l : list A) :
  length (removelast l) <= length l.
Proof.
  induction l as [|a l IH]; simpl; [lia|].
  destruct l; simpl in *; lia.
Qed.

Lemma endswith_snoc (s : pystr) (c d : ascii) :
  endswith (s ++ [c]) [d] = Ascii.eqb c d.
Proof.
  unfold endswith. rewrite rev_app_distr. simpl.
  destruct (rev s); apply andb_true_r.
Qed.

(** The argument text of a call is at least three characters shorter than
    the call: a name, and two parentheses. *)
Lemma FUNC_RE_match_length (s name raw : pystr) :
  FUNC_RE_match s = Some (name, raw) -> length raw + 3 <= length s.
Proof.
  unfold FUNC_RE_match.
  set (s0 := if endswith s [newline] then removelast s else s).
  assert (H0 : length s0 <= length s).
  { subst s0. destruct (endswith s [newline]); [apply removelast_length|lia]. }
  destruct (span is_name_char s0) as [nm rest] eqn:E.
  apply span_app in E.
  destruct nm as [|n0 nm]; [discriminate|].
  destruct rest as [|op body]; [discriminate|].
  destruct (is_char op "(" && endswith body (py ")")
            && negb (has_newline (removelast body))) eqn:C; [|discriminate].
  intros H. inversion H; subst name raw. clear H.
  apply andb_prop in C. destruct C as [C _].
  apply andb_prop in C. destruct C as [_ C].
  assert (Hb : length (removelast body) + 1 <= length body).
  { destruct body as [|b body] using rev_ind; [discriminate|].
    rewrite removelast_last, length_app. simpl. lia. }
  rewrite E, length_app in H0. simpl in H0. lia.
Qed.

(** A name, an opening parenthesis, an argument text free of line breaks
    and a closing parenthesis: the pattern matches and gives back the name
    and the text. *)
Lemma FUNC_RE_match_call (name raw : pystr) :
  name <> [] -> forallb is_name_char name = true -> has_newline raw = false ->
  FUNC_RE_match (name ++ py "(" ++ raw ++ py ")") = Some (name, raw).
Proof.
  intros Hne Hn Hr. unfold FUNC_RE_match.
  assert (He : endswith (name ++ py "(" ++ raw ++ py ")") [newline] = false).
  { change (py ")") with [")"%char]. rewrite !app_assoc.
    now rewrite endswith_snoc. }
  rewrite He. change (py "(" ++ raw ++ py ")") with ("("%char :: raw ++ py ")").
  rewrite span_stop by (assumption || reflexivity).
  destruct name as [|n0 nm]; [congruence|].
  change (py ")") with [")"%char].
  rewrite endswith_snoc, removelast_last, Hr. reflexivity.
Qed.

(** ** Path resolution *)

Lemma resolves_functional (v : value) (ks : list pystr) (w1 w2 : value) :
  resolves v ks w1 -> resolves v ks w2 -> w1 = w2.
Proof.
  intros H1. revert w2. induction H1; intros w2 H2; inversion H2; subst.
  - reflexivity.
  - apply IHresolves. congruence.
Qed.

Lemma lookup_loop_resolves (parts : list pystr) :
  forall cur w, resolves cur parts w -> lookup_loop parts cur = w.
Proof.
  induction parts as [|p parts IH]; intros cur w H; inversion H; subst.
  - reflexivity.
  - simpl. match goal with E : dict_get _ _ = _ |- _ => rewrite E end. auto.
Qed.

Lemma lookup_loop_cases (parts : list pystr) :
  forall cur,
    resolves cur parts (lookup_loop parts cur)
    \/ ((forall w, ~ resolves cur parts w) /\ lookup_loop parts cur = VNone).
Proof.
  induction parts as [|p parts IH]; intros cur.
  - left. constructor.
  - simpl.
    assert (Hno : forall P : Prop,
               (forall d v, cur = VDict d -> dict_get d p = Some v -> P) ->
               (forall w, resolves cur (p :: parts) w -> P)).
    { intros P HP w H. inversion H; subst. eapply HP; eauto. }
    destruct cur as [|b|z|f|s|l|d];
      try (right; split; [|reflexivity]; intros w Hw;
           apply (Hno False) in Hw; [assumption|intros; discriminate]).
    destruct (dict_get d p) as [v|] eqn:E.
    + destruct (IH v) as [H|[H1 H2]].
      * left. econstructor; eauto.
      * right. split; [|assumption]. intros w Hw. inversion Hw; subst.
        apply (H1 w). congruence.
    + right. split; [|reflexivity]. intros w Hw. inversion Hw; subst. congruence.
Qed.

Lemma split_dot_nonempty (s : pystr) : split_dot s <> [].
Proof.
  destruct s as [|c s]; cbn [split_dot]; [discriminate|].
  destruct (is_char c "."); [discriminate|].
  destruct (split_dot s); discriminate.
Qed.

Lemma startswith_app (p s : pystr) : startswith (p ++ s) p = true.
Proof.
  induction p as [|c p IH]; simpl; [reflexivity|].
  now rewrite Ascii.eqb_refl, IH.
Qed.

Lemma startswith_inv (p s : pystr) :
  startswith s p = true -> s = p ++ skipn (length p) s.
Proof.
  revert s. induction p as [|c p IH]; intros s H; [reflexivity|].
  destruct s as [|a s]; [discriminate|]. simpl in H.
  apply andb_prop in H. destruct H as [H1 H2].
  apply Ascii.eqb_eq in H1. subst a. simpl. f_equal. now apply IH.
Qed.

(** ** The evaluator *)

Section EvaluatorProperties.

Variable E : env.


Lemma eval_literal_cases (expr : pystr) :
  (exists s, eval_literal E expr = Ok (VStr s))
  \/ (exists n, eval_literal E expr = Ok (VInt n)).
Proof.
  unfold eval_literal.
  destruct (startswith expr (py "'") || startswith expr [dquote]); [eauto|].
  destruct (int_of_str (max_str_digits E) expr); simpl; eauto.
Qed.

Lemma int_of_float_cases (x : spec_float) :
  (exists n, int_of_float x = Ok n) \/ (exists e, int_of_float x = Raised e).
Proof. destruct x; simpl; eauto. Qed.

Lemma epoch_millis_cases (s : pystr) :
  epoch_millis E s = Ok VNone \/ exists n, epoch_millis E s = Ok (VInt n).
Proof.
  unfold epoch_millis, timestamp.
  destruct (fromisoformat _) as [dt|]; [|now left].
  cbn [or_raise bind].
  destruct (tzoffset dt) as [off|]; cbn [bind].
  - match goal with |- context [int_of_float ?x] =>
      destruct (int_of_float_cases x) as [[n ->]|[e ->]] end;
      cbn [bind try_except]; eauto.
  - destruct (local_seconds E dt) as [secs|]; cbn [or_raise bind];
      [|now left].
    match goal with |- context [int_of_float ?x] =>
      destruct (int_of_float_cases x) as [[n ->]|[e ->]] end;
      cbn [bind try_except]; eauto.
Qed.

Lemma json_path_lookup_cases (doc : value) (path : pystr) :
  json_path_lookup doc path = VNone
  \/ from_document doc (json_path_lookup doc path).
Proof.
  unfold json_path_lookup.
  destruct (startswith path (py "$.")); cbn [negb]; [|now left].
  destruct (lookup_loop_cases (split_dot (skipn 2 path)) doc) as [H|[_ H]];
    [|now left].
  right. pose proof (split_dot_nonempty (skipn 2 path)) as Hne.
  revert H Hne. destruct (split_dot (skipn 2 path)) as [|k ks];
    intros H Hne; [congruence|].
  now exists k, ks.
Qed.

(** The [coalesce] loop and the dispatch apply [ev] to members of the
    argument list only. *)
Lemma coalesce_loop_ext (ev1 ev2 : pystr -> outcome value) (args : list pystr) :
  (forall a, In a args -> ev1 a = ev2 a) ->
  coalesce_loop ev1 args = coalesce_loop ev2 args.
Proof.
  induction args as [|a args IH]; intros H; [reflexivity|].
  simpl. rewrite (H a) by now left.
  destruct (ev2 a) as [v| |]; simpl; try reflexivity.
  destruct (is_present v); [reflexivity|].
  apply IH. intros b Hb. apply H. now right.
Qed.

Lemma eval_call_ext (ev1 ev2 : pystr -> outcome value) (name : pystr)
    (args : list pystr) (doc : value) :
  (forall a, In a args -> ev1 a = ev2 a) ->
  eval_call E ev1 name args doc = eval_call E ev2 name args doc.
Proof.
  intros H. unfold eval_call.
  destruct (_ || _); [reflexivity|].
  destruct (pystr_eqb name (py "coalesce")); [now apply coalesce_loop_ext|].
  destruct (pystr_eqb name (py "fromDateTime")); [|reflexivity].
  destruct args as [|a args]; [reflexivity|].
  simpl. now rewrite (H a) by now left.
Qed.

Lemma coalesce_loop_ok (ev : pystr -> outcome value) (doc : value)
    (args : list pystr) :
  (forall a, In a args -> exists v, ev a = Ok v /\ result_ok doc v) ->
  exists v, coalesce_loop ev args = Ok v /\ result_ok doc v.
Proof.
  induction args as [|a args IH]; intros H; simpl.
  - exists VNone. split; [reflexivity|now left].
  - destruct (H a (or_introl eq_refl)) as [v [Ev Hv]]. rewrite Ev. simpl.
    destruct (is_present v); [eauto|].
    apply IH. intros b Hb. apply H. now right.
Qed.

Lemma eval_call_ok (ev : pystr -> outcome value) (name : pystr)
    (args : list pystr) (doc : value) :
  (forall a, In a args -> exists v, ev a = Ok v /\ result_ok doc v) ->
  exists v, eval_call E ev name args doc = Ok v /\ result_ok doc v.
Proof.
  intros H. unfold eval_call.
  assert (Hnone : exists v : value, Ok VNone = Ok v /\ result_ok doc v)
    by (exists VNone; split; [reflexivity|now left]).
  destruct (_ || _).
  { destruct (negb _); [exact Hnone|].
    eexists. split; [reflexivity|].
    destruct (json_path_lookup_cases doc (strip_quotes (nth 1 args [])))
      as [Ev|Ev]; [rewrite Ev; now left|now right]. }
  destruct (pystr_eqb name (py "coalesce")); [now apply coalesce_loop_ok|].
  destruct (pystr_eqb name (py "fromDateTime")); [|exact Hnone].
  destruct args as [|a args]; [exact Hnone|]. simpl.
  destruct (H a (or_introl eq_refl)) as [v [Ev _]]. rewrite Ev. simpl.
  destruct v; try exact Hnone.
  destruct (epoch_millis_cases s) as [->|[n ->]]; [exact Hnone|].
  eexists. split; [reflexivity|now left].
Qed.

(** Every argument of a call is strictly shorter than the call. *)
Lemma argument_shorter (expr name raw a : pystr) :
  FUNC_RE_match (strip expr) = Some (name, raw) ->
  In a (split_top_level_args raw) ->
  length a < length expr.
Proof.
  intros Hm Ha. apply FUNC_RE_match_length in Hm.
  apply split_top_level_args_length in Ha.
  pose proof (strip_length expr). lia.
Qed.

(** With fuel above the length of the expression the evaluation ends
    with a value. *)
Lemma eval_fuel_ok (doc : value) (fuel : nat) :
  forall expr, length expr < fuel ->
               exists v, eval_fuel E fuel expr doc = Ok v /\ result_ok doc v.
Proof.
  induction fuel as [|fuel IH]; intros expr Hlt; [lia|].
  cbn [eval_fuel].
  destruct (FUNC_RE_match (strip expr)) as [[name raw]|] eqn:Em.
  - apply eval_call_ok. intros a Ha. apply IH.
    pose proof (argument_shorter _ _ Em Ha). lia.
  - destruct (eval_literal_cases (strip expr)) as [[s ->]|[n ->]];
      eexists; (split; [reflexivity|now left]).
Qed.

(** Any two amounts of fuel above the length give the same result. *)
Lemma eval_fuel_stable (doc : value) (n : nat) :
  forall expr f1 f2,
    length expr < n -> length expr < f1 -> length expr < f2 ->
    eval_fuel E f1 expr doc = eval_fuel E f2 expr doc.
Proof.
  induction n as [|n IH]; intros expr f1 f2 Hn H1 H2; [lia|].
  destruct f1 as [|f1]; [lia|]. destruct f2 as [|f2]; [lia|].
  cbn [eval_fuel].
  destruct (FUNC_RE_match (strip expr)) as [[name raw]|] eqn:Em;
    [|reflexivity].
  apply eval_call_ext. intros a Ha.
  pose proof (argument_shorter _ _ Em Ha).
  apply IH; lia.
Qed.

(** The recursive equation of the source: [eval_expr] is literal
    evaluation or dispatch, with [eval_expr] itself on the arguments. *)
Lemma eval_expr_unfold (expr : pystr) (doc : value) :
  eval_expr E expr doc
  = match FUNC_RE_match (strip expr) with
    | None => eval_literal E (strip expr)
    | Some (name, raw) =>
        eval_call E (fun a => eval_expr E a doc) name
                  (split_top_level_args raw) doc
    end.
Proof.
  unfold eval_expr at 1. cbn [eval_fuel].
  destruct (FUNC_RE_match (strip expr)) as [[name raw]|] eqn:Em;
    [|reflexivity].
  apply eval_call_ext. intros a Ha.
  pose proof (argument_shorter _ _ Em Ha).
  unfold eval_expr.
  apply (eval_fuel_stable doc (n := S (length expr))); lia.
Qed.

Lemma eval_expr_ok (expr : pystr) (doc : value) :
  exists v, eval_expr E expr doc = Ok v /\ result_ok doc v.
Proof. apply eval_fuel_ok. lia. Qed.

(** *** The call stack *)

(** Where the arguments are evaluated with too few frames, the loop and
    the dispatch give what they give with enough, or raise
    [RecursionError]: no [try] of the source encloses the evaluation of
    an argument. *)
Lemma coalesce_loop_refines (ev1 ev2 : pystr -> outcome value)
    (args : list pystr) :
  (forall a, In a args -> ev1 a = ev2 a \/ ev1 a = Raised RecursionError) ->
  coalesce_loop ev1 args = coalesce_loop ev2 args
  \/ coalesce_loop ev1 args = Raised RecursionError.
Proof.
  induction args as [|a args IH]; intros H; [now left|].
  cbn [coalesce_loop].
  destruct (H a (or_introl eq_refl)) as [Ha|Ha]; rewrite Ha; [|now right].
  destruct (ev2 a) as [v| |]; cbn [bind]; try now left.
  destruct (is_present v); [now left|].
  apply IH. intros b Hb. apply H. now right.
Qed.

Lemma eval_call_refines (ev1 ev2 : pystr -> outcome value) (name : pystr)
    (args : list pystr) (doc : value) :
  (forall a, In a args -> ev1 a = ev2 a \/ ev1 a = Raised RecursionError) ->
  eval_call E ev1 name args doc = eval_call E ev2 name args doc
  \/ eval_call E ev1 name args doc = Raised RecursionError.
Proof.
  intros H. unfold eval_call.
  destruct (_ || _); [now left|].
  destruct (pystr_eqb name (py "coalesce")); [now apply coalesce_loop_refines|].
  destruct (pystr_eqb name (py "fromDateTime")); [|now left].
  destruct args as [|a args]; [now left|].
  cbn [length Nat.ltb Nat.leb nth].
  destruct (H a (or_introl eq_refl)) as [Ha|Ha]; rewrite Ha; [now left|now right].
Qed.

(** With any number of frames the evaluation gives the value of
    [eval_expr], or raises [RecursionError]. *)
Lemma eval_frames_cases (doc : value) (frames : nat) :
  forall expr,
    eval_frames E frames expr doc = eval_expr E expr doc
    \/ eval_frames E frames expr doc = Raised RecursionError.
Proof.
  induction frames as [|room IH]; intros expr; [now right|].
  cbn [eval_frames]. rewrite eval_expr_unfold.
  destruct (FUNC_RE_match (strip expr)) as [[name raw]|].
  - destruct room as [|room]; [now right|]. cbn [call_leaf].
    apply eval_call_refines. intros a _. apply IH.
  - destruct (startswith (strip expr) (py "'")
              || startswith (strip expr) [dquote]); [|now left].
    destruct room; [now right|now left].
Qed.

(** Frames two above the length of the expression are enough. *)
Lemma eval_frames_enough (doc : value) (frames : nat) :
  forall expr,
    length expr + 2 <= frames ->
    eval_frames E frames expr doc = eval_expr E expr doc.
Proof.
  induction frames as [|room IH]; intros expr Hl; [lia|].
  cbn [eval_frames]. rewrite eval_expr_unfold.
  destruct room as [|room]; [lia|]. cbn [call_leaf].
  destruct (FUNC_RE_match (strip expr)) as [[name raw]|] eqn:Em.
  - apply eval_call_ext. intros a Ha.
    pose proof (argument_shorter _ _ Em Ha). apply IH. lia.
  - now destruct (startswith (strip expr) (py "'")
                  || startswith (strip expr) [dquote]).
Qed.

End EvaluatorProperties.

(** ** Calls written out *)

Lemma is_name_char_not_space (c : ascii) :
  is_name_char c = true -> isspace c = false.
Proof.
  destruct c as [[] [] [] [] [] [] [] []]; vm_compute; congruence.
Qed.

Lemma strip_call (name raw : pystr) :
  name <> [] -> forallb is_name_char name = true ->
  strip (call name raw) = call name raw.
Proof.
  intros Hne Hn. destruct name as [|n0 nm]; [congruence|].
  simpl in Hn. apply andb_prop in Hn. destruct Hn as [Hn _].
  unfold call. change (py ")") with [")"%char].
  change ((n0 :: nm) ++ py "(" ++ raw ++ [")"%char])
    with (n0 :: (nm ++ py "(" ++ raw ++ [")"%char])).
  rewrite !app_assoc. apply strip_fixed; [|reflexivity].
  now apply is_name_char_not_space.
Qed.

Lemma plain_no_comma (p : pystr) :
  plain p = true -> forallb (fun c => negb (is_char c ",")) p = true.
Proof. unfold plain. intros H. apply andb_prop in H. tauto. Qed.

Lemma plain_no_newline (p : pystr) : plain p = true -> has_newline p = false.
Proof.
  unfold plain. intros H. apply andb_prop in H. destruct H as [_ H].
  now apply negb_true_iff in H.
Qed.

Lemma has_newline_app (a b : pystr) :
  has_newline (a ++ b) = has_newline a || has_newline b.
Proof. apply existsb_app. Qed.

Lemma forallb_snoc {A : Type} (f : A -> bool) (l : list A) (a : A) :
  forallb f (l ++ [a]) = forallb f l && f a.
Proof. rewrite forallb_app. simpl. now rewrite andb_true_r. Qed.

(** The argument text [$, 'p'] is two arguments when [p] has no comma. *)
Lemma split_root_path (p : pystr) :
  forallb (fun c => negb (is_char c ",")) p = true ->
  split_top_level_args (py "$, '" ++ p ++ py "'")
  = [py "$"; py "'" ++ p ++ py "'"].
Proof.
  intros Hp. rewrite split_top_level_args_drop.
  change (py "$, '" ++ p ++ py "'")
    with ("$"%char :: ","%char :: (" "%char :: "'"%char :: p ++ py "'")).
  set (rest := " "%char :: "'"%char :: p ++ py "'").
  assert (Hseg : segments 0 ("$"%char :: ","%char :: rest)
                 = match segments 0 rest with
                   | seg :: more => py "$" :: seg :: more
                   | [] => [py "$"]
                   end).
  { cbn [segments]. change (is_char "$" "," && (0 =? 0)%Z) with false.
    change (is_char "," "," && (0 =? 0)%Z) with true. cbv iota.
    change (is_char "$" "(") with false. change (is_char "$" ")") with false.
    cbv iota zeta. now destruct (segments 0 rest). }
  rewrite Hseg. subst rest.
  rewrite (@segments_no_comma (" "%char :: "'"%char :: p ++ py "'")).
  - cbn [map]. unfold drop_blank_last.
    assert (Hs : strip (" "%char :: "'"%char :: p ++ py "'")
                 = "'"%char :: p ++ py "'").
    { unfold strip. cbn [lstrip]. change (isspace " ") with true.
      change (isspace "'") with false. cbv iota.
      change ("'"%char :: p ++ py "'") with (("'"%char :: p) ++ ["'"%char]).
      now apply rstrip_snoc. }
    rewrite Hs. reflexivity.
  - change (" "%char :: "'"%char :: p ++ py "'")
      with ((" "%char :: "'"%char :: p) ++ ["'"%char]).
    rewrite forallb_snoc. cbn [forallb].
    change (negb (is_char " " ",")) with true.
    change (negb (is_char "'" ",")) with true. now rewrite Hp.
Qed.

Lemma strip_quotes_quoted (p : pystr) :
  strip_quotes (py "'" ++ p ++ py "'") = p.
Proof.
  unfold strip_quotes.
  change (py "'" ++ p ++ py "'") with ("'"%char :: p ++ ["'"%char]).
  rewrite strip_fixed by reflexivity.
  assert (He : endswith ("'"%char :: p ++ ["'"%char]) (py "'") = true)
    by apply (endswith_snoc ("'"%char :: p) "'" "'").
  rewrite He.
  change (startswith ("'"%char :: p ++ ["'"%char]) (py "'")) with true.
  cbn [andb orb tl]. apply removelast_last.
Qed.

Lemma json_path_lookup_found (doc : value) (path : pystr) (w : value) :
  path_found doc path w -> json_path_lookup doc path = w.
Proof.
  intros [rest [-> H]]. unfold json_path_lookup.
  rewrite startswith_app. cbn [negb].
  change (skipn 2 (py "$." ++ rest)) with rest.
  now apply lookup_loop_resolves.
Qed.

Lemma json_path_lookup_missed (doc : value) (path : pystr) :
  (forall w, ~ path_found doc path w) -> json_path_lookup doc path = VNone.
Proof.
  intros H. unfold json_path_lookup.
  destruct (startswith path (py "$.")) eqn:Es; cbn [negb]; [|reflexivity].
  apply startswith_inv in Es. change (length (py "$.")) with 2 in Es.
  destruct (lookup_loop_cases (split_dot (skipn 2 path)) doc) as [Hr|[_ Hn]];
    [|assumption].
  exfalso. eapply H. exists (skipn 2 path). split; eassumption.
Qed.

Lemma is_present_skipped (v : value) : is_present v = false <-> skipped v.
Proof.
  unfold skipped. split.
  - destruct v as [|b|z|f|s|l|d]; try discriminate; auto.
    + destruct s; [auto|discriminate].
    + destruct l; [auto|discriminate].
  - intros [->|[->| ->]]; reflexivity.
Qed.

Section Claims.

Variable E : env.

Lemma eval_expr_call (expr name raw : pystr) (doc : value) :
  FUNC_RE_match (strip expr) = Some (name, raw) ->
  eval_expr E expr doc
  = eval_call E (fun a => eval_expr E a doc) name
              (split_top_level_args raw) doc.
Proof. intros H. now rewrite eval_expr_unfold, H. Qed.

Lemma eval_expr_call_text (name raw : pystr) (doc : value) :
  name <> [] -> forallb is_name_char name = true -> has_newline raw = false ->
  eval_expr E (call name raw) doc
  = eval_call E (fun a => eval_expr E a doc) name
              (split_top_level_args raw) doc.
Proof.
  intros Hne Hn Hr. apply eval_expr_call.
  rewrite strip_call by assumption. now apply FUNC_RE_match_call.
Qed.

Lemma eval_expr_literal (expr : pystr) (doc : value) :
  FUNC_RE_match (strip expr) = None ->
  eval_expr E expr doc = eval_literal E (strip expr).
Proof. intros H. now rewrite eval_expr_unfold, H. Qed.

(** C1 (as amended). Every evaluation returns a value, and that value is
    a string, an integer or null, or else a value stored in the document
    under a chain of mapping keys, handed back as it is. *)
Theorem eval_expr_scalar_or_document :
  forall (expr : pystr) (doc : value),
    exists v, eval_expr E expr doc = Ok v
              /\ (is_spec_value v = true \/ from_document doc v).
Proof.
  intros expr doc. unfold eval_expr.
  destruct (eval_fuel_ok E doc (fuel := S (length expr)) expr)
    as [v [Hv Hok]]; [lia|].
  exists v. split; [exact Hv|].
  destruct Hok as [Hscalar|Hdoc]; [now left|now right].
Qed.

(** C2 (as amended). A call of [jsonPathString] that is read with two
    arguments evaluates to the lookup of the path [p] that its second
    argument is once its quotes are stripped.  The lookup gives null for
    a path that does not start with [$.]; otherwise it follows the
    dot-separated segments after the prefix through nested mappings,
    gives the value found when every segment is a key of the mapping
    reached, and null when they are not.  With [$.a.b] the call gives 5,
    null and null on the three documents of the specification. *)
Theorem jsonPathString_resolves_path :
  forall (doc : value) (p : pystr),
    (forall expr raw a0 a1,
        FUNC_RE_match (strip expr) = Some (py "jsonPathString", raw) ->
        split_top_level_args raw = [a0; a1] ->
        strip_quotes a1 = p ->
        eval_expr E expr doc = Ok (json_path_lookup doc p))
    /\ (startswith p (py "$.") = false -> json_path_lookup doc p = VNone)
    /\ (forall rest, p = py "$." ++ rest ->
          (forall w, resolves doc (split_dot rest) w ->
                     json_path_lookup doc p = w)
          /\ ((forall w, ~ resolves doc (split_dot rest) w) ->
              json_path_lookup doc p = VNone))
    /\ eval_expr E (py "jsonPathString($, '$.a.b')")
                 (VDict [(py "a", VDict [(py "b", VInt 5)])]) = Ok (VInt 5)
    /\ eval_expr E (py "jsonPathString($, '$.a.b')")
                 (VDict [(py "a", VDict [])]) = Ok VNone
    /\ eval_expr E (py "jsonPathString($, '$.a.b')") (VDict []) = Ok VNone.
Proof.
  intros doc p. split; [|split; [|split]].
  - intros expr raw a0 a1 Hm Hs Hp.
    rewrite (eval_expr_call _ doc Hm), Hs. unfold eval_call.
    rewrite pystr_eqb_refl. cbn [orb length Nat.eqb negb nth].
    now rewrite Hp.
  - intros Hs. unfold json_path_lookup. now rewrite Hs.
  - intros rest ->. split.
    + intros w Hw. apply json_path_lookup_found. now exists rest.
    + intros Hn. apply json_path_lookup_missed. intros w [rest' [Heq Hw]].
      apply app_inv_head in Heq. subst rest'. now apply (Hn w).
  - repeat split; reflexivity.
Qed.

(** ** [coalesce] *)

Lemma coalesce_loop_first (ev : pystr -> outcome value)
    (front : list pystr) (a : pystr) (rest : list pystr) (v : value) :
  (forall b, In b front -> exists w, ev b = Ok w /\ skipped w) ->
  ev a = Ok v -> ~ skipped v ->
  coalesce_loop ev (front ++ a :: rest) = Ok v.
Proof.
  intros Hf Ha Hv. induction front as [|b front IH]; simpl.
  - rewrite Ha. simpl. destruct (is_present v) eqn:Ep; [reflexivity|].
    now apply is_present_skipped in Ep.
  - destruct (Hf b (or_introl eq_refl)) as [w [Hw Hs]]. rewrite Hw. simpl.
    apply is_present_skipped in Hs. rewrite Hs.
    apply IH. intros c Hc. apply Hf. now right.
Qed.

Lemma coalesce_loop_none (ev : pystr -> outcome value) (args : list pystr) :
  (forall b, In b args -> exists w, ev b = Ok w /\ skipped w) ->
  coalesce_loop ev args = Ok VNone.
Proof.
  intros Hf. induction args as [|b args IH]; simpl; [reflexivity|].
  destruct (Hf b (or_introl eq_refl)) as [w [Hw Hs]]. rewrite Hw. simpl.
  apply is_present_skipped in Hs. rewrite Hs.
  apply IH. intros c Hc. apply Hf. now right.
Qed.

Lemma eval_call_coalesce (ev : pystr -> outcome value) (args : list pystr)
    (doc : value) :
  eval_call E ev (py "coalesce") args doc = coalesce_loop ev args.
Proof. reflexivity. Qed.

(** C4. A call of [coalesce] returns the value of its first argument,
    from the left, that evaluates to something other than null, the empty
    string and the empty sequence, and null when every argument
    evaluates to one of these; with the arguments [''], an expression
    evaluating to null, and ['x'], it returns [x]. *)
Theorem coalesce_first_present :
  forall (doc : value),
    (forall expr raw,
        FUNC_RE_match (strip expr) = Some (py "coalesce", raw) ->
        (forall front a rest v,
            split_top_level_args raw = front ++ a :: rest ->
            (forall b, In b front ->
                       exists w, eval_expr E b doc = Ok w /\ skipped w) ->
            eval_expr E a doc = Ok v -> ~ skipped v ->
            eval_expr E expr doc = Ok v)
        /\ ((forall b, In b (split_top_level_args raw) ->
                       exists w, eval_expr E b doc = Ok w /\ skipped w) ->
            eval_expr E expr doc = Ok VNone)
        /\ (forall e,
               split_top_level_args raw = [py "''"; e; py "'x'"] ->
               eval_expr E e doc = Ok VNone ->
               eval_expr E expr doc = Ok (VStr (py "x"))))
    /\ eval_expr E (py "coalesce('', unknown(1), 'x')") doc
       = Ok (VStr (py "x")).
Proof.
  intros doc. split.
  - intros expr raw Hm. rewrite (eval_expr_call _ doc Hm), eval_call_coalesce.
    split; [|split].
    + intros front a rest v -> Hf Ha Hv. now apply coalesce_loop_first.
    + apply coalesce_loop_none.
    + intros e -> He.
      apply (@coalesce_loop_first _ [py "''"; e] (py "'x'") []).
      * intros b [<-|[<-|[]]]; eexists; (split; [|unfold skipped]).
        -- reflexivity.
        -- auto.
        -- exact He.
        -- auto.
      * reflexivity.
      * unfold skipped. intros [H|[H|H]]; discriminate.
  - reflexivity.
Qed.

(** ** Failures *)

Lemma eval_call_unknown (ev : pystr -> outcome value) (name : pystr)
    (args : list pystr) (doc : value) :
  known_name name = false -> eval_call E ev name args doc = Ok VNone.
Proof.
  unfold known_name, eval_call. intros H.
  apply orb_false_iff in H. destruct H as [H H4].
  apply orb_false_iff in H. destruct H as [H H3].
  now rewrite H, H3, H4.
Qed.

Lemma eval_call_jsonPath (ev : pystr -> outcome value) (name : pystr)
    (args : list pystr) (doc : value) :
  name = py "jsonPathString" \/ name = py "jsonPathInt" ->
  eval_call E ev name args doc
  = if negb (length args =? 2)%nat then Ok VNone
    else Ok (json_path_lookup doc (strip_quotes (nth 1 args []))).
Proof. intros [->| ->]; reflexivity. Qed.

Lemma eval_call_fromDateTime (ev : pystr -> outcome value)
    (args : list pystr) (doc : value) :
  eval_call E ev (py "fromDateTime") args doc
  = match args with
    | [] => Ok VNone
    | a :: _ =>
        v <- ev a ;;
        match v with
        | VStr s => epoch_millis E s
        | _ => Ok VNone
        end
    end.
Proof. now destruct args. Qed.

Lemma epoch_millis_unparsed (s : pystr) :
  fromisoformat (normalize_z s) = None -> epoch_millis E s = Ok VNone.
Proof.
  unfold epoch_millis. intros H. now rewrite H.
Qed.

(** C5 (as amended). An evaluation raises nothing but [RecursionError],
    and that only when the calls nested in the expression need more
    frames than the interpreter has left: with any number of frames it
    gives the value of [eval_expr] or raises [RecursionError], and with
    frames two above the length of the expression it gives the value.
    The value always exists.  An unknown function name, a wrong number of
    arguments, a path that is not found, a string that does not parse as
    a date and a date argument that is not a string all give null; an
    expression that the call pattern does not match is read as a literal
    and gives a string or an integer. *)
Theorem eval_expr_never_raises :
  forall (expr : pystr) (doc : value),
    (forall frames,
        eval_frames E frames expr doc = eval_expr E expr doc
        \/ eval_frames E frames expr doc = Raised RecursionError)
    /\ (forall frames,
          length expr + 2 <= frames ->
          eval_frames E frames expr doc = eval_expr E expr doc)
    /\ (exists v, eval_expr E expr doc = Ok v)
    /\ (FUNC_RE_match (strip expr) = None ->
        (exists s, eval_expr E expr doc = Ok (VStr s))
        \/ (exists n, eval_expr E expr doc = Ok (VInt n)))
    /\ (forall name raw,
          FUNC_RE_match (strip expr) = Some (name, raw) ->
          (known_name name = false -> eval_expr E expr doc = Ok VNone)
          /\ (name = py "jsonPathString" \/ name = py "jsonPathInt" ->
              (length (split_top_level_args raw) <> 2 ->
               eval_expr E expr doc = Ok VNone)
              /\ (forall a0 a1,
                     split_top_level_args raw = [a0; a1] ->
                     (forall w, ~ path_found doc (strip_quotes a1) w) ->
                     eval_expr E expr doc = Ok VNone))
          /\ (name = py "fromDateTime" ->
              (split_top_level_args raw = [] ->
               eval_expr E expr doc = Ok VNone)
              /\ (forall a0 rest v,
                     split_top_level_args raw = a0 :: rest ->
                     eval_expr E a0 doc = Ok v ->
                     (forall s, v = VStr s ->
                                fromisoformat (normalize_z s) = None) ->
                     eval_expr E expr doc = Ok VNone))).
Proof.
  intros expr doc. split; [|split; [|split; [|split]]].
  - intros frames. apply eval_frames_cases.
  - intros frames. apply eval_frames_enough.
  - destruct (eval_expr_ok E expr doc) as [v [Hv _]]. now exists v.
  - intros Hm. rewrite (eval_expr_literal _ doc Hm).
    apply eval_literal_cases.
  - intros name raw Hm. rewrite (eval_expr_call _ doc Hm).
    split; [|split].
    + apply eval_call_unknown.
    + intros Hn. rewrite (eval_call_jsonPath _ _ doc Hn). split.
      * intros Hl. apply Nat.eqb_neq in Hl. now rewrite Hl.
      * intros a0 a1 -> Hp. cbn [length Nat.eqb negb nth].
        now rewrite json_path_lookup_missed.
    + intros ->. rewrite eval_call_fromDateTime. split.
      * now intros ->.
      * intros a0 rest v -> Hv Hs. rewrite Hv. cbn [bind].
        destruct v as [|b|z|f|s|l|d]; try reflexivity.
        apply epoch_millis_unparsed. now apply Hs.
Qed.

(** ** Termination *)

(** C6. Evaluation terminates: every argument of a call is a strictly
    shorter string than the call, so fuel one above the length of the
    expression always yields a value, and more fuel changes nothing. *)
Theorem eval_expr_terminates :
  forall (expr : pystr) (doc : value),
    (forall name raw a,
        FUNC_RE_match (strip expr) = Some (name, raw) ->
        In a (split_top_level_args raw) ->
        length a < length expr)
    /\ (exists v, eval_fuel E (S (length expr)) expr doc = Ok v)
    /\ (forall fuel, length expr < fuel ->
                     eval_fuel E fuel expr doc = eval_expr E expr doc).
Proof.
  intros expr doc. split; [|split].
  - intros name raw a. apply argument_shorter.
  - destruct (@eval_fuel_ok E doc (S (length expr)) expr) as [v [Hv _]];
      [lia|now exists v].
  - intros fuel Hf. unfold eval_expr.
    apply (eval_fuel_stable E doc (n := S (length expr))); lia.
Qed.

(** ** [jsonPathInt] *)

(** C7. A call of [jsonPathInt] returns exactly what the call of
    [jsonPathString] with the same arguments returns: null unless there
    are exactly two arguments, and otherwise the value found at the
    path, whatever its type; a string in the document stays a string. *)
Theorem jsonPathInt_is_jsonPathString :
  forall (doc : value),
    (forall ev args,
        eval_call E ev (py "jsonPathInt") args doc
        = eval_call E ev (py "jsonPathString") args doc)
    /\ (forall raw,
          has_newline raw = false ->
          eval_expr E (call (py "jsonPathInt") raw) doc
          = eval_expr E (call (py "jsonPathString") raw) doc
          /\ (length (split_top_level_args raw) <> 2 ->
              eval_expr E (call (py "jsonPathInt") raw) doc = Ok VNone
              /\ eval_expr E (call (py "jsonPathString") raw) doc = Ok VNone)
          /\ (forall a0 a1,
                 split_top_level_args raw = [a0; a1] ->
                 eval_expr E (call (py "jsonPathInt") raw) doc
                 = Ok (json_path_lookup doc (strip_quotes a1))))
    /\ eval_expr E (py "jsonPathInt($, '$.s')")
                 (VDict [(py "s", VStr (py "abc"))]) = Ok (VStr (py "abc")).
Proof.
  intros doc. split; [reflexivity|]. split; [|reflexivity].
  intros raw Hr.
  rewrite !eval_expr_call_text by (assumption || reflexivity || discriminate).
  rewrite !eval_call_jsonPath by auto.
  split; [reflexivity|]. split.
  - intros Hl. apply Nat.eqb_neq in Hl. now rewrite Hl.
  - now intros a0 a1 ->.
Qed.

(** ** [fromDateTime] *)

(** C3. Where the code departs from the floor of the milliseconds: the
    instant one second and one millisecond after the epoch is 1001
    milliseconds, and the evaluation gives 1000, because the seconds are
    a binary float before they are multiplied; half a millisecond before
    the epoch the floor is -1 and the evaluation gives 0, because
    [int] discards the fraction.  On a whole number of seconds the two
    agree: the example of the specification gives 1704067200000. *)
Theorem fromDateTime_millis_inexact :
  forall (doc : value),
    (eval_expr E (py "fromDateTime('1970-01-01T00:00:01.001Z', 'yyyy-MM-dd')")
               doc = Ok (VInt 1000)
     /\ exists dt,
         fromisoformat (normalize_z (py "1970-01-01T00:00:01.001Z")) = Some dt
         /\ option_map floor_millis (epoch_micros dt) = Some 1001%Z)
    /\ (eval_expr E (py "fromDateTime('1969-12-31T23:59:59.999500Z', 'yyyy-MM-dd')")
                  doc = Ok (VInt 0)
        /\ exists dt,
            fromisoformat (normalize_z (py "1969-12-31T23:59:59.999500Z"))
            = Some dt
            /\ option_map floor_millis (epoch_micros dt) = Some (-1)%Z)
    /\ eval_expr E (py "fromDateTime('2024-01-01T00:00:00Z', 'yyyy-MM-dd')")
                 doc = Ok (VInt 1704067200000).
Proof.
  intros doc. split; [|split].
  - split; [vm_compute; reflexivity|].
    eexists. split; [vm_compute; reflexivity|vm_compute; reflexivity].
  - split; [vm_compute; reflexivity|].
    eexists. split; [vm_compute; reflexivity|vm_compute; reflexivity].
  - vm_compute. reflexivity.
Qed.

End Claims.

(** * Concrete instances *)

(** C1, as the specification words it, fails: a sequence stored in the
    document comes back as the result. *)
Lemma eval_expr_returns_sequence :
  eval_expr utc_env (py "jsonPathString($, '$.a')")
            (VDict [(py "a", VList [VInt 1; VInt 2])])
  = Ok (VList [VInt 1; VInt 2])
  /\ is_spec_value (VList [VInt 1; VInt 2]) = false.
Proof. split; reflexivity. Qed.

(** C5, as the specification words it, fails: an unbalanced call is not
    an error and does not give null either; it is read as a literal. *)
Lemma malformed_call_is_literal :
  eval_expr utc_env (py "coalesce(1") (VDict []) = Ok (VStr (py "coalesce(1"))
  /\ eval_expr utc_env (py "coalesce(1") (VDict []) <> Ok VNone.
Proof. split; [reflexivity|discriminate]. Qed.

(** C2, as the specification words it, fails for a path with a comma:
    the path is found in the document, and the call written with it is
    read with three arguments and gives null. *)
Lemma jsonPathString_comma_path :
  json_path_lookup (VDict [(py "a,b", VInt 1)]) (py "$.a,b") = VInt 1
  /\ split_top_level_args (py "$, '$.a,b'") = [py "$"; py "'$.a"; py "b'"]
  /\ eval_expr utc_env (py "jsonPathString($, '$.a,b')")
                (VDict [(py "a,b", VInt 1)])
     = Ok VNone.
Proof. split; [|split]; reflexivity. Qed.

Lemma jsonPathString_resolves_path_witness :
  eval_expr utc_env (py "jsonPathString($, '$.a.b')") doc_ab
  = Ok (json_path_lookup doc_ab (py "$.a.b"))
  /\ json_path_lookup doc_ab (py "a.b") = VNone
  /\ json_path_lookup doc_ab (py "$.a.b") = VInt 5
  /\ json_path_lookup doc_ab (py "$.a.c") = VNone.
Proof.
  split.
  { destruct (jsonPathString_resolves_path utc_env doc_ab (py "$.a.b"))
      as [H _].
    apply (H (py "jsonPathString($, '$.a.b')") (py "$, '$.a.b'") (py "$")
             (py "'$.a.b'")); reflexivity. }
  split;
    [apply (jsonPathString_resolves_path utc_env doc_ab (py "a.b"));
     reflexivity|].
  split.
  - destruct (jsonPathString_resolves_path utc_env doc_ab (py "$.a.b"))
      as [_ [_ [H _]]].
    apply (H (py "a.b") eq_refl).
    eapply resolves_cons; [reflexivity|].
    eapply resolves_cons; [reflexivity|]. apply resolves_nil.
  - destruct (jsonPathString_resolves_path utc_env doc_ab (py "$.a.c"))
      as [_ [_ [H _]]].
    apply (H (py "a.c") eq_refl).
    intros w Hw. inversion Hw as [|d k ks v w' Hd Hr]; subst.
    inversion Hd; subst. inversion Hr as [|d' k' ks' v' w'' Hd' Hr']; subst.
    discriminate Hd'.
Defined.

Lemma coalesce_first_present_witness :
  eval_expr utc_env (py "coalesce('', 'x')") doc_ab = Ok (VStr (py "x"))
  /\ eval_expr utc_env (py "coalesce('', unknown(1))") doc_ab = Ok VNone
  /\ eval_expr utc_env (py "coalesce('', unknown(1), 'x')") doc_ab
     = Ok (VStr (py "x")).
Proof.
  assert (Hskip : forall b, In b [py "''"; py "unknown(1)"] ->
                    exists w, eval_expr utc_env b doc_ab = Ok w /\ skipped w).
  { intros b [<-|[<-|[]]]; eexists; (split; [reflexivity|]); unfold skipped; auto. }
  split; [|split].
  - destruct (coalesce_first_present utc_env doc_ab) as [H _].
    destruct (H (py "coalesce('', 'x')") (py "'', 'x'") eq_refl) as [H1 _].
    apply (H1 [py "''"] (py "'x'") []); [reflexivity| |reflexivity|].
    + intros b [<-|[]]. apply Hskip. now left.
    + unfold skipped. intros [H0|[H0|H0]]; discriminate.
  - destruct (coalesce_first_present utc_env doc_ab) as [H _].
    destruct (H (py "coalesce('', unknown(1))") (py "'', unknown(1)") eq_refl)
      as [_ [H2 _]].
    apply H2. exact Hskip.
  - destruct (coalesce_first_present utc_env doc_ab) as [H _].
    destruct (H (py "coalesce('', unknown(1), 'x')")
                (py "'', unknown(1), 'x'") eq_refl) as [_ [_ H3]].
    apply (H3 (py "unknown(1)")); reflexivity.
Defined.

Lemma eval_expr_never_raises_witness :
  eval_frames utc_env 12 (py "coalesce(1") doc_ab
  = eval_expr utc_env (py "coalesce(1") doc_ab
  /\ (exists s, eval_expr utc_env (py "coalesce(1") doc_ab = Ok (VStr s))
  /\ eval_expr utc_env (py "foo(1,2)") doc_ab = Ok VNone
  /\ eval_expr utc_env (py "jsonPathInt($)") doc_ab = Ok VNone
  /\ eval_expr utc_env (py "jsonPathString($, 'a.b')") doc_ab = Ok VNone
  /\ eval_expr utc_env (py "fromDateTime()") doc_ab = Ok VNone
  /\ eval_expr utc_env (py "fromDateTime('not-a-date', 'x')") doc_ab = Ok VNone.
Proof.
  split.
  { destruct (eval_expr_never_raises utc_env (py "coalesce(1") doc_ab)
      as [_ [H _]].
    apply H. simpl. lia. }
  split.
  { destruct (eval_expr_never_raises utc_env (py "coalesce(1") doc_ab)
      as [_ [_ [_ [H _]]]].
    destruct (H eq_refl) as [Hs|[n Hn]]; [exact Hs|discriminate Hn]. }
  split.
  { destruct (eval_expr_never_raises utc_env (py "foo(1,2)") doc_ab)
      as [_ [_ [_ [_ H]]]].
    destruct (H (py "foo") (py "1,2") eq_refl) as [H1 _]. now apply H1. }
  split.
  { destruct (eval_expr_never_raises utc_env (py "jsonPathInt($)") doc_ab)
      as [_ [_ [_ [_ H]]]].
    destruct (H (py "jsonPathInt") (py "$") eq_refl) as [_ [H2 _]].
    destruct (H2 (or_intror eq_refl)) as [H2a _]. apply H2a. discriminate. }
  split.
  { destruct (eval_expr_never_raises utc_env (py "jsonPathString($, 'a.b')")
                doc_ab) as [_ [_ [_ [_ H]]]].
    destruct (H (py "jsonPathString") (py "$, 'a.b'") eq_refl) as [_ [H2 _]].
    destruct (H2 (or_introl eq_refl)) as [_ H2b].
    apply (H2b (py "$") (py "'a.b'") eq_refl).
    intros w [rest [Heq _]]. discriminate Heq. }
  split.
  { destruct (eval_expr_never_raises utc_env (py "fromDateTime()") doc_ab)
      as [_ [_ [_ [_ H]]]].
    destruct (H (py "fromDateTime") [] eq_refl) as [_ [_ H3]].
    destruct (H3 eq_refl) as [H3a _]. now apply H3a. }
  destruct (eval_expr_never_raises utc_env
              (py "fromDateTime('not-a-date', 'x')") doc_ab)
    as [_ [_ [_ [_ H]]]].
  destruct (H (py "fromDateTime") (py "'not-a-date', 'x'") eq_refl)
    as [_ [_ H3]].
  destruct (H3 eq_refl) as [_ H3b].
  apply (H3b (py "'not-a-date'") [py "'x'"] (VStr (py "not-a-date")));
    [reflexivity|reflexivity|].
  intros s Hs. inversion Hs; subst. reflexivity.
Defined.

Lemma eval_expr_terminates_witness :
  length (py "jsonPathInt($, '$.a')") < length (py "coalesce(jsonPathInt($, '$.a'), 2)")
  /\ eval_fuel utc_env 100 (py "coalesce(jsonPathInt($, '$.a'), 2)") doc_ab
     = eval_expr utc_env (py "coalesce(jsonPathInt($, '$.a'), 2)") doc_ab.
Proof.
  destruct (eval_expr_terminates utc_env
              (py "coalesce(jsonPathInt($, '$.a'), 2)") doc_ab) as [H1 [_ H3]].
  split.
  - apply (H1 (py "coalesce") (py "jsonPathInt($, '$.a'), 2")
              (py "jsonPathInt($, '$.a')") eq_refl).
    left. reflexivity.
  - apply H3. simpl. lia.
Defined.

Lemma jsonPathInt_is_jsonPathString_witness :
  eval_expr utc_env (call (py "jsonPathInt") (py "$, '$.a.b'")) doc_ab
  = eval_expr utc_env (call (py "jsonPathString") (py "$, '$.a.b'")) doc_ab
  /\ eval_expr utc_env (call (py "jsonPathInt") (py "$")) doc_ab = Ok VNone
  /\ eval_expr utc_env (call (py "jsonPathInt") (py "$, '$.a.b'")) doc_ab
     = Ok (VInt 5).
Proof.
  split; [|split].
  - destruct (jsonPathInt_is_jsonPathString utc_env doc_ab) as [_ [H _]].
    apply (H (py "$, '$.a.b'") eq_refl).
  - destruct (jsonPathInt_is_jsonPathString utc_env doc_ab) as [_ [H _]].
    destruct (H (py "$") eq_refl) as [_ [H2 _]]. apply H2. discriminate.
  - destruct (jsonPathInt_is_jsonPathString utc_env doc_ab) as [_ [H _]].
    destruct (H (py "$, '$.a.b'") eq_refl) as [_ [_ H3]].
    apply (H3 (py "$") (py "'$.a.b'") eq_refl).
Defined.

(** ** Floating point: results that stay finite *)

Local Open Scope Z_scope.
Unset Implicit Arguments.

Lemma fexp_eq (x : Z) : fexp prec emax x = Z.max (x - 53) (-1074).
Proof. reflexivity. Qed.

Lemma pow2_pos (k : Z) : 0 <= k -> 0 < 2 ^ k.
Proof. intros H. now apply Z.pow_pos_nonneg. Qed.

Lemma pow2_split (a b : Z) : 0 <= a -> 0 <= b -> 2 ^ (a + b) = 2 ^ a * 2 ^ b.
Proof. intros. now apply Z.pow_add_r. Qed.

Lemma pow2_mono (a b : Z) : 0 <= a <= b -> 2 ^ a <= 2 ^ b.
Proof. intros H. apply Z.pow_le_mono_r; lia. Qed.

(** The number of binary digits of a mantissa below a power of two. *)
Lemma digits2_pos_le (p : positive) :
  forall k, 0 <= k -> Zpos p <= 2 ^ k -> Zpos (digits2_pos p) <= k + 1.
Proof.
  induction p as [p IH|p IH|]; intros k Hk Hp; cbn [digits2_pos].
  - assert (k <> 0) by (intros ->; simpl in Hp; lia).
    replace k with (Z.succ (k - 1)) in Hp by lia.
    rewrite Z.pow_succ_r in Hp by lia.
    specialize (IH (k - 1)). rewrite Pos2Z.inj_succ. lia.
  - assert (k <> 0) by (intros ->; simpl in Hp; lia).
    replace k with (Z.succ (k - 1)) in Hp by lia.
    rewrite Z.pow_succ_r in Hp by lia.
    specialize (IH (k - 1)). rewrite Pos2Z.inj_succ. lia.
  - simpl. lia.
Qed.

Lemma Zdigits2_le (m k : Z) :
  0 <= m -> 0 <= k -> m <= 2 ^ k -> Zdigits2 m <= k + 1.
Proof.
  intros Hm Hk Hp. destruct m as [|p|p]; simpl; try lia.
  now apply digits2_pos_le.
Qed.

(** Shifting a mantissa right only makes it smaller. *)
Lemma shr_1_m (mrs : shr_record) :
  0 <= shr_m mrs ->
  0 <= shr_m (shr_1 mrs) /\ 2 * shr_m (shr_1 mrs) <= shr_m mrs.
Proof.
  destruct mrs as [m r s]. simpl. intros Hm.
  destruct m as [|[p|p|]|p]; simpl; lia.
Qed.

Lemma iter_shr_1_m (p : positive) :
  forall mrs,
    0 <= shr_m mrs ->
    0 <= shr_m (iter_pos shr_1 p mrs)
    /\ 2 ^ Zpos p * shr_m (iter_pos shr_1 p mrs) <= shr_m mrs.
Proof.
  induction p as [p IH|p IH|]; intros mrs Hm; cbn [iter_pos].
  - destruct (shr_1_m mrs Hm) as [Ha1 Ha2].
    destruct (IH _ Ha1) as [Hb1 Hb2]. destruct (IH _ Hb1) as [Hc1 Hc2].
    split; [assumption|].
    replace (Zpos p~1) with (Zpos p + Zpos p + 1) by lia.
    rewrite !pow2_split by lia. change (2 ^ 1) with 2.
    pose proof (pow2_pos (Zpos p) ltac:(lia)). nia.
  - destruct (IH _ Hm) as [Hb1 Hb2]. destruct (IH _ Hb1) as [Hc1 Hc2].
    split; [assumption|].
    replace (Zpos p~0) with (Zpos p + Zpos p) by lia.
    rewrite !pow2_split by lia.
    pose proof (pow2_pos (Zpos p) ltac:(lia)). nia.
  - destruct (shr_1_m mrs Hm) as [Ha1 Ha2]. split; [assumption|].
    change (2 ^ 1) with 2. lia.
Qed.

Lemma shr_record_of_loc_m (m : Z) (l : location) :
  shr_m (shr_record_of_loc m l) = m.
Proof. destruct l as [|[]]; reflexivity. Qed.

(** One rounding shift keeps a magnitude below [2 ^ K] where it is. *)
Lemma shr_fexp_small (K m e : Z) (l : location) :
  -1074 <= K -> 0 <= m -> e <= K -> m <= 2 ^ (K - e) ->
  0 <= shr_m (fst (shr_fexp prec emax m e l))
  /\ snd (shr_fexp prec emax m e l) <= K
  /\ shr_m (fst (shr_fexp prec emax m e l))
     <= 2 ^ (K - snd (shr_fexp prec emax m e l)).
Proof.
  intros HK Hm He Hp. unfold shr_fexp, shr. rewrite fexp_eq.
  pose proof (Zdigits2_le m (K - e) Hm ltac:(lia) Hp) as Hd.
  destruct (Z.max (Zdigits2 m + e - 53) (-1074) - e) as [|n|n] eqn:En;
    cbn [fst snd]; rewrite ?shr_record_of_loc_m; try (repeat split; lia).
  destruct (iter_shr_1_m n (shr_record_of_loc m l)) as [H1 H2];
    [rewrite shr_record_of_loc_m; lia|].
  rewrite shr_record_of_loc_m in H2.
  split; [assumption|]. split; [lia|].
  assert (Hs : 2 ^ (K - e) = 2 ^ Zpos n * 2 ^ (K - (e + Zpos n))).
  { rewrite <- pow2_split by lia. f_equal. lia. }
  pose proof (pow2_pos (Zpos n) ltac:(lia)). nia.
Qed.

Lemma round_nearest_even_bounds (m : Z) (l : location) :
  m <= round_nearest_even m l <= m + 1.
Proof.
  destruct l as [|[]]; simpl; try lia. destruct (Z.even m); lia.
Qed.

(** Rounding a magnitude below [2 ^ K] gives a float below [2 ^ (K+1)]. *)
Lemma binary_round_aux_small (K : Z) (s : bool) (m e : Z) (l : location) :
  -1074 <= K <= 970 -> 0 <= m -> e <= K -> m <= 2 ^ (K - e) ->
  small (K + 1) (binary_round_aux prec emax s m e l).
Proof.
  intros HK Hm He Hp. unfold binary_round_aux.
  destruct (shr_fexp_small K m e l ltac:(lia) Hm He Hp) as [H1 [H2 H3]].
  destruct (shr_fexp prec emax m e l) as [mrs' e'] eqn:E1. cbn [fst snd] in *.
  pose proof (round_nearest_even_bounds (shr_m mrs') (loc_of_shr_record mrs'))
    as Hr.
  set (m2 := round_nearest_even (shr_m mrs') (loc_of_shr_record mrs')) in *.
  assert (Hp2 : m2 <= 2 ^ (K + 1 - e')).
  { replace (K + 1 - e') with ((K - e') + 1) by lia.
    rewrite pow2_split by lia. change (2 ^ 1) with 2.
    pose proof (pow2_pos (K - e') ltac:(lia)). lia. }
  destruct (shr_fexp_small (K + 1) m2 e' loc_Exact
              ltac:(lia) ltac:(lia) ltac:(lia) Hp2) as [G1 [G2 G3]].
  destruct (shr_fexp prec emax m2 e' loc_Exact) as [mrs'' e''] eqn:E2.
  cbn [fst snd] in *.
  destruct (shr_m mrs'') as [|p|p]; [exact I| |lia].
  assert (Hle : (e'' <=? emax - prec) = true)
    by (apply Z.leb_le; unfold emax, prec; lia).
  rewrite Hle. split; assumption.
Qed.

Lemma small_mono (K K' : Z) (x : spec_float) :
  K <= K' -> small K x -> small K' x.
Proof.
  intros HK. destruct x as [s|s| |s m e]; simpl; auto.
  intros [He Hm]. split; [lia|].
  etransitivity; [exact Hm|]. apply pow2_mono. lia.
Qed.

Lemma iter_xO (m d : positive) :
  Zpos (Pos.iter xO m d) = Zpos m * 2 ^ Zpos d.
Proof.
  induction d as [|d IH] using Pos.peano_ind.
  - simpl. lia.
  - rewrite Pos.iter_succ, Pos2Z.inj_xO, IH, Pos2Z.inj_succ.
    rewrite Z.pow_succ_r by lia. lia.
Qed.

(** Aligning a mantissa to a lower exponent keeps its value. *)
Lemma shl_align_value (m : positive) (e e0 : Z) :
  snd (shl_align m e e0) <= e
  /\ Zpos (fst (shl_align m e e0))
     = Zpos m * 2 ^ (e - snd (shl_align m e e0)).
Proof.
  unfold shl_align. destruct (e0 - e) as [|d|d] eqn:Ed; cbn [fst snd].
  - rewrite Z.sub_diag. simpl. lia.
  - rewrite Z.sub_diag. simpl. lia.
  - split; [lia|]. rewrite iter_xO. f_equal. f_equal. lia.
Qed.

Lemma shl_align_small (K : Z) (m : positive) (e e0 : Z) :
  e <= K -> Zpos m <= 2 ^ (K - e) ->
  snd (shl_align m e e0) <= K
  /\ Zpos (fst (shl_align m e e0)) <= 2 ^ (K - snd (shl_align m e e0)).
Proof.
  intros He Hm. destruct (shl_align_value m e e0) as [H1 H2].
  split; [lia|]. rewrite H2.
  replace (K - snd (shl_align m e e0))
    with ((K - e) + (e - snd (shl_align m e e0))) by lia.
  rewrite pow2_split by lia.
  apply Z.mul_le_mono_nonneg_r; [|assumption].
  apply Z.lt_le_incl, pow2_pos. lia.
Qed.

Lemma binary_round_small (K : Z) (s : bool) (m : positive) (e : Z) :
  -1074 <= K <= 970 -> e <= K -> Zpos m <= 2 ^ (K - e) ->
  small (K + 1) (binary_round prec emax s m e).
Proof.
  intros HK He Hm. unfold binary_round.
  destruct (shl_align_small K m e
              (fexp prec emax (Zpos (digits2_pos m) + e)) He Hm) as [H1 H2].
  destruct (shl_align m e _) as [mz ez]. cbn [fst snd] in *.
  apply binary_round_aux_small; try assumption; lia.
Qed.

Lemma binary_normalize_small (K : Z) (z e : Z) (sz : bool) :
  -1074 <= K <= 970 -> e <= K -> Z.abs z <= 2 ^ (K - e) ->
  small (K + 1) (binary_normalize prec emax z e sz).
Proof.
  intros HK He Hz. destruct z as [|p|p]; simpl binary_normalize.
  - exact I.
  - apply binary_round_small; assumption.
  - apply binary_round_small; assumption.
Qed.

Lemma float_of_int_small (K z : Z) :
  0 <= K <= 970 -> Z.abs z <= 2 ^ K -> small (K + 1) (float_of_int z).
Proof.
  intros HK Hz. unfold float_of_int.
  apply binary_normalize_small; [lia|lia|]. now rewrite Z.sub_0_r.
Qed.

Lemma float_mul_small (K1 K2 : Z) (x y : spec_float) :
  -1074 <= K1 + K2 <= 970 -> small K1 x -> small K2 y ->
  small (K1 + K2 + 1) (float_mul x y).
Proof.
  intros HK Hx Hy. unfold float_mul.
  destruct x as [sx|sx| |sx mx ex]; try contradiction;
    destruct y as [sy|sy| |sy my ey]; try contradiction;
    try exact I.
  destruct Hx as [Hx1 Hx2]. destruct Hy as [Hy1 Hy2].
  cbn [SFmul]. apply binary_round_aux_small; [lia|lia|lia|].
  rewrite Pos2Z.inj_mul.
  replace (K1 + K2 - (ex + ey)) with ((K1 - ex) + (K2 - ey)) by lia.
  rewrite pow2_split by lia.
  apply Z.mul_le_mono_nonneg; lia.
Qed.

Lemma float_add_small (K : Z) (x y : spec_float) :
  -1074 <= K <= 968 -> small K x -> small K y ->
  small (K + 2) (float_add x y).
Proof.
  intros HK Hx Hy. unfold float_add.
  destruct x as [sx|sx| |sx mx ex]; try contradiction;
    destruct y as [sy|sy| |sy my ey]; try contradiction.
  - cbn [SFadd]. now destruct sx, sy.
  - cbn [SFadd]. apply small_mono with K; [lia|assumption].
  - cbn [SFadd]. apply small_mono with K; [lia|assumption].
  - destruct Hx as [Hx1 Hx2]. destruct Hy as [Hy1 Hy2]. cbn [SFadd].
    set (ez := Z.min ex ey).
    destruct (shl_align_value mx ex ez) as [A1 A2].
    destruct (shl_align_value my ey ez) as [B1 B2].
    assert (Ax : snd (shl_align mx ex ez) = ez).
    { unfold shl_align. destruct (ez - ex) eqn:Ed; cbn [snd]; lia. }
    assert (Ay : snd (shl_align my ey ez) = ez).
    { unfold shl_align. destruct (ez - ey) eqn:Ed; cbn [snd]; lia. }
    rewrite Ax in A2. rewrite Ay in B2.
    assert (Mx : Zpos (fst (shl_align mx ex ez)) <= 2 ^ (K - ez)).
    { rewrite A2. replace (K - ez) with ((K - ex) + (ex - ez)) by lia.
      rewrite pow2_split by lia.
      apply Z.mul_le_mono_nonneg_r; [|assumption].
      apply Z.lt_le_incl, pow2_pos. lia. }
    assert (My : Zpos (fst (shl_align my ey ez)) <= 2 ^ (K - ez)).
    { rewrite B2. replace (K - ez) with ((K - ey) + (ey - ez)) by lia.
      rewrite pow2_split by lia.
      apply Z.mul_le_mono_nonneg_r; [|assumption].
      apply Z.lt_le_incl, pow2_pos. lia. }
    replace (K + 2) with ((K + 1) + 1) by lia.
    apply binary_normalize_small; [lia|lia|].
    replace (K + 1 - ez) with ((K - ez) + 1) by lia.
    rewrite pow2_split by lia. change (2 ^ 1) with 2.
    unfold cond_Zopp. destruct sx, sy; lia.
Qed.

(** A quotient by a float whose exponent is at least [- L]. *)
Lemma float_div_small (K L : Z) (x : spec_float) (sy : bool) (my : positive)
    (ey : Z) :
  0 <= L -> -1074 <= K + L <= 970 -> - L <= ey -> small K x ->
  small (K + L + 1) (float_div x (S754_finite sy my ey)).
Proof.
  intros HL HK Hey Hx. unfold float_div.
  destruct x as [sx|sx| |sx mx ex]; try contradiction; [exact I|].
  destruct Hx as [Hx1 Hx2]. cbn [SFdiv]. unfold SFdiv_core_binary.
  set (e' := Z.min _ (ex - ey)).
  set (m' := match ex - ey - e' with
             | 0 => Zpos mx
             | Zpos _ => Z.shiftl (Zpos mx) (ex - ey - e')
             | Zneg _ => 0
             end).
  assert (He' : e' <= ex - ey) by (subst e'; lia).
  assert (Hm' : 0 <= m' <= 2 ^ (K + L - e')).
  { assert (Hb : Zpos mx * 2 ^ (ex - ey - e') <= 2 ^ (K + L - e')).
    { etransitivity.
      - apply Z.mul_le_mono_nonneg_r; [|exact Hx2].
        apply Z.lt_le_incl, pow2_pos. lia.
      - rewrite <- pow2_split by lia. apply pow2_mono. lia. }
    subst m'. destruct (ex - ey - e') as [|n|n] eqn:En; [| |lia].
    - simpl in Hb. lia.
    - rewrite Z.shiftl_mul_pow2 by lia. lia. }
  pose proof (Z.div_pos m' (Zpos my) ltac:(lia) ltac:(lia)) as Hq0.
  assert (Hq : m' / Zpos my <= m').
  { apply Z.div_le_upper_bound; nia. }
  unfold Z.div in Hq0, Hq.
  destruct (Z.div_eucl m' (Zpos my)) as [q r].
  apply binary_round_aux_small; lia.
Qed.

Lemma small_int_of_float (K : Z) (x : spec_float) :
  small K x -> exists n, int_of_float x = Ok n.
Proof.
  destruct x as [s|s| |s m e]; simpl; try contradiction; eauto.
Qed.

(** The arithmetic of a naive [datetime]: whole seconds that fit 63 bits
    and microseconds below a million give an integer. *)
Lemma naive_millis_int (secs us : Z) :
  Z.abs secs <= 2 ^ 62 -> 0 <= us <= 999999 ->
  exists n,
    int_of_float
      (float_mul
         (float_add (float_of_int secs)
                    (float_div (float_of_int us) (float_of_int 1000000)))
         (float_of_int 1000))
    = Ok n.
Proof.
  intros Hs Hu. apply small_int_of_float with (K := 77).
  change 77 with (65 + 11 + 1).
  apply float_mul_small; [lia| |].
  - change 65 with (63 + 2). apply float_add_small; [lia| |].
    + change 63 with (62 + 1). apply float_of_int_small; [lia|assumption].
    + apply small_mono with (21 + 33 + 1); [lia|].
      change (float_of_int 1000000)
        with (S754_finite false 8589934592000000 (-33)).
      apply float_div_small; [lia|lia|lia|].
      change 21 with (20 + 1). apply float_of_int_small; [lia|].
      change (2 ^ 20) with 1048576. lia.
  - change 11 with (10 + 1). apply float_of_int_small; [lia|].
    change (2 ^ 10) with 1024. simpl. lia.
Qed.

Lemma fromisoformat_valid (s : pystr) (dt : datetime) :
  fromisoformat s = Some dt -> valid_datetime dt = true.
Proof.
  unfold fromisoformat. intros H.
  repeat match type of H with
         | match ?x with _ => _ end = _ => destruct x eqn:?; try discriminate
         | (let (_, _) := ?x in _) = _ => destruct x eqn:?
         | (if ?x then _ else _) = _ => destruct x eqn:?; try discriminate
         end;
    inversion H; subst; assumption.
Qed.

Lemma valid_datetime_microsecond (dt : datetime) :
  valid_datetime dt = true -> 0 <= microsecond dt <= 999999.
Proof.
  unfold valid_datetime. intros H.
  repeat (apply andb_prop in H; destruct H as [H ?]).
  lia.
Qed.

Section NaiveDatetime.

Variable E : env.

Lemma epoch_millis_naive (s : pystr) (dt : datetime) (secs : Z) :
  fromisoformat (normalize_z s) = Some dt ->
  tzoffset dt = None ->
  local_seconds E dt = Some secs ->
  Z.abs secs <= 2 ^ 62 ->
  exists n, epoch_millis E s = Ok (VInt n).
Proof.
  intros Hp Hn Hl Hs. unfold epoch_millis, timestamp.
  rewrite Hp. cbn [or_raise bind]. rewrite Hn, Hl. cbn [or_raise bind].
  pose proof (valid_datetime_microsecond dt (fromisoformat_valid _ _ Hp)) as Hu.
  destruct (naive_millis_int secs (microsecond dt) Hs Hu) as [n Hn'].
  rewrite Hn'. cbn [bind try_except]. now exists n.
Qed.

Lemma epoch_millis_unconvertible (s : pystr) (dt : datetime) :
  fromisoformat (normalize_z s) = Some dt ->
  tzoffset dt = None ->
  local_seconds E dt = None ->
  epoch_millis E s = Ok VNone.
Proof.
  intros Hp Hn Hl. unfold epoch_millis, timestamp.
  rewrite Hp. cbn [or_raise bind]. rewrite Hn, Hl. reflexivity.
Qed.

(** C10 (as amended). When the first argument of [fromDateTime]
    evaluates to a string that parses as a date-time without a UTC
    offset, the result is an integer, not null, where the platform gives
    the POSIX time of that local wall-clock reading (a count that fits
    63 bits), and null where the platform cannot convert the reading.
    The integer depends on the local time zone: ['2024-01-01T00:00:00']
    gives 1704067200000 where local time is UTC and 1704047400000 where
    it is five and a half hours ahead. *)
Theorem fromDateTime_naive_is_integer :
  forall (expr raw a0 : pystr) (rest : list pystr) (s : pystr)
         (dt : datetime) (doc : value),
    FUNC_RE_match (strip expr) = Some (py "fromDateTime", raw) ->
    split_top_level_args raw = a0 :: rest ->
    eval_expr E a0 doc = Ok (VStr s) ->
    fromisoformat (normalize_z s) = Some dt ->
    tzoffset dt = None ->
    (forall secs,
        local_seconds E dt = Some secs -> Z.abs secs <= 2 ^ 62 ->
        exists n, eval_expr E expr doc = Ok (VInt n))
    /\ (local_seconds E dt = None -> eval_expr E expr doc = Ok VNone)
    /\ eval_expr utc_env (py "fromDateTime('2024-01-01T00:00:00')") doc
       = Ok (VInt 1704067200000)
    /\ eval_expr (offset_env 19800) (py "fromDateTime('2024-01-01T00:00:00')")
                 doc
       = Ok (VInt 1704047400000).
Proof.
  intros expr raw a0 rest s dt doc Hm Ha Hv Hp Hn.
  assert (He : eval_expr E expr doc = epoch_millis E s).
  { rewrite (eval_expr_call E expr doc Hm), eval_call_fromDateTime, Ha, Hv.
    reflexivity. }
  rewrite He.
  split; [|split; [|split; vm_compute; reflexivity]].
  - intros secs Hl Hs. now apply (epoch_millis_naive s dt secs).
  - now apply (epoch_millis_unconvertible s dt).
Qed.

End NaiveDatetime.

Lemma fromDateTime_naive_is_integer_witness :
  (exists n,
      eval_expr utc_env (py "fromDateTime('2024-01-01T00:00:00')") doc_ab
      = Ok (VInt n))
  /\ eval_expr utc_env (py "fromDateTime('0001-01-01T12:00:00')") doc_ab
     = Ok VNone.
Proof.
  split.
  - destruct (fromDateTime_naive_is_integer utc_env
                (py "fromDateTime('2024-01-01T00:00:00')")
                (py "'2024-01-01T00:00:00'") (py "'2024-01-01T00:00:00'") []
                (py "2024-01-01T00:00:00")
                (mkdatetime 2024 1 1 0 0 0 0 None) doc_ab
                eq_refl eq_refl eq_refl eq_refl eq_refl) as [H _].
    apply (H 1704067200); [reflexivity|vm_compute; discriminate].
  - destruct (fromDateTime_naive_is_integer utc_env
                (py "fromDateTime('0001-01-01T12:00:00')")
                (py "'0001-01-01T12:00:00'") (py "'0001-01-01T12:00:00'") []
                (py "0001-01-01T12:00:00")
                (mkdatetime 1 1 1 12 0 0 0 None) doc_ab
                eq_refl eq_refl eq_refl eq_refl eq_refl) as [_ [H _]].
    apply H. reflexivity.
Defined.

(** C10, as the specification words it, fails where the platform cannot
    convert the reading: the first day of year 1 is a well-formed
    date-time without offset, and where local time is UTC the library
    raises for it, which line 84 turns into null. *)
Lemma fromDateTime_naive_unconvertible :
  fromisoformat (normalize_z (py "0001-01-01T00:00:00"))
  = Some (mkdatetime 1 1 1 0 0 0 0 None)
  /\ local_seconds utc_env (mkdatetime 1 1 1 0 0 0 0 None) = None
  /\ eval_expr utc_env (py "fromDateTime('0001-01-01T00:00:00')") doc_ab
     = Ok VNone.
Proof. split; [|split]; vm_compute; reflexivity. Qed.

(** * Further properties of the code *)

Local Close Scope Z_scope.

(** ** Trimming *)

Lemma lstrip_head (s : pystr) (c : ascii) (r : pystr) :
  lstrip s = c :: r -> isspace c = false.
Proof.
  induction s as [|a s IH]; simpl; [discriminate|].
  destruct (isspace a) eqn:Ea; [exact IH|].
  intros H. inversion H; subst. exact Ea.
Qed.

Lemma rstrip_keeps_head (c : ascii) (s : pystr) :
  isspace c = false -> exists r, rstrip (c :: s) = c :: r.
Proof.
  intros Hc. simpl. destruct (rstrip s); [rewrite Hc|]; eauto.
Qed.

Lemma rstrip_idempotent (s : pystr) : rstrip (rstrip s) = rstrip s.
Proof.
  induction s as [|c s IH]; [reflexivity|]. simpl.
  destruct (rstrip s) as [|a r] eqn:Er.
  - destruct (isspace c) eqn:Ec; [reflexivity|]. simpl. now rewrite Ec.
  - change (rstrip (c :: a :: r)) with
      (match rstrip (a :: r) with
       | [] => if isspace c then [] else [c]
       | x :: y => c :: x :: y
       end).
    now rewrite IH.
Qed.

Lemma strip_idempotent (s : pystr) : strip (strip s) = strip s.
Proof.
  unfold strip. destruct (lstrip s) as [|c r] eqn:El; [reflexivity|].
  pose proof (lstrip_head _ _ _ El) as Hc.
  destruct (rstrip_keeps_head c r Hc) as [r' Hr]. rewrite Hr.
  simpl lstrip. rewrite Hc, <- Hr. apply rstrip_idempotent.
Qed.

Lemma lstrip_padding (ws x : pystr) :
  forallb isspace ws = true -> lstrip (ws ++ x) = lstrip x.
Proof.
  induction ws as [|c ws IH]; intros H; [reflexivity|].
  simpl in H. apply andb_prop in H. destruct H as [Hc Hw].
  simpl. rewrite Hc. auto.
Qed.

Lemma rstrip_padding (x ws : pystr) :
  forallb isspace ws = true -> rstrip (x ++ ws) = rstrip x.
Proof.
  intros H. induction x as [|c x IH]; simpl.
  - now apply rstrip_blank.
  - now rewrite IH.
Qed.

(** Whitespace around a text that neither starts nor ends with whitespace
    is all that [strip] removes. *)
Lemma strip_padding (ws1 ws2 : pystr) (a c : ascii) (x : pystr) :
  forallb isspace ws1 = true -> forallb isspace ws2 = true ->
  isspace a = false -> isspace c = false ->
  strip (ws1 ++ (a :: x ++ [c]) ++ ws2) = a :: x ++ [c].
Proof.
  intros H1 H2 Ha Hc. unfold strip.
  rewrite lstrip_padding by assumption.
  cbn [app lstrip]. rewrite Ha.
  change (a :: (x ++ [c]) ++ ws2) with ((a :: x ++ [c]) ++ ws2).
  rewrite rstrip_padding by assumption.
  change (a :: x ++ [c]) with ((a :: x) ++ [c]). now apply rstrip_snoc.
Qed.

(** ** The call pattern, both ways *)

Lemma span_forallb (f : ascii -> bool) (s : pystr) :
  forall a b, span f s = (a, b) -> forallb f a = true.
Proof.
  induction s as [|c s IH]; intros a b H; simpl in H.
  - now inversion H.
  - destruct (f c) eqn:Ec.
    + destruct (span f s) as [a' b'] eqn:Es. inversion H; subst.
      simpl. rewrite Ec. eapply IH. reflexivity.
    + now inversion H.
Qed.

Lemma endswith_inv (s : pystr) (c : ascii) :
  endswith s [c] = true -> s = removelast s ++ [c].
Proof.
  destruct s as [|a s] using rev_ind; [discriminate|].
  rewrite endswith_snoc, removelast_last. intros H.
  apply Ascii.eqb_eq in H. now subst.
Qed.

(** The pattern accepts exactly the texts made of a name, an opening
    parenthesis, an argument text free of line breaks and a closing
    parenthesis, optionally followed by one final line break; it gives
    back that name and that argument text. *)
Theorem FUNC_RE_match_iff :
  forall (s name raw : pystr),
    FUNC_RE_match s = Some (name, raw)
    <-> ((s = call name raw \/ s = call name raw ++ [newline])
         /\ name <> [] /\ forallb is_name_char name = true
         /\ has_newline raw = false).
Proof.
  intros s name raw. split.
  - unfold FUNC_RE_match.
    set (s0 := if endswith s [newline] then removelast s else s).
    assert (H0 : s = s0 \/ s = s0 ++ [newline]).
    { subst s0. destruct (endswith s [newline]) eqn:Ee; [|now left].
      right. now apply endswith_inv. }
    destruct (span is_name_char s0) as [nm rest] eqn:Es.
    pose proof (span_app _ _ Es) as Happ.
    pose proof (span_forallb _ _ _ _ Es) as Hall.
    destruct nm as [|n0 nm]; [discriminate|].
    destruct rest as [|op body]; [discriminate|].
    destruct (is_char op "(" && endswith body (py ")")
              && negb (has_newline (removelast body))) eqn:C; [|discriminate].
    intros H. inversion H; subst name raw. clear H.
    apply andb_prop in C. destruct C as [C Hnl].
    apply andb_prop in C. destruct C as [Hop Hend].
    apply is_char_eq in Hop. subst op.
    apply (endswith_inv body ")") in Hend.
    apply negb_true_iff in Hnl.
    assert (Hcall : s0 = call (n0 :: nm) (removelast body)).
    { rewrite Happ. unfold call. now rewrite Hend at 1. }
    rewrite Hcall in H0. repeat split; try assumption. discriminate.
  - intros [[-> | ->] [Hne [Hn Hr]]].
    + now apply FUNC_RE_match_call.
    + unfold FUNC_RE_match. rewrite endswith_snoc.
      change (Ascii.eqb newline newline) with true. cbv iota.
      rewrite removelast_last. fold (FUNC_RE_match (call name raw)).
      assert (Hm : FUNC_RE_match (call name raw) = Some (name, raw))
        by now apply FUNC_RE_match_call.
      unfold FUNC_RE_match in Hm.
      assert (He : endswith (call name raw) [newline] = false).
      { unfold call. change (py ")") with [")"%char]. rewrite !app_assoc.
        now rewrite endswith_snoc. }
      now rewrite He in Hm.
Qed.

Lemma FUNC_RE_match_iff_witness :
  FUNC_RE_match (py "f(a,(b))") = Some (py "f", py "a,(b)").
Proof.
  apply (FUNC_RE_match_iff (py "f(a,(b))") (py "f") (py "a,(b)")).
  repeat split; try reflexivity; [now left|discriminate].
Defined.

(** ** The argument list *)

(** Every argument that [split_top_level_args] returns is trimmed: it
    neither starts nor ends with whitespace. *)
Theorem split_args_are_trimmed :
  forall (raw a : pystr),
    In a (split_top_level_args raw) -> strip a = a.
Proof.
  intros raw a. rewrite split_top_level_args_segments. intros Ha.
  apply in_app_or in Ha. destruct Ha as [Ha|Ha].
  - apply in_map_iff in Ha. destruct Ha as [seg [<- _]].
    apply strip_idempotent.
  - destruct (strip (last (segments 0 raw) [])) eqn:Es; [destruct Ha|].
    destruct Ha as [<-|[]]. rewrite <- Es. apply strip_idempotent.
Qed.

Lemma split_args_are_trimmed_witness :
  strip (py "b(c, d)") = py "b(c, d)".
Proof.
  apply (split_args_are_trimmed (py " a ,  b(c, d) ") (py "b(c, d)")).
  right. left. reflexivity.
Defined.

Lemma segments_cons_space (s : pystr) (d : Z) :
  segments d (" "%char :: s)
  = match segments d s with
    | seg :: rest => (" "%char :: seg) :: rest
    | [] => [[" "%char]]
    end.
Proof. reflexivity. Qed.

Lemma one_arg_depth (a : pystr) : one_arg a -> depth_after 0%Z a = 0%Z.
Proof. now intros [_ [_ H]]. Qed.

(** The segments of a written-out argument list: the first argument, and
    every other one after its space. *)
Lemma segments_join_args (l : list pystr) :
  forall a, Forall one_arg (a :: l) ->
            segments 0%Z (join_args (a :: l))
            = a :: map (fun b => " "%char :: b) l.
Proof.
  induction l as [|b l IH]; intros a H.
  - inversion H as [|x y [_ [Hs _]] _]; subst. exact Hs.
  - inversion H as [|x y Ha Hl]; subst.
    change (join_args (a :: b :: l))
      with (a ++ py "," ++ (" "%char :: join_args (b :: l))).
    rewrite segments_cut by now apply one_arg_depth.
    destruct Ha as [_ [Hs _]]. rewrite Hs.
    rewrite segments_cons_space, (IH b Hl). reflexivity.
Qed.

Lemma strip_cons_space (a : pystr) : strip (" "%char :: a) = strip a.
Proof. reflexivity. Qed.

(** Writing arguments out with commas and splitting the text gives the
    arguments back, when each is trimmed, closes its parentheses and has
    no comma outside them, and the last is not empty. *)
Theorem split_join_args :
  forall (l : list pystr),
    Forall one_arg l -> (l = [] \/ last l [] <> []) ->
    split_top_level_args (join_args l) = l.
Proof.
  intros l Hl Hlast. destruct l as [|a l]; [reflexivity|].
  destruct Hlast as [Hlast|Hlast]; [discriminate|].
  rewrite split_top_level_args_drop, (segments_join_args l a Hl).
  assert (Hmap : map strip (a :: map (fun b => " "%char :: b) l) = a :: l).
  { cbn [map]. inversion Hl as [|x y [Ha _] Hr]; subst. rewrite Ha. f_equal.
    rewrite map_map. clear - Hr.
    induction Hr as [|b l [Hb _] _ IH]; [reflexivity|].
    cbn [map]. now rewrite strip_cons_space, Hb, IH. }
  rewrite Hmap. unfold drop_blank_last.
  destruct (last (a :: l) []); [congruence|reflexivity].
Qed.

Lemma split_join_args_witness :
  split_top_level_args (join_args [py "f(x, y)"; []; py "'z'"])
  = [py "f(x, y)"; []; py "'z'"].
Proof.
  apply split_join_args.
  - repeat constructor.
  - right. discriminate.
Defined.

(** ** [strip_quotes] *)

Lemma is_quote_not_space (q : ascii) : is_quote q = true -> isspace q = false.
Proof.
  unfold is_quote. intros H. apply orb_prop in H. destruct H as [H|H].
  - apply is_char_eq in H. now subst.
  - apply Ascii.eqb_eq in H. now subst.
Qed.

(** A text between two equal quote characters, with any whitespace
    around, is unquoted to the text itself, whatever it contains. *)
Theorem strip_quotes_unquotes :
  forall (q : ascii) (p ws1 ws2 : pystr),
    is_quote q = true ->
    forallb isspace ws1 = true -> forallb isspace ws2 = true ->
    strip_quotes (ws1 ++ (q :: p ++ [q]) ++ ws2) = p.
Proof.
  intros q p ws1 ws2 Hq H1 H2. unfold strip_quotes.
  rewrite strip_padding by (assumption || now apply is_quote_not_space).
  assert (He : endswith (q :: p ++ [q]) [q] = true).
  { change (q :: p ++ [q]) with ((q :: p) ++ [q]).
    rewrite endswith_snoc. apply Ascii.eqb_refl. }
  assert (Hs : startswith (q :: p ++ [q]) [q] = true).
  { simpl. now rewrite Ascii.eqb_refl. }
  unfold is_quote in Hq. apply orb_prop in Hq. destruct Hq as [Hq|Hq].
  - apply is_char_eq in Hq. subst q.
    change (py "'") with ["'"%char]. rewrite Hs, He.
    cbn [andb orb tl]. apply removelast_last.
  - apply Ascii.eqb_eq in Hq. subst q. rewrite Hs, He.
    rewrite orb_true_r. cbn [tl]. apply removelast_last.
Qed.

Lemma strip_quotes_unquotes_witness :
  strip_quotes (py "  " ++ (dquote :: py "a, 'b'" ++ [dquote]) ++ py " ")
  = py "a, 'b'".
Proof. apply strip_quotes_unquotes; reflexivity. Defined.

(** ** Evaluation of literals and of whitespace *)

Lemma lstrip_app_padding (e ws : pystr) :
  forallb isspace ws = true ->
  lstrip (e ++ ws) = match lstrip e with [] => [] | _ :: _ => lstrip e ++ ws end.
Proof.
  intros H. induction e as [|c e IH]; simpl.
  - now apply lstrip_blank.
  - destruct (isspace c); [exact IH|reflexivity].
Qed.

Lemma strip_app_padding (ws1 e ws2 : pystr) :
  forallb isspace ws1 = true -> forallb isspace ws2 = true ->
  strip (ws1 ++ e ++ ws2) = strip e.
Proof.
  intros H1 H2. unfold strip.
  rewrite lstrip_padding, lstrip_app_padding by assumption.
  destruct (lstrip e); [reflexivity|]. now apply rstrip_padding.
Qed.

Lemma FUNC_RE_match_not_name (c : ascii) (s : pystr) :
  is_name_char c = false -> endswith (c :: s) [newline] = false ->
  FUNC_RE_match (c :: s) = None.
Proof.
  intros Hc He. unfold FUNC_RE_match. rewrite He. simpl span. now rewrite Hc.
Qed.

Section FurtherEvaluation.

Variable E : env.

(** Whitespace before and after an expression does not change its
    value. *)
Theorem eval_expr_ignores_padding :
  forall (ws1 expr ws2 : pystr) (doc : value),
    forallb isspace ws1 = true -> forallb isspace ws2 = true ->
    eval_expr E (ws1 ++ expr ++ ws2) doc = eval_expr E expr doc.
Proof.
  intros ws1 expr ws2 doc H1 H2.
  rewrite (eval_expr_unfold E (ws1 ++ expr ++ ws2)), (eval_expr_unfold E expr).
  now rewrite strip_app_padding.
Qed.

(** A text between two equal quote characters evaluates to that text as a
    string, on every document, whatever the text contains: commas,
    parentheses, digits or the text of a call. *)
Theorem eval_expr_quoted_literal :
  forall (q : ascii) (p : pystr) (doc : value),
    is_quote q = true ->
    eval_expr E (q :: p ++ [q]) doc = Ok (VStr p).
Proof.
  intros q p doc Hq.
  pose proof (is_quote_not_space q Hq) as Hsp.
  assert (Hstrip : strip (q :: p ++ [q]) = q :: p ++ [q])
    by now apply strip_fixed.
  assert (Hname : is_name_char q = false).
  { unfold is_quote in Hq. apply orb_prop in Hq. destruct Hq as [Hq|Hq].
    - apply is_char_eq in Hq. now subst.
    - apply Ascii.eqb_eq in Hq. now subst. }
  assert (Hnl : endswith (q :: p ++ [q]) [newline] = false).
  { change (q :: p ++ [q]) with ((q :: p) ++ [q]). rewrite endswith_snoc.
    destruct (Ascii.eqb q newline) eqn:En; [|reflexivity].
    apply Ascii.eqb_eq in En. subst q. discriminate. }
  rewrite eval_expr_unfold, Hstrip, FUNC_RE_match_not_name by assumption.
  unfold eval_literal.
  assert (Hst : startswith (q :: p ++ [q]) (py "'")
                || startswith (q :: p ++ [q]) [dquote] = true).
  { unfold is_quote, is_char in Hq. simpl. now rewrite !andb_true_r. }
  rewrite Hst. f_equal. f_equal.
  pose proof (strip_quotes_unquotes q p [] [] Hq eq_refl eq_refl) as Hu.
  now rewrite app_nil_l, app_nil_r in Hu.
Qed.

End FurtherEvaluation.

Lemma eval_expr_ignores_padding_witness :
  eval_expr utc_env (py "  " ++ py "coalesce('', 7)" ++ py " ") doc_ab
  = eval_expr utc_env (py "coalesce('', 7)") doc_ab.
Proof. apply eval_expr_ignores_padding; reflexivity. Defined.

Lemma eval_expr_quoted_literal_witness :
  eval_expr utc_env ("'"%char :: py "f(1, 2)" ++ ["'"%char]) doc_ab
  = Ok (VStr (py "f(1, 2)")).
Proof. apply eval_expr_quoted_literal. reflexivity. Defined.

(** ** Integer literals *)

Ltac eval_digit :=
  match goal with
  | |- context [digit_value ?c] =>
      let v := eval vm_compute in (digit_value c) in
      change (digit_value c) with v
  end.

Lemma py_String (c : ascii) (s : string) : py (String c s) = c :: py s.
Proof. reflexivity. Qed.

Lemma int_digits_uint_acc (d : uint) :
  forall acc cnt,
    int_digits (py (NilEmpty.string_of_uint d)) (Zpos acc) cnt
    = Some (Zpos (Pos.of_uint_acc d acc), cnt + nb_digits d).
Proof.
  induction d; intros acc cnt; cbn [NilEmpty.string_of_uint nb_digits];
    [simpl; now rewrite Nat.add_0_r|..];
    rewrite py_String; cbn [int_digits]; eval_digit; cbv iota;
    cbn [Pos.of_uint_acc];
    match goal with
    | |- int_digits _ ?z _ = Some (Zpos (Pos.of_uint_acc _ ?p), _) =>
        replace z with (Zpos p) by lia
    end;
    rewrite IHd; f_equal; f_equal; lia.
Qed.

Lemma int_digits_uint (d : uint) :
  forall cnt,
    int_digits (py (NilEmpty.string_of_uint d)) 0 cnt
    = Some (Z.of_N (Pos.of_uint d), cnt + nb_digits d).
Proof.
  induction d; intros cnt; cbn [NilEmpty.string_of_uint nb_digits];
    [simpl; now rewrite Nat.add_0_r|..];
    rewrite py_String; cbn [int_digits]; eval_digit; cbv iota;
    cbn [Pos.of_uint].
  - change (10 * 0 + 0)%Z with 0%Z. rewrite IHd. f_equal. f_equal. lia.
  - change (10 * 0 + 1)%Z with (Zpos 1).
    rewrite int_digits_uint_acc. f_equal. f_equal. lia.
  - change (10 * 0 + 2)%Z with (Zpos 2).
    rewrite int_digits_uint_acc. f_equal. f_equal. lia.
  - change (10 * 0 + 3)%Z with (Zpos 3).
    rewrite int_digits_uint_acc. f_equal. f_equal. lia.
  - change (10 * 0 + 4)%Z with (Zpos 4).
    rewrite int_digits_uint_acc. f_equal. f_equal. lia.
  - change (10 * 0 + 5)%Z with (Zpos 5).
    rewrite int_digits_uint_acc. f_equal. f_equal. lia.
  - change (10 * 0 + 6)%Z with (Zpos 6).
    rewrite int_digits_uint_acc. f_equal. f_equal. lia.
  - change (10 * 0 + 7)%Z with (Zpos 7).
    rewrite int_digits_uint_acc. f_equal. f_equal. lia.
  - change (10 * 0 + 8)%Z with (Zpos 8).
    rewrite int_digits_uint_acc. f_equal. f_equal. lia.
  - change (10 * 0 + 9)%Z with (Zpos 9).
    rewrite int_digits_uint_acc. f_equal. f_equal. lia.
Qed.

Lemma uint_digits (d : uint) :
  forallb is_digit (py (NilEmpty.string_of_uint d)) = true.
Proof. induction d; simpl; auto. Qed.

Lemma int_magnitude_uint (d : uint) :
  d <> Nil ->
  int_magnitude (py (NilEmpty.string_of_uint d))
  = Some (Z.of_uint d, nb_digits d).
Proof.
  intros Hd. unfold int_magnitude.
  pose proof (int_digits_uint d 0) as H.
  destruct d; [congruence|..];
    cbn [NilEmpty.string_of_uint] in *; rewrite py_String in *;
    cbn [int_digits] in H; revert H; eval_digit; cbv iota; intros H;
    exact H.
Qed.

Lemma uint_length (d : uint) :
  length (py (NilEmpty.string_of_uint d)) = nb_digits d.
Proof. induction d; simpl; auto. Qed.

Lemma is_digit_facts (c : ascii) :
  is_digit c = true ->
  isspace c = false /\ is_char c "-" = false /\ is_char c "+" = false
  /\ is_char c "(" = false /\ is_char c "'" = false
  /\ Ascii.eqb c dquote = false.
Proof.
  destruct c as [[] [] [] [] [] [] [] []]; vm_compute; intros H;
    repeat split; congruence.
Qed.

Lemma rstrip_solid (s : pystr) :
  forallb (fun c => negb (isspace c)) s = true -> rstrip s = s.
Proof.
  induction s as [|c s IH]; [reflexivity|]. simpl. intros H.
  apply andb_prop in H. destruct H as [Hc Hs]. rewrite (IH Hs).
  apply negb_true_iff in Hc. rewrite Hc. now destruct s.
Qed.

(** A text without whitespace is left alone by [strip]. *)
Lemma strip_solid (s : pystr) :
  forallb (fun c => negb (isspace c)) s = true -> strip s = s.
Proof.
  intros H. unfold strip.
  assert (Hl : lstrip s = s).
  { destruct s as [|c s]; [reflexivity|]. simpl in *.
    apply andb_prop in H. destruct H as [Hc _].
    apply negb_true_iff in Hc. now rewrite Hc. }
  rewrite Hl. now apply rstrip_solid.
Qed.

Lemma forallb_removelast {A : Type} (f : A -> bool) (l : list A) :
  forallb f l = true -> forallb f (removelast l) = true.
Proof.
  destruct l as [|a l] using rev_ind; [auto|].
  rewrite removelast_last, forallb_app. intros H.
  apply andb_prop in H. tauto.
Qed.

(** Without an opening parenthesis there is no call. *)
Lemma FUNC_RE_match_no_paren (s : pystr) :
  forallb (fun c => negb (is_char c "(")) s = true -> FUNC_RE_match s = None.
Proof.
  intros H. unfold FUNC_RE_match.
  set (s0 := if endswith s [newline] then removelast s else s).
  assert (H0 : forallb (fun c => negb (is_char c "(")) s0 = true).
  { subst s0. destruct (endswith s [newline]);
      [now apply forallb_removelast|assumption]. }
  destruct (span is_name_char s0) as [nm rest] eqn:Es.
  apply span_app in Es. rewrite Es, forallb_app in H0.
  apply andb_prop in H0. destruct H0 as [_ H0].
  destruct nm; [reflexivity|]. destruct rest as [|op body]; [reflexivity|].
  simpl in H0. apply andb_prop in H0. destruct H0 as [Hop _].
  apply negb_true_iff in Hop. now rewrite Hop.
Qed.

Lemma forallb_impl {A : Type} (f g : A -> bool) (l : list A) :
  (forall a, f a = true -> g a = true) ->
  forallb f l = true -> forallb g l = true.
Proof.
  intros Hfg. induction l as [|a l IH]; simpl; [auto|].
  intros H. apply andb_prop in H. destruct H as [Ha Hl].
  now rewrite (Hfg a Ha), IH.
Qed.

(** [int] reads a numeral of at most 640 digits as its number, signed or
    not, whatever the limit of the interpreter. *)
Lemma int_of_str_uint (limit : nat) (d : uint) :
  d <> Nil -> nb_digits d <= 640 ->
  int_of_str limit (py (NilEmpty.string_of_uint d)) = Some (Z.of_uint d)
  /\ int_of_str limit ("-"%char :: py (NilEmpty.string_of_uint d))
     = Some (- Z.of_uint d)%Z.
Proof.
  intros Hd Hn.
  pose proof (uint_digits d) as Hdig.
  assert (Hsolid : forallb (fun c => negb (isspace c))
                     (py (NilEmpty.string_of_uint d)) = true).
  { revert Hdig. apply forallb_impl. intros c Hc.
    apply is_digit_facts in Hc. destruct Hc as [Hc _]. now rewrite Hc. }
  assert (Hcnt : (640 <? nb_digits d) = false) by now apply Nat.ltb_ge.
  pose proof (int_magnitude_uint d Hd) as Hm.
  split; unfold int_of_str.
  - rewrite strip_solid by assumption.
    destruct (py (NilEmpty.string_of_uint d)) as [|c s] eqn:Es;
      [discriminate Hm|].
    simpl in Hdig. apply andb_prop in Hdig. destruct Hdig as [Hc _].
    apply is_digit_facts in Hc. destruct Hc as [_ [Hm1 [Hp1 _]]].
    now rewrite Hm1, Hp1, Hm, Hcnt.
  - rewrite strip_solid by (simpl; exact Hsolid).
    change (is_char "-" "-") with true. cbv iota.
    now rewrite Hm, Hcnt.
Qed.

Section IntegerLiterals.

Variable E : env.

Lemma eval_expr_bare (s : pystr) (doc : value) :
  forallb (fun c => negb (isspace c)) s = true ->
  forallb (fun c => negb (is_char c "(")) s = true ->
  startswith s (py "'") || startswith s [dquote] = false ->
  eval_expr E s doc
  = try_except
      (n <- or_raise ValueError (int_of_str (max_str_digits E) s) ;;
       Ok (VInt n))
      (Ok (VStr s)).
Proof.
  intros Hs Hp Hq.
  rewrite eval_expr_unfold, strip_solid, FUNC_RE_match_no_paren by assumption.
  unfold eval_literal. now rewrite Hq.
Qed.

(** The decimal numeral of an integer, of at most 640 characters,
    evaluates to that integer on every document. *)
Theorem eval_expr_decimal_literal :
  forall (z : Z) (doc : value),
    length (decimal z) <= 640 ->
    eval_expr E (decimal z) doc = Ok (VInt z).
Proof.
  intros z doc Hlen. unfold decimal in *.
  destruct z as [|p|p]; [reflexivity| |].
  - cbn [Z.to_int NilZero.string_of_int] in *.
    pose proof (Unsigned.to_uint_nonnil p) as Hd.
    assert (Hstr : NilZero.string_of_uint (Pos.to_uint p)
                   = NilEmpty.string_of_uint (Pos.to_uint p))
      by (destruct (Pos.to_uint p); [congruence|reflexivity..]).
    rewrite Hstr in *. rewrite uint_length in Hlen.
    pose proof (uint_digits (Pos.to_uint p)) as Hdig.
    rewrite eval_expr_bare.
    + destruct (int_of_str_uint (max_str_digits E) (Pos.to_uint p) Hd Hlen)
        as [-> _].
      cbn [or_raise bind try_except]. unfold Z.of_uint.
      now rewrite Unsigned.of_to.
    + revert Hdig. apply forallb_impl. intros c Hc.
      apply is_digit_facts in Hc. destruct Hc as [Hc _]. now rewrite Hc.
    + revert Hdig. apply forallb_impl. intros c Hc.
      apply is_digit_facts in Hc. destruct Hc as [_ [_ [_ [Hc _]]]].
      now rewrite Hc.
    + destruct (py (NilEmpty.string_of_uint (Pos.to_uint p))) as [|c s];
        [reflexivity|].
      simpl in Hdig. apply andb_prop in Hdig. destruct Hdig as [Hc _].
      apply is_digit_facts in Hc. destruct Hc as [_ [_ [_ [_ [H1 H2]]]]].
      simpl. unfold is_char in H1. now rewrite H1, H2.
  - cbn [Z.to_int NilZero.string_of_int] in *.
    pose proof (Unsigned.to_uint_nonnil p) as Hd.
    assert (Hstr : NilZero.string_of_uint (Pos.to_uint p)
                   = NilEmpty.string_of_uint (Pos.to_uint p))
      by (destruct (Pos.to_uint p); [congruence|reflexivity..]).
    rewrite Hstr in *. rewrite py_String in *. cbn [length] in Hlen.
    rewrite uint_length in Hlen.
    pose proof (uint_digits (Pos.to_uint p)) as Hdig.
    rewrite eval_expr_bare.
    + destruct (int_of_str_uint (max_str_digits E) (Pos.to_uint p) Hd
                  ltac:(lia)) as [_ ->].
      cbn [or_raise bind try_except]. unfold Z.of_uint.
      now rewrite Unsigned.of_to.
    + cbn [forallb]. change (negb (isspace "-")) with true. cbn [andb].
      revert Hdig. apply forallb_impl. intros c Hc.
      apply is_digit_facts in Hc. destruct Hc as [Hc _]. now rewrite Hc.
    + cbn [forallb]. change (negb (is_char "-" "(")) with true. cbn [andb].
      revert Hdig. apply forallb_impl. intros c Hc.
      apply is_digit_facts in Hc. destruct Hc as [_ [_ [_ [Hc _]]]].
      now rewrite Hc.
    + reflexivity.
Qed.

End IntegerLiterals.

Lemma eval_expr_decimal_literal_witness :
  eval_expr utc_env (decimal (-1704067200000)) doc_ab
  = Ok (VInt (-1704067200000)).
Proof. apply eval_expr_decimal_literal. vm_compute. lia. Defined.

(** ** Paths *)

Lemma split_dot_dot_free (k : pystr) : dot_free k = true -> split_dot k = [k].
Proof.
  unfold dot_free. induction k as [|c k IH]; [reflexivity|].
  cbn [forallb split_dot]. intros H. apply andb_prop in H.
  destruct H as [Hc Hk]. apply negb_true_iff in Hc. now rewrite Hc, IH.
Qed.

Lemma split_dot_app (a b : pystr) :
  dot_free a = true -> split_dot (a ++ py "." ++ b) = a :: split_dot b.
Proof.
  unfold dot_free. induction a as [|c a IH]; [reflexivity|].
  cbn [forallb app split_dot]. intros H. apply andb_prop in H.
  destruct H as [Hc Ha]. apply negb_true_iff in Hc. now rewrite Hc, IH.
Qed.

Lemma split_dot_join (keys : list pystr) :
  keys <> [] -> forallb dot_free keys = true ->
  split_dot (join_dots keys) = keys.
Proof.
  induction keys as [|k keys IH]; [congruence|]. intros _ H.
  cbn [forallb] in H. apply andb_prop in H. destruct H as [Hk Hks].
  destruct keys as [|k2 keys]; [now apply split_dot_dot_free|].
  change (join_dots (k :: k2 :: keys))
    with (k ++ py "." ++ join_dots (k2 :: keys)).
  rewrite split_dot_app by assumption. f_equal. apply IH; [discriminate|].
  assumption.
Qed.

(** A value stored under a chain of keys, none of which contains a dot,
    is found by the path that lists them after [$.]; when the chain is
    not in the document the same path gives null. *)
Theorem json_path_lookup_of_keys :
  forall (doc : value) (keys : list pystr),
    keys <> [] -> forallb dot_free keys = true ->
    (forall w, resolves doc keys w ->
               json_path_lookup doc (py "$." ++ join_dots keys) = w)
    /\ ((forall w, ~ resolves doc keys w) ->
        json_path_lookup doc (py "$." ++ join_dots keys) = VNone).
Proof.
  intros doc keys Hne Hk. unfold json_path_lookup.
  rewrite startswith_app. cbn [negb].
  change (skipn 2 (py "$." ++ join_dots keys)) with (join_dots keys).
  rewrite split_dot_join by assumption. split.
  - apply lookup_loop_resolves.
  - intros Hn. destruct (lookup_loop_cases keys doc) as [H|[_ H]];
      [|assumption].
    exfalso. eapply Hn. eassumption.
Qed.

Lemma json_path_lookup_of_keys_witness :
  json_path_lookup doc_ab (py "$." ++ join_dots [py "a"; py "b"]) = VInt 5.
Proof.
  apply (json_path_lookup_of_keys doc_ab [py "a"; py "b"]);
    [discriminate|reflexivity|].
  eapply resolves_cons; [reflexivity|].
  eapply resolves_cons; [reflexivity|]. apply resolves_nil.
Defined.

Lemma lookup_loop_none (parts : list pystr) :
  parts <> [] -> lookup_loop parts VNone = VNone.
Proof. destruct parts; [congruence|reflexivity]. Qed.

Lemma lookup_loop_app (p1 p2 : list pystr) :
  p2 <> [] ->
  forall cur,
    lookup_loop (p1 ++ p2) cur = lookup_loop p2 (lookup_loop p1 cur).
Proof.
  intros Hp2. induction p1 as [|p p1 IH]; intros cur; [reflexivity|].
  cbn [app lookup_loop].
  destruct cur as [|b|z|f|s|l|d];
    try (symmetry; now apply lookup_loop_none).
  destruct (dict_get d p); [apply IH|].
  symmetry. now apply lookup_loop_none.
Qed.

Lemma split_dot_concat (a b : pystr) :
  split_dot (a ++ py "." ++ b) = split_dot a ++ split_dot b.
Proof.
  induction a as [|c a IH]; [reflexivity|].
  cbn [app split_dot]. destruct (is_char c ".").
  - now rewrite IH.
  - rewrite IH. pose proof (split_dot_nonempty a).
    destruct (split_dot a); [congruence|reflexivity].
Qed.

(** Looking up a path in two steps is looking it up at once: the value
    at [$.a.b] is the value at [$.b] in the value at [$.a]. *)
Theorem json_path_lookup_composes :
  forall (doc : value) (a b : pystr),
    json_path_lookup doc (py "$." ++ a ++ py "." ++ b)
    = json_path_lookup (json_path_lookup doc (py "$." ++ a)) (py "$." ++ b).
Proof.
  intros doc a b. unfold json_path_lookup.
  rewrite !startswith_app. cbn [negb].
  change (skipn 2 (py "$." ++ a ++ py "." ++ b)) with (a ++ py "." ++ b).
  change (skipn 2 (py "$." ++ a)) with a.
  change (skipn 2 (py "$." ++ b)) with b.
  rewrite split_dot_concat. apply lookup_loop_app, split_dot_nonempty.
Qed.

Lemma split_dot_parts_dot_free (s : pystr) :
  forall p, In p (split_dot s) -> dot_free p = true.
Proof.
  induction s as [|c s IH]; intros p Hp.
  - destruct Hp as [<-|[]]. reflexivity.
  - cbn [split_dot] in Hp. destruct (is_char c ".") eqn:Ec.
    + destruct Hp as [<-|Hp]; [reflexivity|auto].
    + pose proof (split_dot_nonempty s).
      destruct (split_dot s) as [|seg rest]; [congruence|].
      destruct Hp as [<-|Hp].
      * unfold dot_free. cbn [forallb]. rewrite Ec.
        apply (IH seg). now left.
      * apply IH. now right.
Qed.

Lemma dict_get_in (d : list (pystr * value)) (k : pystr) (v : value) :
  dict_get d k = Some v -> In (k, v) d.
Proof.
  induction d as [|[k' v'] d IH]; [discriminate|]. simpl.
  destruct (pystr_eqb k k') eqn:Ek.
  - apply pystr_eqb_eq in Ek. subst k'. intros H. inversion H. now left.
  - intros H. right. auto.
Qed.

(** What no path reaches: nothing is found in a document that is not a
    mapping (a sequence, a scalar), nor in a mapping all of whose keys
    contain a dot. *)
Theorem json_path_lookup_unreachable :
  forall (doc : value) (path : pystr),
    (forall d, doc = VDict d ->
               forall k v, In (k, v) d -> dot_free k = false) ->
    json_path_lookup doc path = VNone.
Proof.
  intros doc path H. unfold json_path_lookup.
  destruct (startswith path (py "$.")); cbn [negb]; [|reflexivity].
  pose proof (split_dot_nonempty (skipn 2 path)) as Hne.
  pose proof (split_dot_parts_dot_free (skipn 2 path)) as Hfree.
  destruct (split_dot (skipn 2 path)) as [|p parts]; [congruence|].
  cbn [lookup_loop]. destruct doc as [|b|z|f|s|l|d]; try reflexivity.
  destruct (dict_get d p) as [v|] eqn:Eg; [|reflexivity].
  apply dict_get_in in Eg.
  pose proof (Hfree p (or_introl eq_refl)) as Hp.
  rewrite (H d eq_refl p v Eg) in Hp. discriminate Hp.
Qed.

Lemma json_path_lookup_unreachable_witness :
  json_path_lookup (VList [doc_ab]) (py "$.a.b") = VNone
  /\ json_path_lookup (VDict [(py "a.b", VInt 5)]) (py "$.a.b") = VNone.
Proof.
  split.
  - apply json_path_lookup_unreachable. intros d Hd. discriminate Hd.
  - apply json_path_lookup_unreachable. intros d Hd k v Hin.
    inversion Hd; subst. destruct Hin as [Hin|[]]. inversion Hin. reflexivity.
Defined.

(** ** The dispatch *)

Lemma split_single (raw : pystr) :
  forallb (fun c => negb (is_char c ",")) raw = true ->
  strip raw = raw -> raw <> [] ->
  split_top_level_args raw = [raw].
Proof.
  intros Hc Hs Hne. rewrite split_top_level_args_drop, segments_no_comma
    by assumption.
  cbn [map]. rewrite Hs. unfold drop_blank_last. cbn [last].
  destruct raw; [congruence|reflexivity].
Qed.

Lemma normalize_z_Z (s : pystr) : normalize_z (s ++ py "Z") = s ++ py "+00:00".
Proof.
  unfold normalize_z. change (py "Z") with ["Z"%char].
  now rewrite endswith_snoc, removelast_last.
Qed.

Lemma normalize_z_offset (s : pystr) :
  normalize_z (s ++ py "+00:00") = s ++ py "+00:00".
Proof.
  unfold normalize_z.
  change (s ++ py "+00:00") with (s ++ py "+00:0" ++ ["0"%char]).
  rewrite app_assoc. change (py "Z") with ["Z"%char].
  now rewrite endswith_snoc.
Qed.

Section Dispatch.

Variable E : env.

(** The first argument of [jsonPathString] and [jsonPathInt] is never
    looked at: two calls that differ only there have the same value. *)
Theorem jsonPath_ignores_first_argument :
  forall (name raw1 raw2 a b p : pystr) (doc : value),
    name = py "jsonPathString" \/ name = py "jsonPathInt" ->
    has_newline raw1 = false -> has_newline raw2 = false ->
    split_top_level_args raw1 = [a; p] ->
    split_top_level_args raw2 = [b; p] ->
    eval_expr E (call name raw1) doc = eval_expr E (call name raw2) doc.
Proof.
  intros name raw1 raw2 a b p doc Hn H1 H2 Hs1 Hs2.
  assert (Hname : name <> [] /\ forallb is_name_char name = true)
    by (destruct Hn as [-> | ->]; split; (discriminate || reflexivity)).
  destruct Hname as [Hne Hch].
  rewrite !eval_expr_call_text by assumption.
  rewrite !eval_call_jsonPath by assumption.
  now rewrite Hs1, Hs2.
Qed.

(** [fromDateTime] looks at its first argument only: the pattern, and
    anything after it, changes nothing. *)
Theorem fromDateTime_ignores_pattern :
  forall (raw1 raw2 a : pystr) (rest1 rest2 : list pystr) (doc : value),
    has_newline raw1 = false -> has_newline raw2 = false ->
    split_top_level_args raw1 = a :: rest1 ->
    split_top_level_args raw2 = a :: rest2 ->
    eval_expr E (call (py "fromDateTime") raw1) doc
    = eval_expr E (call (py "fromDateTime") raw2) doc.
Proof.
  intros raw1 raw2 a rest1 rest2 doc H1 H2 Hs1 Hs2.
  rewrite !eval_expr_call_text by (assumption || reflexivity || discriminate).
  rewrite !eval_call_fromDateTime. now rewrite Hs1, Hs2.
Qed.

(** A call of [fromDateTime] gives an integer or null, never a string or
    a value of the document. *)
Theorem fromDateTime_integer_or_null :
  forall (expr raw : pystr) (doc : value),
    FUNC_RE_match (strip expr) = Some (py "fromDateTime", raw) ->
    eval_expr E expr doc = Ok VNone
    \/ exists n, eval_expr E expr doc = Ok (VInt n).
Proof.
  intros expr raw doc Hm.
  rewrite (eval_expr_call E expr doc Hm), eval_call_fromDateTime.
  destruct (split_top_level_args raw) as [|a rest]; [now left|].
  destruct (eval_expr_ok E a doc) as [v [Hv _]]. rewrite Hv. cbn [bind].
  destruct v as [|b|z|f|s|l|d]; try now left.
  apply epoch_millis_cases.
Qed.

Lemma coalesce_loop_result (ev : pystr -> outcome value) (args : list pystr)
    (v : value) :
  coalesce_loop ev args = Ok v -> v = VNone \/ is_present v = true.
Proof.
  induction args as [|a args IH]; simpl.
  - intros H. inversion H. now left.
  - destruct (ev a) as [w| |]; simpl; try discriminate.
    destruct (is_present w) eqn:Ew; [|exact IH].
    intros H. inversion H; subst. now right.
Qed.

Lemma coalesce_loop_none_inv (ev : pystr -> outcome value)
    (args : list pystr) :
  coalesce_loop ev args = Ok VNone ->
  forall a, In a args -> exists w, ev a = Ok w /\ skipped w.
Proof.
  induction args as [|b args IH]; intros H a Ha; [destruct Ha|].
  cbn [coalesce_loop] in H.
  destruct (ev b) as [w| |] eqn:Eb; cbn [bind] in H; try discriminate.
  destruct (is_present w) eqn:Ew.
  - inversion H; subst. discriminate Ew.
  - destruct Ha as [<-|Ha].
    + exists w. split; [assumption|]. now apply is_present_skipped.
    + now apply IH.
Qed.

(** A call of [coalesce] has a value that is never an empty string or an
    empty sequence: the value is null exactly when every argument
    evaluates to null, to the empty string or to the empty sequence. *)
Theorem coalesce_never_blank :
  forall (expr raw : pystr) (doc : value),
    FUNC_RE_match (strip expr) = Some (py "coalesce", raw) ->
    exists v,
      eval_expr E expr doc = Ok v
      /\ v <> VStr [] /\ v <> VList []
      /\ (v = VNone
          <-> forall a, In a (split_top_level_args raw) ->
                        exists w, eval_expr E a doc = Ok w /\ skipped w).
Proof.
  intros expr raw doc Hm.
  destruct (eval_expr_ok E expr doc) as [v [Hv _]]. exists v.
  split; [exact Hv|].
  rewrite (eval_expr_call E expr doc Hm), eval_call_coalesce in Hv.
  split; [|split].
  - apply coalesce_loop_result in Hv. destruct Hv as [-> | H];
      [discriminate|intros ->; discriminate H].
  - apply coalesce_loop_result in Hv. destruct Hv as [-> | H];
      [discriminate|intros ->; discriminate H].
  - split.
    + intros ->. now apply coalesce_loop_none_inv.
    + intros Hall. apply coalesce_loop_none in Hall. congruence.
Qed.

(** A time stamp written with a final [Z] has the value of the same time
    stamp written with [+00:00]. *)
Theorem fromDateTime_Z_is_utc :
  forall (s : pystr) (doc : value),
    plain s = true ->
    eval_expr E (call (py "fromDateTime") ("'"%char :: (s ++ py "Z") ++ py "'"))
              doc
    = eval_expr E (call (py "fromDateTime")
                        ("'"%char :: (s ++ py "+00:00") ++ py "'")) doc.
Proof.
  intros s doc Hs.
  assert (Harg : forall t,
             forallb (fun c => negb (is_char c ",")) t = true ->
             has_newline t = false ->
             eval_expr E (call (py "fromDateTime") ("'"%char :: t ++ py "'"))
                       doc
             = epoch_millis E t).
  { intros t Hc Hn.
    rewrite eval_expr_call_text; [|discriminate|reflexivity|].
    - rewrite split_single.
      + rewrite eval_call_fromDateTime. cbv beta iota.
        pose proof (eval_expr_quoted_literal E "'" t doc eq_refl) as Hq.
        change ["'"%char] with (py "'") in Hq. now rewrite Hq.
      + change ("'"%char :: t ++ py "'") with (("'"%char :: t) ++ ["'"%char]).
        rewrite forallb_snoc. cbn [forallb].
        change (negb (is_char "'" ",")) with true. now rewrite Hc.
      + now apply strip_fixed.
      + discriminate.
    - change ("'"%char :: t ++ py "'") with (py "'" ++ t ++ py "'").
      rewrite !has_newline_app, Hn. reflexivity. }
  pose proof (plain_no_comma _ Hs) as Hc.
  pose proof (plain_no_newline _ Hs) as Hn.
  rewrite !Harg.
  - unfold epoch_millis. now rewrite normalize_z_Z, normalize_z_offset.
  - rewrite forallb_app, Hc. reflexivity.
  - rewrite has_newline_app, Hn. reflexivity.
  - rewrite forallb_app, Hc. reflexivity.
  - rewrite has_newline_app, Hn. reflexivity.
Qed.

End Dispatch.

(** The value of a time stamp that carries a UTC offset does not depend
    on the environment: not on the local time zone, nor on anything
    else. *)
Theorem aware_timestamp_env_independent :
  forall (E1 E2 : env) (s : pystr) (dt : datetime) (off : Z),
    fromisoformat (normalize_z s) = Some dt ->
    tzoffset dt = Some off ->
    epoch_millis E1 s = epoch_millis E2 s.
Proof.
  intros E1 E2 s dt off Hp Ho. unfold epoch_millis, timestamp.
  rewrite Hp. cbn [or_raise bind]. now rewrite Ho.
Qed.

Lemma jsonPath_ignores_first_argument_witness :
  eval_expr utc_env (call (py "jsonPathInt") (py "$, '$.a.b'")) doc_ab
  = eval_expr utc_env (call (py "jsonPathInt") (py "whatever(1, 2), '$.a.b'"))
              doc_ab.
Proof.
  apply (jsonPath_ignores_first_argument utc_env (py "jsonPathInt")
           (py "$, '$.a.b'") (py "whatever(1, 2), '$.a.b'")
           (py "$") (py "whatever(1, 2)") (py "'$.a.b'") doc_ab);
    (now right) || reflexivity.
Defined.

Lemma fromDateTime_ignores_pattern_witness :
  eval_expr utc_env (call (py "fromDateTime") (py "'2024-01-01T00:00:00Z'"))
            doc_ab
  = eval_expr utc_env
      (call (py "fromDateTime") (py "'2024-01-01T00:00:00Z', 'yyyy', 3"))
      doc_ab.
Proof.
  apply (fromDateTime_ignores_pattern utc_env
           (py "'2024-01-01T00:00:00Z'") (py "'2024-01-01T00:00:00Z', 'yyyy', 3")
           (py "'2024-01-01T00:00:00Z'") [] [py "'yyyy'"; py "3"] doc_ab);
    reflexivity.
Defined.

Lemma fromDateTime_integer_or_null_witness :
  eval_expr utc_env (py "fromDateTime(jsonPathString($, '$.a'))") doc_ab
  = Ok VNone
  \/ exists n,
      eval_expr utc_env (py "fromDateTime(jsonPathString($, '$.a'))") doc_ab
      = Ok (VInt n).
Proof.
  apply (fromDateTime_integer_or_null utc_env
           (py "fromDateTime(jsonPathString($, '$.a'))")
           (py "jsonPathString($, '$.a')") doc_ab).
  reflexivity.
Defined.

Lemma coalesce_never_blank_witness :
  exists v,
    eval_expr utc_env (py "coalesce('', jsonPathString($, '$.e'))")
              (VDict [(py "e", VList [])]) = Ok v
    /\ v <> VStr [] /\ v <> VList [] /\ v = VNone.
Proof.
  destruct (coalesce_never_blank utc_env
              (py "coalesce('', jsonPathString($, '$.e'))")
              (py "'', jsonPathString($, '$.e')")
              (VDict [(py "e", VList [])]) eq_refl)
    as [v [Hv [H1 [H2 [_ H3]]]]].
  exists v. repeat split; try assumption.
  apply H3. intros a [<-|[<-|[]]]; eexists; (split; [reflexivity|]);
    unfold skipped; auto.
Defined.

Lemma fromDateTime_Z_is_utc_witness :
  eval_expr utc_env
    (call (py "fromDateTime")
          ("'"%char :: (py "2024-01-01T00:00:00" ++ py "Z") ++ py "'")) doc_ab
  = eval_expr utc_env
      (call (py "fromDateTime")
            ("'"%char :: (py "2024-01-01T00:00:00" ++ py "+00:00") ++ py "'"))
      doc_ab.
Proof. apply fromDateTime_Z_is_utc. reflexivity. Defined.

Lemma aware_timestamp_env_independent_witness :
  epoch_millis utc_env (py "2024-01-01T00:00:00+05:30")
  = epoch_millis (offset_env 19800) (py "2024-01-01T00:00:00+05:30").
Proof.
  apply (aware_timestamp_env_independent utc_env (offset_env 19800)
           (py "2024-01-01T00:00:00+05:30")
           (mkdatetime 2024 1 1 0 0 0 0 (Some 19800000000%Z)) 19800000000%Z);
    reflexivity.
Defined.

(** ** Floating point: results that are exact *)

Local Open Scope Z_scope.

Lemma digits2_pos_lt (p : positive) :
  forall k, 0 <= k -> Zpos p < 2 ^ k -> Zpos (digits2_pos p) <= k.
Proof.
  induction p as [p IH|p IH|]; intros k Hk Hp; cbn [digits2_pos].
  - assert (k <> 0) by (intros ->; simpl in Hp; lia).
    replace k with (Z.succ (k - 1)) in Hp by lia.
    rewrite Z.pow_succ_r in Hp by lia.
    specialize (IH (k - 1)). rewrite Pos2Z.inj_succ. lia.
  - assert (k <> 0) by (intros ->; simpl in Hp; lia).
    replace k with (Z.succ (k - 1)) in Hp by lia.
    rewrite Z.pow_succ_r in Hp by lia.
    specialize (IH (k - 1)). rewrite Pos2Z.inj_succ. lia.
  - assert (k <> 0) by (intros ->; simpl in Hp; lia). simpl. lia.
Qed.

Lemma Zdigits2_lt (z k : Z) : 0 < z -> 0 <= k -> z < 2 ^ k -> Zdigits2 z <= k.
Proof.
  intros Hz Hk Hp. destruct z as [|p|p]; try lia. now apply digits2_pos_lt.
Qed.

Lemma Zdigits2_double (z : Z) : 0 < z -> Zdigits2 (2 * z) = Zdigits2 z + 1.
Proof.
  intros Hz. destruct z as [|p|p]; try lia.
  change (2 * Zpos p) with (Zpos p~0). cbn [Zdigits2 digits2_pos]. lia.
Qed.

Lemma Zdigits2_mul_pow2 (z k : Z) :
  0 < z -> 0 <= k -> Zdigits2 (z * 2 ^ k) = Zdigits2 z + k.
Proof.
  intros Hz Hk. revert k Hk. apply natlike_ind.
  - rewrite Z.mul_1_r. lia.
  - intros k Hk IH. rewrite Z.pow_succ_r by assumption.
    replace (z * (2 * 2 ^ k)) with (2 * (z * 2 ^ k)) by lia.
    rewrite Zdigits2_double, IH; [lia|].
    pose proof (pow2_pos k Hk). nia.
Qed.

Lemma shr_1_exact (m : Z) :
  0 <= m ->
  shr_1 (Build_shr_record (2 * m) false false) = Build_shr_record m false false.
Proof. intros Hm. destruct m as [|p|p]; [reflexivity|reflexivity|lia]. Qed.

(** Shifting out zero bits loses nothing. *)
Lemma iter_shr_1_exact (p : positive) :
  forall m, 0 <= m ->
            iter_pos shr_1 p (Build_shr_record (m * 2 ^ Zpos p) false false)
            = Build_shr_record m false false.
Proof.
  induction p as [p IH|p IH|]; intros m Hm; cbn [iter_pos].
  - replace (m * 2 ^ Zpos p~1) with (2 * ((m * 2 ^ Zpos p) * 2 ^ Zpos p)).
    + pose proof (pow2_pos (Zpos p) ltac:(lia)).
      rewrite shr_1_exact by nia. rewrite IH by nia. now apply IH.
    + replace (Zpos p~1) with (Zpos p + Zpos p + 1) by lia.
      rewrite !pow2_split by lia. change (2 ^ 1) with 2. lia.
  - replace (m * 2 ^ Zpos p~0) with ((m * 2 ^ Zpos p) * 2 ^ Zpos p).
    + pose proof (pow2_pos (Zpos p) ltac:(lia)).
      rewrite IH by nia. now apply IH.
    + replace (Zpos p~0) with (Zpos p + Zpos p) by lia.
      rewrite !pow2_split by lia. lia.
  - change (2 ^ 1) with 2. rewrite Z.mul_comm. now apply shr_1_exact.
Qed.

(** One rounding shift of [z * 2 ^ k], where [z] fits the precision, only
    lowers [k]. *)
Lemma shr_fexp_exact (z k E : Z) :
  0 < z -> 0 <= k -> Zdigits2 z <= 53 -> -1000 <= E ->
  exists k',
    0 <= k' <= k
    /\ shr_fexp prec emax (z * 2 ^ k) (E - k) loc_Exact
       = (Build_shr_record (z * 2 ^ k') false false, E - k').
Proof.
  intros Hz Hk Hd HE. unfold shr_fexp, shr. rewrite fexp_eq.
  rewrite Zdigits2_mul_pow2 by assumption.
  assert (Hdz : 1 <= Zdigits2 z) by (destruct z; simpl; lia).
  replace (Z.max (Zdigits2 z + k + (E - k) - 53) (-1074) - (E - k))
    with (Zdigits2 z + k - 53) by lia.
  destruct (Zdigits2 z + k - 53) as [|n|n] eqn:En.
  - exists k. split; [lia|reflexivity].
  - exists (k - Zpos n). split; [lia|]. cbn [shr_record_of_loc].
    replace (z * 2 ^ k) with ((z * 2 ^ (k - Zpos n)) * 2 ^ Zpos n).
    + rewrite iter_shr_1_exact.
      * f_equal. lia.
      * pose proof (pow2_pos (k - Zpos n) ltac:(lia)). nia.
    + rewrite <- Z.mul_assoc, <- pow2_split by lia. f_equal. f_equal. lia.
  - exists k. split; [lia|reflexivity].
Qed.

(** Rounding [z * 2 ^ k] at the exponent [E - k] is exact when [z] fits
    the precision. *)
Lemma binary_round_aux_exact (s : bool) (z k E : Z) :
  0 < z -> 0 <= k -> Zdigits2 z <= 53 -> -1000 <= E <= 900 ->
  exists k' p,
    0 <= k' /\ Zpos p = z * 2 ^ k'
    /\ binary_round_aux prec emax s (z * 2 ^ k) (E - k) loc_Exact
       = S754_finite s p (E - k').
Proof.
  intros Hz Hk Hd HE. unfold binary_round_aux.
  destruct (shr_fexp_exact z k E Hz Hk Hd ltac:(lia)) as [k1 [Hk1 ->]].
  cbn [shr_m loc_of_shr_record round_nearest_even].
  destruct (shr_fexp_exact z k1 E Hz ltac:(lia) Hd ltac:(lia))
    as [k2 [Hk2 ->]].
  cbn [shr_m].
  pose proof (pow2_pos k2 ltac:(lia)) as Hp.
  destruct (z * 2 ^ k2) as [|p|p] eqn:Ep; [nia| |nia].
  assert (Hle : (E - k2 <=? emax - prec) = true)
    by (apply Z.leb_le; unfold emax, prec; lia).
  rewrite Hle. exists k2, p. repeat split; lia.
Qed.

Lemma holds_round (s : bool) (z k E : Z) :
  z <> 0 -> s = (z <? 0) -> 0 <= k -> Zdigits2 (Z.abs z) <= 53 ->
  -1000 <= E <= 900 ->
  holds (binary_round_aux prec emax s (Z.abs z * 2 ^ k) (E - k) loc_Exact) z E.
Proof.
  intros Hz Hs Hk Hd HE.
  destruct (binary_round_aux_exact s (Z.abs z) k E
              ltac:(lia) Hk Hd HE) as [k' [p [Hk' [Hp ->]]]].
  cbn [holds]. repeat split; try assumption. exists k'. repeat split; lia.
Qed.

(** The quotient of two integers, when it is an integer that fits the
    precision, is that integer exactly. *)
Lemma int_truediv_exact (t b : Z) :
  0 < b -> Zdigits2 (Z.abs t) <= 53 -> holds (int_truediv (t * b) b) t 0.
Proof.
  intros Hb Hd. unfold int_truediv.
  destruct (Z.eq_dec t 0) as [->|Ht]; [now destruct b|].
  assert (Htb : t * b <> 0) by nia.
  destruct b as [|pb|pb]; try lia.
  destruct (t * Zpos pb) as [|pa|pa] eqn:Ea; [congruence| |].
  - assert (Ht0 : 0 < t) by nia.
    cbn [exact_of_int SFdiv xorb]. unfold SFdiv_core_binary.
    set (e' := Z.min _ (0 - 0)).
    assert (He' : e' <= 0) by (subst e'; lia).
    assert (Hm : match 0 - 0 - e' with
                 | 0 => Zpos pa
                 | Zpos _ => Z.shiftl (Zpos pa) (0 - 0 - e')
                 | Zneg _ => 0
                 end = (t * 2 ^ (- e')) * Zpos pb).
    { destruct (0 - 0 - e') as [|n|n] eqn:En; [| |lia].
      - replace (- e') with 0 by lia. simpl. lia.
      - rewrite Z.shiftl_mul_pow2 by lia. replace (- e') with (Zpos n) by lia.
        lia. }
    rewrite Hm.
    pose proof (Z.div_mul (t * 2 ^ (- e')) (Zpos pb) ltac:(lia)) as Hq.
    pose proof (Z.mod_mul (t * 2 ^ (- e')) (Zpos pb) ltac:(lia)) as Hr.
    unfold Z.div, Z.modulo in Hq, Hr.
    destruct (Z.div_eucl (t * 2 ^ (- e') * Zpos pb) (Zpos pb)) as [q r].
    subst q r.
    assert (Hloc : new_location (Zpos pb) 0 = loc_Exact).
    { unfold new_location, new_location_even, new_location_odd.
      now destruct (Z.even (Zpos pb)). }
    rewrite Hloc. replace e' with (0 - (- e')) at 2 by lia.
    replace t with (Z.abs t) at 1 by lia.
    apply holds_round; lia.
  - assert (Ht0 : t < 0) by nia.
    cbn [exact_of_int SFdiv xorb]. unfold SFdiv_core_binary.
    set (e' := Z.min _ (0 - 0)).
    assert (He' : e' <= 0) by (subst e'; lia).
    assert (Hm : match 0 - 0 - e' with
                 | 0 => Zpos pa
                 | Zpos _ => Z.shiftl (Zpos pa) (0 - 0 - e')
                 | Zneg _ => 0
                 end = (Z.abs t * 2 ^ (- e')) * Zpos pb).
    { destruct (0 - 0 - e') as [|n|n] eqn:En; [| |lia].
      - replace (- e') with 0 by lia. simpl. lia.
      - rewrite Z.shiftl_mul_pow2 by lia. replace (- e') with (Zpos n) by lia.
        lia. }
    rewrite Hm.
    pose proof (Z.div_mul (Z.abs t * 2 ^ (- e')) (Zpos pb) ltac:(lia)) as Hq.
    pose proof (Z.mod_mul (Z.abs t * 2 ^ (- e')) (Zpos pb) ltac:(lia)) as Hr.
    unfold Z.div, Z.modulo in Hq, Hr.
    destruct (Z.div_eucl (Z.abs t * 2 ^ (- e') * Zpos pb) (Zpos pb)) as [q r].
    subst q r.
    assert (Hloc : new_location (Zpos pb) 0 = loc_Exact).
    { unfold new_location, new_location_even, new_location_odd.
      now destruct (Z.even (Zpos pb)). }
    rewrite Hloc. replace e' with (0 - (- e')) at 2 by lia.
    apply holds_round; lia.
Qed.

(** The product of two floats that hold integers, when it fits the
    precision, holds the product of the integers. *)
Lemma float_mul_exact (x y : spec_float) (z1 z2 : Z) :
  holds x z1 0 -> holds y z2 0 -> Zdigits2 (Z.abs (z1 * z2)) <= 53 ->
  holds (float_mul x y) (z1 * z2) 0.
Proof.
  intros Hx Hy Hd. unfold float_mul.
  destruct x as [sx|sx| |sx mx ex]; try contradiction;
    destruct y as [sy|sy| |sy my ey]; try contradiction; cbn [holds] in *.
  - subst. reflexivity.
  - subst. reflexivity.
  - subst. cbn [SFmul holds]. lia.
  - destruct Hx as [Hz1 [Hsx [k1 [Hk1 [He1 Hm1]]]]].
    destruct Hy as [Hz2 [Hsy [k2 [Hk2 [He2 Hm2]]]]].
    cbn [SFmul]. rewrite Pos2Z.inj_mul, Hm1, Hm2.
    replace (Z.abs z1 * 2 ^ k1 * (Z.abs z2 * 2 ^ k2))
      with (Z.abs (z1 * z2) * 2 ^ (k1 + k2))
      by (rewrite Z.abs_mul, pow2_split by lia; lia).
    replace (ex + ey) with (0 - (k1 + k2)) by lia.
    apply holds_round; try lia; try nia.
    subst sx sy.
    destruct (z1 <? 0) eqn:E1, (z2 <? 0) eqn:E2; cbn [xorb]; symmetry;
      rewrite ?Z.ltb_lt, ?Z.ltb_ge in *; nia.
Qed.

(** [int] of a float that holds an integer is that integer. *)
Lemma int_of_float_exact (x : spec_float) (z : Z) :
  holds x z 0 -> int_of_float x = Ok z.
Proof.
  destruct x as [s|s| |s m e]; cbn [holds]; try contradiction.
  - now intros ->.
  - intros [Hz [Hs [k [Hk [He Hm]]]]]. cbn [int_of_float].
    assert (Hmag : match e with
                   | Zneg p => Z.shiftr (Zpos m) (Zpos p)
                   | _ => Z.shiftl (Zpos m) e
                   end = Z.abs z).
    { destruct e as [|p|p]; try lia.
      - replace k with 0 in Hm by lia. simpl in *. lia.
      - rewrite Z.shiftr_div_pow2 by lia. replace (Zpos p) with k by lia.
        rewrite Hm. apply Z.div_mul. pose proof (pow2_pos k Hk). lia. }
    rewrite Hmag. f_equal. subst s.
    destruct (z <? 0) eqn:Ez; rewrite ?Z.ltb_lt, ?Z.ltb_ge in Ez; lia.
Qed.

(** A whole number of seconds, given in microseconds, comes out as exactly
    a thousand times as many milliseconds. *)
Lemma whole_seconds_millis (t : Z) :
  Z.abs t < 2 ^ 43 ->
  int_of_float (float_mul (int_truediv (t * 1000000) 1000000)
                          (float_of_int 1000))
  = Ok (t * 1000).
Proof.
  intros Ht. apply int_of_float_exact.
  assert (Hd : forall z, Z.abs z < 2 ^ 53 -> Zdigits2 (Z.abs z) <= 53).
  { intros z Hz. destruct (Z.eq_dec z 0) as [->|Hz0]; [simpl; lia|].
    apply Zdigits2_lt; lia. }
  apply float_mul_exact.
  - apply int_truediv_exact; [lia|]. apply Hd.
    assert (2 ^ 43 < 2 ^ 53) by (apply Z.pow_lt_mono_r; lia). lia.
  - change (float_of_int 1000)
      with (S754_finite false 8796093022208000 (-43)).
    cbn [holds]. repeat split; try lia. exists 43. repeat split; lia.
  - apply Hd. rewrite Z.abs_mul. change (Z.abs 1000) with 1000.
    change (2 ^ 53) with (2 ^ 43 * 1024) in *.
    change (2 ^ 43) with 8796093022208 in *. lia.
Qed.

Lemma month_cases (m y : Z) :
  1 <= m <= 12 ->
  0 <= days_before_month y m <= 335 /\ days_in_month y m <= 31.
Proof.
  intros Hm.
  assert (Hc : m = 1 \/ m = 2 \/ m = 3 \/ m = 4 \/ m = 5 \/ m = 6 \/ m = 7
               \/ m = 8 \/ m = 9 \/ m = 10 \/ m = 11 \/ m = 12) by lia.
  unfold days_before_month, days_in_month.
  repeat (destruct Hc as [->|Hc]); try subst m;
    destruct (is_leap y); simpl; lia.
Qed.

Lemma valid_datetime_bounds (dt : datetime) :
  valid_datetime dt = true ->
  Z.abs (wall_seconds dt) < 2 ^ 40
  /\ 0 <= microsecond dt <= 999999
  /\ forall off, tzoffset dt = Some off -> Z.abs off < 86400000000.
Proof.
  unfold valid_datetime. intros H.
  repeat (apply andb_prop in H; destruct H as [H ?]).
  split; [|split].
  - destruct (month_cases (month dt) (year dt) ltac:(lia)) as [Hb Hi].
    unfold wall_seconds, ymd2ord, epoch_ord.
    change (2 ^ 40) with 1099511627776.
    assert (0 <= (year dt - 1) / 4 <= 2500)
      by (split; [apply Z.div_pos; lia|apply Z.div_le_upper_bound; lia]).
    assert (0 <= (year dt - 1) / 100 <= 100)
      by (split; [apply Z.div_pos; lia|apply Z.div_le_upper_bound; lia]).
    assert (0 <= (year dt - 1) / 400 <= 25)
      by (split; [apply Z.div_pos; lia|apply Z.div_le_upper_bound; lia]).
    lia.
  - lia.
  - intros off Ho.
    match goal with Hz : match tzoffset dt with _ => _ end = true |- _ =>
      rewrite Ho in Hz; apply andb_prop in Hz end.
    lia.
Qed.

Section WholeSeconds.

Variable E : env.

Lemma epoch_millis_whole_seconds (s : pystr) (dt : datetime) (off t : Z) :
  fromisoformat (normalize_z s) = Some dt ->
  tzoffset dt = Some off ->
  wall_seconds dt * 1000000 + microsecond dt - off = t * 1000000 ->
  epoch_millis E s = Ok (VInt (t * 1000)).
Proof.
  intros Hp Ho Ht. unfold epoch_millis, timestamp.
  rewrite Hp. cbn [or_raise bind]. rewrite Ho. cbn [bind]. rewrite Ht.
  destruct (valid_datetime_bounds dt (fromisoformat_valid _ _ Hp))
    as [Hw [Hu Hoff]].
  specialize (Hoff off Ho).
  rewrite whole_seconds_millis; [reflexivity|].
  change (2 ^ 40) with 1099511627776 in Hw.
  change (2 ^ 43) with 8796093022208. lia.
Qed.

(** For a time stamp with a UTC offset that falls on a whole second,
    [fromDateTime] gives exactly a thousand times its seconds since the
    epoch: the float arithmetic loses nothing there. *)
Theorem fromDateTime_whole_seconds_exact :
  forall (expr raw a0 : pystr) (rest : list pystr) (s : pystr)
         (dt : datetime) (off t : Z) (doc : value),
    FUNC_RE_match (strip expr) = Some (py "fromDateTime", raw) ->
    split_top_level_args raw = a0 :: rest ->
    eval_expr E a0 doc = Ok (VStr s) ->
    fromisoformat (normalize_z s) = Some dt ->
    tzoffset dt = Some off ->
    wall_seconds dt * 1000000 + microsecond dt - off = t * 1000000 ->
    eval_expr E expr doc = Ok (VInt (t * 1000)).
Proof.
  intros expr raw a0 rest s dt off t doc Hm Ha Hv Hp Ho Ht.
  rewrite (eval_expr_call E expr doc Hm), eval_call_fromDateTime, Ha, Hv.
  cbn [bind]. now apply epoch_millis_whole_seconds with dt off.
Qed.

End WholeSeconds.

Lemma fromDateTime_whole_seconds_exact_witness :
  eval_expr utc_env (py "fromDateTime('2024-01-01T05:30:00+05:30', 'x')") doc_ab
  = Ok (VInt (1704067200 * 1000)).
Proof.
  apply (fromDateTime_whole_seconds_exact utc_env
           (py "fromDateTime('2024-01-01T05:30:00+05:30', 'x')")
           (py "'2024-01-01T05:30:00+05:30', 'x'")
           (py "'2024-01-01T05:30:00+05:30'") [py "'x'"]
           (py "2024-01-01T05:30:00+05:30")
           (mkdatetime 2024 1 1 5 30 0 0 (Some 19800000000))
           19800000000 1704067200 doc_ab); reflexivity.
Defined.

(** [float] of an integer that fits the precision is that integer. *)
Lemma float_of_int_exact (z : Z) :
  Zdigits2 (Z.abs z) <= 53 -> holds (float_of_int z) z 0.
Proof.
  intros Hd. unfold float_of_int.
  assert (Hr : forall s m, s = (z <? 0) -> Zpos m = Z.abs z ->
                           holds (binary_round prec emax s m 0) z 0).
  { intros s m Hs Hm. unfold binary_round.
    destruct (shl_align_value m 0
                (fexp prec emax (Zpos (digits2_pos m) + 0))) as [H1 H2].
    destruct (shl_align m 0 _) as [mz ez]. cbn [fst snd] in *.
    rewrite H2, Hm. replace ez with (0 - (0 - ez)) at 2 by lia.
    apply holds_round; (assumption || lia). }
  destruct z as [|p|p]; cbn [binary_normalize].
  - reflexivity.
  - now apply Hr.
  - now apply Hr.
Qed.

Section NaiveWholeSeconds.

Variable E : env.

(** For a time stamp without offset that falls on a whole second,
    [fromDateTime] gives exactly a thousand times the POSIX time the
    platform gives for that local reading. *)
Theorem fromDateTime_naive_whole_seconds :
  forall (expr raw a0 : pystr) (rest : list pystr) (s : pystr)
         (dt : datetime) (secs : Z) (doc : value),
    FUNC_RE_match (strip expr) = Some (py "fromDateTime", raw) ->
    split_top_level_args raw = a0 :: rest ->
    eval_expr E a0 doc = Ok (VStr s) ->
    fromisoformat (normalize_z s) = Some dt ->
    tzoffset dt = None -> microsecond dt = 0 ->
    local_seconds E dt = Some secs -> Z.abs secs < 2 ^ 43 ->
    eval_expr E expr doc = Ok (VInt (secs * 1000)).
Proof.
  intros expr raw a0 rest s dt secs doc Hm Ha Hv Hp Hn Hu Hl Hs.
  rewrite (eval_expr_call E expr doc Hm), eval_call_fromDateTime, Ha, Hv.
  cbn [bind]. unfold epoch_millis, timestamp.
  rewrite Hp. cbn [or_raise bind]. rewrite Hn, Hl, Hu. cbn [or_raise bind].
  change (float_div (float_of_int 0) (float_of_int 1000000))
    with (S754_zero false).
  assert (Hd : forall z, Z.abs z < 2 ^ 53 -> Zdigits2 (Z.abs z) <= 53).
  { intros z Hz. destruct (Z.eq_dec z 0) as [->|Hz0]; [simpl; lia|].
    apply Zdigits2_lt; lia. }
  assert (H53 : Z.abs secs < 2 ^ 53).
  { assert (2 ^ 43 < 2 ^ 53) by (apply Z.pow_lt_mono_r; lia). lia. }
  pose proof (float_of_int_exact secs (Hd secs H53)) as Hx.
  assert (Hadd : holds (float_add (float_of_int secs) (S754_zero false))
                       secs 0).
  { unfold float_add. destruct (float_of_int secs) as [sx|sx| |sx mx ex];
      cbn [holds] in Hx; try contradiction; cbn [SFadd].
    - now destruct sx.
    - exact Hx. }
  rewrite (int_of_float_exact _ (secs * 1000)); [reflexivity|].
  apply float_mul_exact; [assumption| |].
  - change (float_of_int 1000)
      with (S754_finite false 8796093022208000 (-43)).
    cbn [holds]. repeat split; try lia. exists 43. repeat split; lia.
  - apply Hd. rewrite Z.abs_mul. change (Z.abs 1000) with 1000.
    change (2 ^ 53) with (2 ^ 43 * 1024) in *.
    change (2 ^ 43) with 8796093022208 in *. lia.
Qed.

End NaiveWholeSeconds.

Lemma fromDateTime_naive_whole_seconds_witness :
  eval_expr (offset_env 19800) (py "fromDateTime('2024-01-01T05:30:00')") doc_ab
  = Ok (VInt (1704067200 * 1000)).
Proof.
  apply (fromDateTime_naive_whole_seconds (offset_env 19800)
           (py "fromDateTime('2024-01-01T05:30:00')")
           (py "'2024-01-01T05:30:00'") (py "'2024-01-01T05:30:00'") []
           (py "2024-01-01T05:30:00")
           (mkdatetime 2024 1 1 5 30 0 0 None) 1704067200 doc_ab);
    reflexivity.
Defined.

(** ** [main] *)

Local Close Scope Z_scope.

Section MainProperties.

Variable E : env.

Lemma reportable_step (sample t : value) :
  reportable t ->
  exists col s v,
    method_get t (py "columnName") = Good col
    /\ method_get t (py "transformFunction") = Good (VStr s)
    /\ eval_any E (VStr s) sample = Good v
    /\ transform_value E sample t = v
    /\ transform_line E sample t = Transform col (VStr s) v.
Proof.
  intros [d [s [-> Hs]]].
  destruct (eval_expr_ok E s sample) as [v [Hv _]].
  exists (match dict_get d (py "columnName") with Some x => x | None => VNone end),
    s, v.
  unfold transform_line, transform_value, eval_any, method_get.
  rewrite Hs, Hv. repeat split.
Qed.

(** The loop over configurations that can all be reported: one line each,
    in order, then the closing message. *)
Lemma transforms_loop_reports (sample : value) (ts : list value) :
  Forall reportable ts ->
  forall ok out,
    transforms_loop E ts sample ok out
    = mkrun (out ++ map (transform_line E sample) ts
                 ++ [if ok && forallb (fun t => negb (is_none
                                         (transform_value E sample t))) ts
                     then AllProduced else SomeNone])
            None.
Proof.
  induction 1 as [|t ts Ht _ IH]; intros ok out.
  - cbn [transforms_loop map forallb app]. now rewrite andb_true_r.
  - destruct (reportable_step sample t Ht) as [col [s [v [Hc [Hf [Hv [Hval Hl]]]]]]].
    cbn [transforms_loop]. rewrite Hc, Hf, Hv, IH.
    cbn [map forallb]. rewrite Hl, Hval, <- app_assoc, andb_assoc.
    reflexivity.
Qed.

(** The loop stops at the first configuration without a string
    [transformFunction], after the lines of those before it. *)
Lemma transforms_loop_stops (sample : value) (good : list value)
    (bad : value) (rest : list value) :
  Forall reportable good ->
  (forall s, method_get bad (py "transformFunction") <> Good (VStr s)) ->
  forall ok out,
    transforms_loop E (good ++ bad :: rest) sample ok out
    = mkrun (out ++ map (transform_line E sample) good) (Some AttributeError).
Proof.
  intros Hg Hb. induction Hg as [|t ts Ht _ IH]; intros ok out.
  - cbn [app transforms_loop map]. rewrite app_nil_r.
    destruct bad as [|b|z|f|s|l|d]; try reflexivity.
    cbn [method_get] in *.
    destruct (dict_get d (py "transformFunction")) as [[|b|z|f|s|l|d']|];
      try reflexivity.
    exfalso. now apply (Hb s).
  - destruct (reportable_step sample t Ht) as [col [s [v [Hc [Hf [Hv [Hval Hl]]]]]]].
    cbn [app transforms_loop]. rewrite Hc, Hf, Hv, IH.
    cbn [map]. now rewrite Hl, <- app_assoc.
Qed.

Lemma main_body_table_with (table sample : value) (ts : list value) :
  table_with table ts -> ts <> [] ->
  main_body E table sample
  = transforms_loop E ts sample true [Validating (table_name table)].
Proof.
  intros [d [c [-> [Hic Htc]]]] Hne. unfold main_body, table_name.
  cbn [method_get]. rewrite Hic.
  assert (Hc : c <> []) by (intros ->; discriminate Htc).
  assert (Hor : py_or (VDict c) (VDict []) = VDict c)
    by (unfold py_or; destruct c; [congruence|reflexivity]).
  rewrite Hor. cbn [method_get]. rewrite Htc.
  assert (Hor2 : py_or (VList ts) (VList []) = VList ts)
    by (unfold py_or; destruct ts; [congruence|reflexivity]).
  rewrite Hor2.
  assert (Ht : truthy (VList ts) = true) by (destruct ts; [congruence|reflexivity]).
  rewrite Ht. reflexivity.
Qed.

(** With frames left for its expression, a configuration is reported as
    it is on a stack that is deep enough. *)
Lemma fits_step (frames : nat) (sample t : value) :
  fits frames t ->
  exists col s v,
    method_get t (py "columnName") = Good col
    /\ method_get t (py "transformFunction") = Good (VStr s)
    /\ eval_any_frames E frames (VStr s) sample = Good v
    /\ transform_value E sample t = v
    /\ transform_line E sample t = Transform col (VStr s) v.
Proof.
  intros [d [s [-> [Hs Hl]]]].
  destruct (eval_expr_ok E s sample) as [v [Hv _]].
  exists (match dict_get d (py "columnName") with Some x => x | None => VNone end),
    s, v.
  unfold transform_line, transform_value, eval_any_frames, method_get.
  rewrite Hs, (@eval_frames_enough E sample frames s Hl), Hv.
  destruct frames as [|frames]; [lia|]. repeat split.
Qed.

Lemma transforms_loop_frames_reports (frames : nat) (sample : value)
    (ts : list value) :
  Forall (fits frames) ts ->
  forall ok out,
    transforms_loop_frames E frames ts sample ok out
    = mkrun (out ++ map (transform_line E sample) ts
                 ++ [if ok && forallb (fun t => negb (is_none
                                         (transform_value E sample t))) ts
                     then AllProduced else SomeNone])
            None.
Proof.
  induction 1 as [|t ts Ht _ IH]; intros ok out.
  - cbn [transforms_loop_frames map forallb app]. now rewrite andb_true_r.
  - destruct (fits_step frames sample t Ht)
      as [col [s [v [Hc [Hf [Hv [Hval Hl]]]]]]].
    cbn [transforms_loop_frames]. rewrite Hc, Hf, Hv, IH.
    cbn [map forallb]. rewrite Hl, Hval, <- app_assoc, andb_assoc.
    reflexivity.
Qed.

(** The loop stops at the first configuration whose expression runs out
    of frames, after the lines of those before it. *)
Lemma transforms_loop_frames_stops (frames : nat) (sample : value)
    (good : list value) (deep : value) (rest : list value)
    (d : list (pystr * value)) (s : pystr) :
  Forall (fits frames) good ->
  deep = VDict d ->
  dict_get d (py "transformFunction") = Some (VStr s) ->
  eval_frames E frames s sample = Raised RecursionError ->
  forall ok out,
    transforms_loop_frames E frames (good ++ deep :: rest) sample ok out
    = mkrun (out ++ map (transform_line E sample) good)
            (Some (Uncaught RecursionError)).
Proof.
  intros Hg -> Hs Hr. induction Hg as [|t ts Ht _ IH]; intros ok out.
  - cbn [app transforms_loop_frames map method_get]. rewrite app_nil_r, Hs.
    unfold eval_any_frames. rewrite Hr. now destruct frames.
  - destruct (fits_step frames sample t Ht)
      as [col [s' [v [Hc [Hf [Hv [Hval Hl]]]]]]].
    cbn [app transforms_loop_frames]. rewrite Hc, Hf, Hv, IH.
    cbn [map]. now rewrite Hl, <- app_assoc.
Qed.

Lemma main_frames_table_with (frames : nat) (table sample : value)
    (ts : list value) :
  table_with table ts -> ts <> [] ->
  main_frames E frames table sample
  = transforms_loop_frames E frames ts sample true
                           [Validating (table_name table)].
Proof.
  intros [d [c [-> [Hic Htc]]]] Hne. unfold main_frames, table_name.
  cbn [method_get]. rewrite Hic.
  assert (Hc : c <> []) by (intros ->; discriminate Htc).
  assert (Hor : py_or (VDict c) (VDict []) = VDict c)
    by (unfold py_or; destruct c; [congruence|reflexivity]).
  rewrite Hor. cbn [method_get]. rewrite Htc.
  assert (Hor2 : py_or (VList ts) (VList []) = VList ts)
    by (unfold py_or; destruct ts; [congruence|reflexivity]).
  rewrite Hor2.
  assert (Ht : truthy (VList ts) = true) by (destruct ts; [congruence|reflexivity]).
  rewrite Ht. reflexivity.
Qed.

Lemma fits_reportable (frames : nat) (t : value) : fits frames t -> reportable t.
Proof. intros [d [s [-> [Hs _]]]]. now exists d, s. Qed.

(** For a table whose transform configurations are a non-empty list of
    mappings with a string [transformFunction], each with frames left
    for its expression, [main] prints the header, one line per
    configuration in the order of the list, each with the value of its
    expression on the sample, and the closing message; it raises
    nothing, and does what [main_body] does.  Where the evaluation of an
    expression runs out of frames, [main] raises [RecursionError] after
    the lines of the configurations before it, with no closing
    message. *)
Theorem main_reports_each_transform :
  forall (frames : nat) (table sample : value),
    (forall ts,
        table_with table ts -> ts <> [] -> Forall (fits frames) ts ->
        main_frames E frames table sample
        = mkrun (Validating (table_name table)
                 :: map (transform_line E sample) ts ++ [verdict E sample ts])
                None
        /\ main_frames E frames table sample = main_body E table sample)
    /\ (forall good deep rest d s,
          table_with table (good ++ deep :: rest) ->
          Forall (fits frames) good ->
          deep = VDict d ->
          dict_get d (py "transformFunction") = Some (VStr s) ->
          eval_frames E frames s sample = Raised RecursionError ->
          main_frames E frames table sample
          = mkrun (Validating (table_name table)
                   :: map (transform_line E sample) good)
                  (Some (Uncaught RecursionError))).
Proof.
  intros frames table sample. split.
  - intros ts Ht Hne Hf.
    rewrite (main_frames_table_with frames table sample ts Ht Hne).
    rewrite (main_body_table_with table sample ts Ht Hne).
    rewrite transforms_loop_frames_reports by assumption.
    rewrite transforms_loop_reports
      by (eapply Forall_impl; [apply fits_reportable|eassumption]).
    split; reflexivity.
  - intros good deep rest d s Ht Hg Hd Hs Hr.
    rewrite (main_frames_table_with frames table sample
               (good ++ deep :: rest) Ht)
      by (destruct good; discriminate).
    now rewrite (transforms_loop_frames_stops frames sample good deep rest
                   d s Hg Hd Hs Hr).
Qed.

(** The closing message of such a run says that all transforms produced
    values exactly when no transform evaluated to null; an empty string is
    a value. *)
Theorem main_verdict :
  forall (table sample : value) (ts : list value),
    table_with table ts -> ts <> [] -> Forall reportable ts ->
    (last (printed (main_body E table sample)) NoTransforms = AllProduced
     <-> forall t, In t ts -> transform_value E sample t <> VNone)
    /\ (last (printed (main_body E table sample)) NoTransforms = SomeNone
        <-> exists t, In t ts /\ transform_value E sample t = VNone).
Proof.
  intros table sample ts Ht Hne Hr.
  rewrite (main_body_table_with table sample ts Ht Hne).
  rewrite transforms_loop_reports by assumption.
  cbn [printed]. rewrite app_assoc, last_last. cbn [andb].
  destruct (forallb (fun t => negb (is_none (transform_value E sample t))) ts)
    eqn:Ef.
  - rewrite forallb_forall in Ef. split; split; try discriminate.
    + intros _ t Hin Hv. specialize (Ef t Hin). rewrite Hv in Ef.
      discriminate Ef.
    + reflexivity.
    + intros [t [Hin Hv]]. specialize (Ef t Hin). rewrite Hv in Ef.
      discriminate Ef.
  - split; split; try discriminate; try reflexivity.
    + intros Hall. exfalso.
      assert (Hf : forallb (fun t => negb (is_none (transform_value E sample t)))
                     ts = true).
      { apply forallb_forall. intros t Hin. specialize (Hall t Hin).
        destruct (transform_value E sample t); (congruence || reflexivity). }
      congruence.
    + intros _.
      assert (Hex : existsb (fun t => is_none (transform_value E sample t)) ts
                    = true).
      { clear - Ef. induction ts as [|t ts IH]; [discriminate|].
        cbn [forallb existsb] in *.
        destruct (is_none (transform_value E sample t)); [reflexivity|].
        cbn [negb andb orb] in *. auto. }
      apply existsb_exists in Hex. destruct Hex as [t [Hin Hv]].
      exists t. split; [assumption|].
      destruct (transform_value E sample t); (discriminate || reflexivity).
Qed.

(** A configuration without a string [transformFunction] (the key is
    missing, or its value is not a string, or the configuration is not a
    mapping) ends the run with [AttributeError]: the configurations before
    it are reported, nothing after, and no closing message. *)
Theorem main_stops_at_missing_transform :
  forall (table sample : value) (good : list value) (bad : value)
         (rest : list value),
    table_with table (good ++ bad :: rest) ->
    Forall reportable good ->
    (forall s, method_get bad (py "transformFunction") <> Good (VStr s)) ->
    main_body E table sample
    = mkrun (Validating (table_name table)
             :: map (transform_line E sample) good)
            (Some AttributeError).
Proof.
  intros table sample good bad rest Ht Hg Hb.
  rewrite (main_body_table_with table sample (good ++ bad :: rest) Ht)
    by (destruct good; discriminate).
  now rewrite transforms_loop_stops.
Qed.

(** Without transform configurations (no [ingestionConfig] or a false
    one, or one without [transformConfigs] or with a false one, such as
    null or the empty list), [main] prints that there are none and
    evaluates nothing. *)
Theorem main_no_transforms :
  forall (d : list (pystr * value)) (sample : value),
    absent_or_falsy (dict_get d (py "ingestionConfig"))
    \/ (exists c, dict_get d (py "ingestionConfig") = Some (VDict c)
                  /\ absent_or_falsy (dict_get c (py "transformConfigs"))) ->
    main_body E (VDict d) sample = mkrun [NoTransforms] None.
Proof.
  intros d sample H. unfold main_body. cbn [method_get].
  assert (Hfin : forall tc, absent_or_falsy tc ->
            (if negb (truthy (py_or match tc with Some x => x | None => VNone end
                                    (VList [])))
             then mkrun [NoTransforms] None
             else match method_get (VDict d) (py "tableName") with
                  | Good tn =>
                      match iterate (py_or match tc with
                                           | Some x => x
                                           | None => VNone
                                           end (VList [])) with
                      | Good ts =>
                          transforms_loop E ts sample true [Validating tn]
                      | Bad f => mkrun [Validating tn] (Some f)
                      end
                  | Bad f => mkrun [] (Some f)
                  end) = mkrun [NoTransforms] None).
  { intros tc Htc. unfold py_or. destruct tc as [v|]; cbn [absent_or_falsy] in Htc.
    - now rewrite Htc.
    - reflexivity. }
  destruct H as [H|[c [Hc H]]].
  - assert (Hor : py_or match dict_get d (py "ingestionConfig") with
                        | Some x => x
                        | None => VNone
                        end (VDict []) = VDict []).
    { unfold py_or. destruct (dict_get d (py "ingestionConfig")) as [v|];
        cbn [absent_or_falsy] in H; [now rewrite H|reflexivity]. }
    rewrite Hor. cbn [method_get dict_get]. apply (Hfin None I).
  - rewrite Hc. unfold py_or at 1. destruct (truthy (VDict c)) eqn:Et.
    + cbn [method_get]. now apply Hfin.
    + cbn [method_get dict_get]. apply (Hfin None I).
Qed.

(** A malformed table configuration makes [main] raise: before anything
    is printed when the table, or a true [ingestionConfig], is not a
    mapping; after the header when the transform configurations are a
    number or a boolean, which cannot be iterated. *)
Theorem main_malformed_table :
  forall (sample : value),
    (forall table, (forall d, table <> VDict d) ->
                   main_body E table sample = mkrun [] (Some AttributeError))
    /\ (forall d ic,
          dict_get d (py "ingestionConfig") = Some ic ->
          truthy ic = true -> (forall c, ic <> VDict c) ->
          main_body E (VDict d) sample = mkrun [] (Some AttributeError))
    /\ (forall d c tc,
          dict_get d (py "ingestionConfig") = Some (VDict c) ->
          dict_get c (py "transformConfigs") = Some tc ->
          truthy tc = true ->
          (exists b, tc = VBool b) \/ (exists z, tc = VInt z)
          \/ (exists f, tc = VFloat f) ->
          main_body E (VDict d) sample
          = mkrun [Validating (table_name (VDict d))] (Some TypeError)).
Proof.
  intros sample. split; [|split].
  - intros table Ht. unfold main_body.
    destruct table as [|b|z|f|s|l|d]; try reflexivity.
    now destruct (Ht d).
  - intros d ic Hic Ht Hn. unfold main_body. cbn [method_get].
    rewrite Hic. unfold py_or. rewrite Ht.
    destruct ic as [|b|z|f|s|l|c]; try reflexivity.
    now destruct (Hn c).
  - intros d c tc Hic Htc Ht Hk. unfold main_body, table_name.
    cbn [method_get]. rewrite Hic.
    assert (Hc : c <> []) by (intros ->; discriminate Htc).
    assert (Hor : py_or (VDict c) (VDict []) = VDict c)
      by (unfold py_or; destruct c; [congruence|reflexivity]).
    rewrite Hor. cbn [method_get]. rewrite Htc.
    unfold py_or. rewrite Ht. cbv beta iota zeta. rewrite Ht. cbn [negb].
    destruct Hk as [[b ->]|[[z ->]|[f ->]]]; reflexivity.
Qed.

End MainProperties.

Lemma table_of_with (ts : list value) : table_with (table_of (VList ts)) ts.
Proof.
  eexists. eexists. split; [reflexivity|]. split; reflexivity.
Qed.

Lemma transform_b_reportable : reportable transform_b.
Proof. eexists. eexists. split; reflexivity. Qed.

Lemma transform_x_reportable : reportable transform_x.
Proof. eexists. eexists. split; reflexivity. Qed.

Lemma transform_b_fits : fits 30 transform_b.
Proof.
  eexists. eexists. split; [reflexivity|]. split; [reflexivity|].
  vm_compute. lia.
Qed.

Lemma transform_x_fits : fits 30 transform_x.
Proof.
  eexists. eexists. split; [reflexivity|]. split; [reflexivity|].
  vm_compute. lia.
Qed.

Lemma main_reports_each_transform_witness :
  main_frames utc_env 30 (table_of (VList [transform_b; transform_x])) doc_ab
  = mkrun [Validating (VStr (py "events"));
           Transform (VStr (py "b")) (VStr (py "jsonPathInt($, '$.a.b')"))
                     (VInt 5);
           Transform (VStr (py "x")) (VStr (py "coalesce('')")) VNone;
           SomeNone]
          None
  /\ main_frames utc_env 1 (table_of (VList [transform_b; transform_x])) doc_ab
     = mkrun [Validating (VStr (py "events"))]
             (Some (Uncaught RecursionError)).
Proof.
  split.
  - destruct (main_reports_each_transform utc_env 30
                (table_of (VList [transform_b; transform_x])) doc_ab)
      as [H _].
    apply (H [transform_b; transform_x]).
    + apply table_of_with.
    + discriminate.
    + repeat constructor; [apply transform_b_fits|apply transform_x_fits].
  - destruct (main_reports_each_transform utc_env 1
                (table_of (VList [transform_b; transform_x])) doc_ab)
      as [_ H].
    apply (H [] transform_b [transform_x]
             [(py "columnName", VStr (py "b"));
              (py "transformFunction", VStr (py "jsonPathInt($, '$.a.b')"))]
             (py "jsonPathInt($, '$.a.b')")).
    + apply (table_of_with [transform_b; transform_x]).
    + constructor.
    + reflexivity.
    + reflexivity.
    + reflexivity.
Defined.

Lemma main_verdict_witness :
  last (printed (main_body utc_env (table_of (VList [transform_b])) doc_ab))
       NoTransforms
  = AllProduced.
Proof.
  apply (main_verdict utc_env (table_of (VList [transform_b])) doc_ab
           [transform_b]).
  - apply table_of_with.
  - discriminate.
  - repeat constructor. apply transform_b_reportable.
  - intros t [<-|[]]. discriminate.
Defined.

Lemma main_stops_at_missing_transform_witness :
  main_body utc_env
    (table_of (VList [transform_b; VDict [(py "columnName", VStr (py "y"))];
                      transform_x]))
    doc_ab
  = mkrun [Validating (VStr (py "events"));
           Transform (VStr (py "b")) (VStr (py "jsonPathInt($, '$.a.b')"))
                     (VInt 5)]
          (Some AttributeError).
Proof.
  apply (main_stops_at_missing_transform utc_env
           (table_of (VList [transform_b;
                             VDict [(py "columnName", VStr (py "y"))];
                             transform_x]))
           doc_ab [transform_b] (VDict [(py "columnName", VStr (py "y"))])
           [transform_x]).
  - apply (table_of_with [transform_b;
                          VDict [(py "columnName", VStr (py "y"))];
                          transform_x]).
  - repeat constructor. apply transform_b_reportable.
  - intros s Hs. discriminate Hs.
Defined.

Lemma main_no_transforms_witness :
  main_body utc_env (VDict [(py "tableName", VStr (py "events"))]) doc_ab
  = mkrun [NoTransforms] None
  /\ main_body utc_env
       (VDict [(py "ingestionConfig",
                VDict [(py "transformConfigs", VList [])])]) doc_ab
     = mkrun [NoTransforms] None.
Proof.
  split.
  - apply main_no_transforms. left. exact I.
  - apply main_no_transforms. right.
    exists [(py "transformConfigs", VList [])]. split; reflexivity.
Defined.

Lemma main_malformed_table_witness :
  main_body utc_env (VList []) doc_ab = mkrun [] (Some AttributeError)
  /\ main_body utc_env (VDict [(py "ingestionConfig", VStr (py "x"))]) doc_ab
     = mkrun [] (Some AttributeError)
  /\ main_body utc_env (table_of (VInt 3)) doc_ab
     = mkrun [Validating (VStr (py "events"))] (Some TypeError).
Proof.
  destruct (main_malformed_table utc_env doc_ab) as [H1 [H2 H3]].
  split; [|split].
  - apply H1. intros d Hd. discriminate Hd.
  - apply (H2 _ (VStr (py "x"))); [reflexivity|reflexivity|].
    intros c Hc. discriminate Hc.
  - apply (H3 [(py "tableName", VStr (py "events"));
                (py "ingestionConfig", VDict [(py "transformConfigs", VInt 3)])]
              [(py "transformConfigs", VInt 3)] (VInt 3));
      [reflexivity|reflexivity|reflexivity|].
    right. left. now exists 3%Z.
Defined.

(** ** Bare words *)

Section BareWords.

Variable E : env.

(** A token without whitespace or opening parenthesis that starts with
    neither a digit, a sign nor a quote (a word, [$], a dotted path)
    evaluates to itself, as a string. *)
Theorem eval_expr_bare_word :
  forall (c : ascii) (s : pystr) (doc : value),
    forallb (fun a => negb (isspace a)) (c :: s) = true ->
    forallb (fun a => negb (is_char a "(")) (c :: s) = true ->
    is_digit c = false -> is_char c "-" = false -> is_char c "+" = false ->
    is_quote c = false ->
    eval_expr E (c :: s) doc = Ok (VStr (c :: s)).
Proof.
  intros c s doc Hsp Hpar Hd Hm Hp Hq.
  rewrite eval_expr_bare; try assumption.
  - unfold int_of_str. rewrite strip_solid by assumption.
    rewrite Hm, Hp. unfold int_magnitude.
    unfold is_digit in Hd. destruct (digit_value c); [discriminate|].
    reflexivity.
  - unfold is_quote, is_char in Hq. simpl. now rewrite !andb_true_r.
Qed.

End BareWords.

Lemma eval_expr_bare_word_witness :
  eval_expr utc_env (py "$.a.b") doc_ab = Ok (VStr (py "$.a.b")).
Proof.
  apply (eval_expr_bare_word utc_env "$" (py ".a.b") doc_ab); reflexivity.
Defined.

(** ** The call stack *)

Lemma nested_coalesce_plain (n : nat) :
  forallb (fun c => negb (is_char c ",")) (nested_coalesce n) = true
  /\ has_newline (nested_coalesce n) = false
  /\ strip (nested_coalesce n) = nested_coalesce n
  /\ nested_coalesce n <> [].
Proof.
  induction n as [|n [Hc [Hn [Hs Hne]]]]; [repeat split; discriminate|].
  cbn [nested_coalesce]. unfold call. repeat split.
  - rewrite !forallb_app, Hc. reflexivity.
  - rewrite !has_newline_app, Hn. reflexivity.
  - apply strip_call; [discriminate|reflexivity].
  - discriminate.
Qed.

Section Stack.

Variable E : env.

Lemma eval_nested_call (ev : pystr -> outcome value) (n : nat) (doc : value) :
  FUNC_RE_match (strip (nested_coalesce (S n)))
  = Some (py "coalesce", nested_coalesce n)
  /\ eval_call E ev (py "coalesce")
               (split_top_level_args (nested_coalesce n)) doc
     = (v <- ev (nested_coalesce n) ;; if is_present v then Ok v else Ok VNone).
Proof.
  destruct (nested_coalesce_plain n) as [Hc [Hn [Hs Hne]]]. split.
  - cbn [nested_coalesce].
    rewrite strip_call by (discriminate || reflexivity).
    apply FUNC_RE_match_call; [discriminate|reflexivity|assumption].
  - rewrite (split_single _ Hc Hs Hne). reflexivity.
Qed.

(** [n] nested calls have the value 1 on a stack that is deep enough. *)
Lemma eval_expr_nested (n : nat) (doc : value) :
  eval_expr E (nested_coalesce n) doc = Ok (VInt 1).
Proof.
  induction n as [|n IH]; [reflexivity|].
  destruct (eval_nested_call (fun a => eval_expr E a doc) n doc) as [Hm Hc].
  rewrite (eval_expr_call E _ doc Hm), Hc, IH. reflexivity.
Qed.

(** They raise with as many frames as there are calls, or fewer. *)
Lemma eval_frames_nested (doc : value) (frames : nat) :
  forall n, frames <= n ->
            eval_frames E frames (nested_coalesce n) doc
            = Raised RecursionError.
Proof.
  induction frames as [|room IH]; intros n Hn; [reflexivity|].
  destruct n as [|n]; [lia|].
  destruct (eval_nested_call (fun a => eval_frames E room a doc) n doc)
    as [Hm Hc].
  cbn [eval_frames]. rewrite Hm, Hc, IH by lia.
  now destruct room.
Qed.

End Stack.

(** C5, as the specification words it, fails twice.  A thousand nested
    calls have a value, and their evaluation with a thousand frames left
    raises [RecursionError]; and an unbalanced call is not an error and
    does not give null either: it is read as a literal. *)
Lemma deep_nesting_raises :
  eval_expr utc_env (nested_coalesce 1000) (VDict []) = Ok (VInt 1)
  /\ eval_frames utc_env 1000 (nested_coalesce 1000) (VDict [])
     = Raised RecursionError
  /\ eval_expr utc_env (py "coalesce(1") (VDict [])
     = Ok (VStr (py "coalesce(1")).
Proof.
  split; [apply eval_expr_nested|].
  split; [apply eval_frames_nested; lia|reflexivity].
Qed.
